(** * ghsa_client.models.version: semantic versions and version predicates

    A shallow embedding of [src/ghsa_client/models/version.py] together with
    the parts of its two dependencies that the module calls:
    [semver.VersionInfo] (parse, compare, match, __str__) and
    [packaging.version.Version] (the PEP 440 pattern and its accessors).

    Conventions of the embedding:
    - a Python [str] is a list of characters; a character is a code point
      below 256 (an [ascii]);
    - a Python [int] that the code keeps non-negative is an [N], without
      bound (the interpreter's optional limit on the digits of a
      conversion between [int] and [str] is left out);
    - a function that may raise returns a [result];
    - a regular expression is a term of [regex], run by a backtracking
      matcher that follows the rules of Python's [re] module (ordered
      alternation, greedy repetition, groups keeping their last match). *)

From Stdlib Require Import List Ascii String NArith ZArith Bool Lia Arith.
From Stdlib Require Decimal DecimalN DecimalFacts.
Import ListNotations.

Set Implicit Arguments.

(** ** Strings *)

Definition str := list ascii.

Definition lit (s : string) : str := list_ascii_of_string s.

Local Open Scope char_scope.
Local Open Scope list_scope.

Definition code (c : ascii) : N := N_of_ascii c.

Definition in_range (lo hi c : ascii) : bool :=
  (code lo <=? code c)%N && (code c <=? code hi)%N.

Definition is_chr (x c : ascii) : bool := Ascii.eqb c x.

(** [\d] on code points below 256. *)
Definition is_digit (c : ascii) : bool := in_range "0" "9" c.

Definition is_pos_digit (c : ascii) : bool := in_range "1" "9" c.

(** [[a-zA-Z-]] *)
Definition is_alpha_hyphen (c : ascii) : bool :=
  in_range "a" "z" c || in_range "A" "Z" c || is_chr "-" c.

(** [[0-9a-zA-Z-]] *)
Definition is_alnum_hyphen (c : ascii) : bool :=
  is_digit c || is_alpha_hyphen c.

(** [.] without DOTALL: anything but a line feed. *)
Definition is_not_newline (c : ascii) : bool := negb (is_chr "010" c).

(** [\s], and the characters removed by [str.strip()]: the code points
    below 256 for which [str.isspace()] holds. *)
Definition is_space (c : ascii) : bool :=
  in_range "009" "013" c || in_range "028" "032" c
  || is_chr "133" c || is_chr "160" c.

(** [str.lower()] on one character, for the letters A-Z. *)
Definition lower_char (c : ascii) : ascii :=
  if in_range "A" "Z" c then ascii_of_N (code c + 32) else c.

Definition lower (s : str) : str := map lower_char s.

(** A pattern character under [re.IGNORECASE]. *)
Definition is_ichr (x c : ascii) : bool := Ascii.eqb (lower_char c) x.

(** [[a-z0-9]] under [re.IGNORECASE]. *)
Definition is_ialnum (c : ascii) : bool :=
  in_range "a" "z" (lower_char c) || is_digit c.

(** [[-_\.]] *)
Definition is_sep (c : ascii) : bool :=
  is_chr "-" c || is_chr "_" c || is_chr "." c.

Fixpoint str_eqb (a b : str) : bool :=
  match a, b with
  | [], [] => true
  | x :: a', y :: b' => Ascii.eqb x y && str_eqb a' b'
  | _, _ => false
  end.

(** [s.startswith(p)] *)
Fixpoint startswith (p s : str) : bool :=
  match p, s with
  | [], _ => true
  | x :: p', y :: s' => Ascii.eqb x y && startswith p' s'
  | _ :: _, [] => false
  end.

(** [s.split(".")]: the pieces between the dots, always at least one. *)
Fixpoint split_dot (s : str) : list str :=
  match s with
  | [] => [[]]
  | c :: s' =>
      if is_chr "." c then [] :: split_dot s'
      else match split_dot s' with
           | p :: ps => (c :: p) :: ps
           | [] => [[c]]
           end
  end.

(** [s.split(".", maxsplit=n)] *)
Fixpoint split_dot_max (n : nat) (s : str) : list str :=
  match n with
  | O => [s]
  | S n' =>
      (fix go (s : str) : list str :=
         match s with
         | [] => [[]]
         | c :: s' =>
             if is_chr "." c then [] :: split_dot_max n' s'
             else match go s' with
                  | p :: ps => (c :: p) :: ps
                  | [] => [[c]]
                  end
         end) s
  end.

(** [s.count(".")] *)
Definition count_dot (s : str) : nat :=
  List.length (filter (is_chr ".") s).

Fixpoint lstrip (s : str) : str :=
  match s with
  | c :: s' => if is_space c then lstrip s' else s
  | [] => []
  end.

(** [s.strip()] *)
Definition strip (s : str) : str := rev (lstrip (rev (lstrip s))).

(** ** Integers and their decimal form *)

Fixpoint uint_chars (d : Decimal.uint) : str :=
  match d with
  | Decimal.Nil => []
  | Decimal.D0 d => "0" :: uint_chars d
  | Decimal.D1 d => "1" :: uint_chars d
  | Decimal.D2 d => "2" :: uint_chars d
  | Decimal.D3 d => "3" :: uint_chars d
  | Decimal.D4 d => "4" :: uint_chars d
  | Decimal.D5 d => "5" :: uint_chars d
  | Decimal.D6 d => "6" :: uint_chars d
  | Decimal.D7 d => "7" :: uint_chars d
  | Decimal.D8 d => "8" :: uint_chars d
  | Decimal.D9 d => "9" :: uint_chars d
  end.

(** [f"{n:d}"] and [str(n)] for a non-negative [n]. *)
Definition dec (n : N) : str := uint_chars (N.to_uint n).

Definition digit_cons (c : ascii) : option (Decimal.uint -> Decimal.uint) :=
  if is_chr "0" c then Some Decimal.D0
  else if is_chr "1" c then Some Decimal.D1
  else if is_chr "2" c then Some Decimal.D2
  else if is_chr "3" c then Some Decimal.D3
  else if is_chr "4" c then Some Decimal.D4
  else if is_chr "5" c then Some Decimal.D5
  else if is_chr "6" c then Some Decimal.D6
  else if is_chr "7" c then Some Decimal.D7
  else if is_chr "8" c then Some Decimal.D8
  else if is_chr "9" c then Some Decimal.D9
  else None.

Fixpoint chars_uint (s : str) : option Decimal.uint :=
  match s with
  | [] => Some Decimal.Nil
  | c :: s' =>
      match digit_cons c, chars_uint s' with
      | Some f, Some d => Some (f d)
      | _, _ => None
      end
  end.

(** [int(s)] on the strings that reach it in this module: text that a digit
    pattern has matched, possibly with white space around it ([int] strips
    it).  [None] stands for the [ValueError] of any other text. *)
Definition py_int (s : str) : option N :=
  match strip s with
  | [] => None
  | t => option_map N.of_uint (chars_uint t)
  end.

(** ** Errors *)

Inductive exn : Type :=
| ValueError (msg : str)
| NotImplementedError
| IndexError.

Inductive result (A : Type) : Type :=
| Ok (a : A)
| Raise (e : exn).
Arguments Ok {A} a.
Arguments Raise {A} e.

Definition bind {A B} (r : result A) (f : A -> result B) : result B :=
  match r with
  | Ok a => f a
  | Raise e => Raise e
  end.

Notation "x <- r ;; k" := (bind r (fun x => k))
  (at level 61, r at next level, right associativity).

(** ** Regular expressions, as Python's [re] runs them *)

Inductive regex : Type :=
| Eps                                 (* the empty pattern *)
| Cls (p : ascii -> bool)             (* one character of a class *)
| Seq (a b : regex)                   (* ab *)
| Alt (a b : regex)                   (* a|b, left first *)
| Star (a : regex)                    (* a*, greedy *)
| Grp (name : string) (a : regex)     (* a capturing group *)
| Eol.                                (* $ *)

Definition Chr (c : ascii) : regex := Cls (is_chr c).
Definition Opt (a : regex) : regex := Alt a Eps.       (* a? *)
Definition Plus (a : regex) : regex := Seq a (Star a). (* a+ *)

(** The literal text [s]. *)
Fixpoint Lit (s : str) : regex :=
  match s with
  | [] => Eps
  | [c] => Chr c
  | c :: s' => Seq (Chr c) (Lit s')
  end.

(** The literal text [s] under [re.IGNORECASE]. *)
Fixpoint ILit (s : str) : regex :=
  match s with
  | [] => Eps
  | [c] => Cls (is_ichr c)
  | c :: s' => Seq (Cls (is_ichr c)) (ILit s')
  end.

(** The groups of a match: latest binding first. *)
Definition groups := list (string * str).

Fixpoint group (name : string) (g : groups) : option str :=
  match g with
  | [] => None
  | (n, v) :: g' => if String.eqb n name then Some v else group name g'
  end.

(** The loop of a greedy repetition: [body] matches one round and calls its
    continuation on what is left; a round that consumes nothing is refused.
    At most [n] rounds are tried. *)
Fixpoint star_loop {A}
    (body : str -> groups -> (str -> groups -> option A) -> option A)
    (k : str -> groups -> option A) (n : nat) (s : str) (g : groups)
  : option A :=
  match n with
  | O => k s g
  | S n' =>
      match body s g (fun s' g' =>
              if (List.length s' <? List.length s)%nat
              then star_loop body k n' s' g' else None) with
      | Some x => Some x
      | None => k s g
      end
  end.

(** The matcher, in continuation-passing style: [run r s g k] matches [r] at
    the front of [s] and hands the rest of the input to [k]; when [k] fails
    the matcher backtracks into [r].  A repetition iterates at most
    [length s] times since each round must consume a character. *)
Fixpoint run {A} (r : regex) (s : str) (g : groups)
    (k : str -> groups -> option A) {struct r} : option A :=
  match r with
  | Eps => k s g
  | Cls p =>
      match s with
      | c :: s' => if p c then k s' g else None
      | [] => None
      end
  | Seq a b => run a s g (fun s' g' => run b s' g' k)
  | Alt a b =>
      match run a s g k with
      | Some x => Some x
      | None => run b s g k
      end
  | Star a => star_loop (run a) k (List.length s) s g
  | Grp name a =>
      run a s g (fun s' g' =>
        k s' ((name, firstn (List.length s - List.length s') s) :: g'))
  | Eol =>
      match s with
      | [] => k s g
      | ["010"] => k s g
      | _ => None
      end
  end.

(** [re.match(r, s)]: the groups of the first match at the start of [s]. *)
Definition re_match (r : regex) (s : str) : option groups :=
  run r s [] (fun _ g => Some g).

(** The matches of a pattern, without the order in which the matcher finds
    them: [Mat r s g s' g'] says that [r] can match at the front of [s],
    leaving [s'], and turn the groups [g] into [g']. *)
Inductive Mat : regex -> str -> groups -> str -> groups -> Prop :=
| MEps s g : Mat Eps s g s g
| MCls p c s g : p c = true -> Mat (Cls p) (c :: s) g s g
| MSeq a b s g s1 g1 s2 g2 :
    Mat a s g s1 g1 -> Mat b s1 g1 s2 g2 -> Mat (Seq a b) s g s2 g2
| MAltL a b s g s' g' : Mat a s g s' g' -> Mat (Alt a b) s g s' g'
| MAltR a b s g s' g' : Mat b s g s' g' -> Mat (Alt a b) s g s' g'
| MStar0 a s g : Mat (Star a) s g s g
| MStarS a s g s1 g1 s2 g2 :
    Mat a s g s1 g1 -> (List.length s1 < List.length s)%nat ->
    Mat (Star a) s1 g1 s2 g2 -> Mat (Star a) s g s2 g2
| MGrp name a s g s' g' :
    Mat a s g s' g' ->
    Mat (Grp name a) s g s'
        ((name, firstn (List.length s - List.length s') s) :: g')
| MEol s g : s = [] \/ s = ["010"] -> Mat Eol s g s g.

(** ** The semver package: [semver.VersionInfo] *)

Module VersionInfo.

Record t : Type := Build
  { major : N;
    minor : N;
    patch : N;
    prerelease : option str;
    build : option str }.

(** [0|[1-9]\d*] *)
Definition numeric_re : regex :=
  Alt (Chr "0") (Seq (Cls is_pos_digit) (Star (Cls is_digit))).

(** [0|[1-9]\d*|\d*[a-zA-Z-][0-9a-zA-Z-]*] *)
Definition pre_ident_re : regex :=
  Alt (Chr "0")
    (Alt (Seq (Cls is_pos_digit) (Star (Cls is_digit)))
         (Seq (Star (Cls is_digit))
              (Seq (Cls is_alpha_hyphen) (Star (Cls is_alnum_hyphen))))).

Definition prerelease_re : regex :=
  Seq pre_ident_re (Star (Seq (Chr ".") pre_ident_re)).

(** [[0-9a-zA-Z-]+(?:\.[0-9a-zA-Z-]+)*] *)
Definition build_re : regex :=
  Seq (Plus (Cls is_alnum_hyphen))
      (Star (Seq (Chr ".") (Plus (Cls is_alnum_hyphen)))).

(** [{opt_minor}] and [{opt_patch}] of [_REGEX_TEMPLATE]: [?] or nothing. *)
Definition quant (optional : bool) (r : regex) : regex :=
  if optional then Opt r else r.

(** [_REGEX_TEMPLATE]; [_REGEX] is [semver_re false] and
    [_REGEX_OPTIONAL_MINOR_AND_PATCH] is [semver_re true]. *)
Definition semver_re (optional : bool) : regex :=
  Seq (Grp "major" numeric_re)
 (Seq (quant optional
         (Seq (Chr ".")
         (Seq (Grp "minor" numeric_re)
              (quant optional (Seq (Chr ".") (Grp "patch" numeric_re))))))
 (Seq (Opt (Seq (Chr "-") (Grp "prerelease" prerelease_re)))
 (Seq (Opt (Seq (Chr "+") (Grp "build" build_re)))
      Eol))).

(** [int(x)] in [__init__]. *)
Definition int_part (x : str) : result N :=
  match py_int x with
  | Some n => Ok n
  | None => Raise (ValueError (lit "invalid literal for int()"))
  end.

(** A part that [parse] replaces by 0 when it is falsy, then [int]. *)
Definition int_part_or_0 (x : option str) : result N :=
  match x with
  | None | Some [] => Ok 0%N
  | Some x => int_part x
  end.

(** [VersionInfo.parse(version, optional_minor_and_patch)] *)
Definition parse (version : str) (optional_minor_and_patch : bool)
  : result t :=
  match re_match (semver_re optional_minor_and_patch) version with
  | None =>
      Raise (ValueError (version ++ (lit " is not valid SemVer string")))
  | Some g =>
      ma <- match group "major" g with
            | Some x => int_part x
            | None => Raise (ValueError version)
            end ;;
      mi <- int_part_or_0 (group "minor" g) ;;
      pa <- int_part_or_0 (group "patch" g) ;;
      Ok (Build ma mi pa (group "prerelease" g) (group "build" g))
  end.

(** [_cmp(a, b) = (a > b) - (a < b)] on integers. *)
Definition _cmp (a b : N) : Z :=
  match N.compare a b with
  | Lt => (-1)%Z
  | Eq => 0%Z
  | Gt => 1%Z
  end.

(** [_cmp] on strings: Python orders them by code point, then by length. *)
Fixpoint _cmp_str (a b : str) : Z :=
  match a, b with
  | [], [] => 0%Z
  | [], _ :: _ => (-1)%Z
  | _ :: _, [] => 1%Z
  | x :: a', y :: b' =>
      match N.compare (code x) (code y) with
      | Lt => (-1)%Z
      | Gt => 1%Z
      | Eq => _cmp_str a' b'
      end
  end.

(** [_cmp] on the tuples [(major, minor, patch)]. *)
Definition _cmp_triple (a b : N * N * N) : Z :=
  let '(a1, a2, a3) := a in
  let '(b1, b2, b3) := b in
  if (_cmp a1 b1 =? 0)%Z
  then if (_cmp a2 b2 =? 0)%Z then _cmp a3 b3 else _cmp a2 b2
  else _cmp a1 b1.

(** A part of a prerelease, after
    [int(x) if re.match(r"^\d+$", x) else x]. *)
Inductive tag : Type :=
| TInt (n : N)
| TStr (x : str).

Definition all_digits_re : regex := Seq (Plus (Cls is_digit)) Eol.

Definition to_tag (x : str) : tag :=
  match re_match all_digits_re x, py_int x with
  | Some _, Some n => TInt n
  | _, _ => TStr x
  end.

Definition cmp_prerelease_tag (a b : tag) : Z :=
  match a, b with
  | TInt x, TInt y => _cmp x y
  | TInt _, TStr _ => (-1)%Z
  | TStr _, TInt _ => 1%Z
  | TStr x, TStr y => _cmp_str x y
  end.

(** The loop over [zip(a_parts, b_parts)]: the first difference, or 0
    when the loop runs to its end. *)
Fixpoint cmp_zip (a b : list tag) : Z :=
  match a, b with
  | x :: a', y :: b' =>
      let c := cmp_prerelease_tag x y in
      if (c =? 0)%Z then cmp_zip a' b' else c
  | _, _ => 0%Z
  end.

(** [x or ""] *)
Definition or_empty (x : option str) : str :=
  match x with
  | Some s => s
  | None => []
  end.

Definition _nat_cmp (a b : option str) : Z :=
  let a := or_empty a in
  let b := or_empty b in
  let c := cmp_zip (map to_tag (split_dot a)) (map to_tag (split_dot b)) in
  if (c =? 0)%Z
  then _cmp (N.of_nat (List.length a)) (N.of_nat (List.length b))
  else c.

(** [not x] for an optional string. *)
Definition falsy (x : option str) : bool :=
  match x with
  | None | Some [] => true
  | Some (_ :: _) => false
  end.

(** [self.compare(other)] for [other] a [VersionInfo]. *)
Definition compare (self other : t) : Z :=
  let x := _cmp_triple (major self, minor self, patch self)
                       (major other, minor other, patch other) in
  if negb (x =? 0)%Z then x
  else
    let rccmp := _nat_cmp (prerelease self) (prerelease other) in
    if (rccmp =? 0)%Z then 0%Z
    else if falsy (prerelease self) then 1%Z
    else if falsy (prerelease other) then (-1)%Z
    else rccmp.

(** [self.compare(other)] for [other] a string: [cls.parse(other)]
    first. *)
Definition compare_str (self : t) (other : str) : result Z :=
  o <- parse other false ;;
  Ok (compare self o).

Definition __eq__ (self other : t) : bool := (compare self other =? 0)%Z.
Definition __lt__ (self other : t) : bool := (compare self other <? 0)%Z.

Definition mem_str (x : str) (l : list string) : bool :=
  existsb (fun y => str_eqb x (lit y)) l.

Definition possibilities_dict (prefix : str) : list Z :=
  if str_eqb prefix (lit ">") then [1%Z]
  else if str_eqb prefix (lit "<") then [(-1)%Z]
  else if str_eqb prefix (lit "==") then [0%Z]
  else if str_eqb prefix (lit "!=") then [(-1)%Z; 1%Z]
  else if str_eqb prefix (lit ">=") then [0%Z; 1%Z]
  else if str_eqb prefix (lit "<=") then [(-1)%Z; 0%Z]
  else [].

Definition mem_Z (x : Z) (l : list Z) : bool := existsb (Z.eqb x) l.

(** [self.match(match_expr)] *)
Definition match_ (self : t) (match_expr : str) : result bool :=
  let prefix := firstn 2 match_expr in
  let split : option (str * str) :=
    if mem_str prefix [">="; "<="; "=="; "!="]%string
    then Some (prefix, skipn 2 match_expr)
    else match prefix with
         | c :: _ =>
             if is_chr ">" c || is_chr "<" c
             then Some ([c], skipn 1 match_expr)
             else if is_digit c then Some (lit "==", match_expr)
             else None
         | [] => None
         end in
  match split with
  | None =>
      Raise (ValueError
               (lit "match_expr parameter should be in format <op><ver>"))
  | Some (prefix, match_version) =>
      cmp_res <- compare_str self match_version ;;
      Ok (mem_Z cmp_res (possibilities_dict prefix))
  end.

(** [str(self)] *)
Definition __str__ (self : t) : str :=
  let version :=
    dec (major self) ++ lit "." ++ dec (minor self) ++ lit "."
        ++ dec (patch self) in
  let version :=
    if falsy (prerelease self) then version
    else version ++ lit "-" ++ or_empty (prerelease self) in
  if falsy (build self) then version
  else version ++ lit "+" ++ or_empty (build self).

End VersionInfo.

(** ** The packaging package: [packaging.version.Version] *)

Module PyPIVersion.

(** [[-_\.]?] *)
Definition sep_re : regex := Opt (Cls is_sep).

(** [[0-9]+] *)
Definition num_re : regex := Plus (Cls is_digit).

(** [VERSION_PATTERN] between [^\s*] and [\s*$], compiled with
    [re.VERBOSE | re.IGNORECASE]. *)
Definition version_re : regex :=
  Seq (Star (Cls is_space))
 (Seq (Opt (Cls (is_ichr "v")))
 (Seq (Opt (Seq (Grp "epoch" num_re) (Chr "!")))
 (Seq (Grp "release" (Seq num_re (Star (Seq (Chr ".") num_re))))
 (Seq (Opt (Grp "pre"
        (Seq sep_re
        (Seq (Grp "pre_l"
                (Alt (ILit (lit "alpha")) (Alt (ILit (lit "a"))
                (Alt (ILit (lit "beta")) (Alt (ILit (lit "b"))
                (Alt (ILit (lit "preview")) (Alt (ILit (lit "pre"))
                (Alt (ILit (lit "c")) (ILit (lit "rc"))))))))))
        (Seq sep_re
             (Opt (Grp "pre_n" num_re)))))))
 (Seq (Opt (Grp "post"
        (Alt (Seq (Chr "-") (Grp "post_n1" num_re))
             (Seq sep_re
             (Seq (Grp "post_l"
                     (Alt (ILit (lit "post")) (Alt (ILit (lit "rev"))
                          (ILit (lit "r")))))
             (Seq sep_re
                  (Opt (Grp "post_n2" num_re))))))))
 (Seq (Opt (Grp "dev"
        (Seq sep_re
        (Seq (Grp "dev_l" (ILit (lit "dev")))
        (Seq sep_re
             (Opt (Grp "dev_n" num_re)))))))
 (Seq (Opt (Seq (Chr "+")
        (Grp "local"
           (Seq (Plus (Cls is_ialnum))
                (Star (Seq (Cls is_sep) (Plus (Cls is_ialnum))))))))
 (Seq (Star (Cls is_space))
      Eol)))))))).

(** The fields of [_Version] that the accessors below read. *)
Record t : Type := Build
  { epoch : N;
    release : list N;
    _pre : option (str * N);
    _post : option (str * N);
    _dev : option (str * N) }.

Definition int_ (x : str) : result N :=
  match py_int x with
  | Some n => Ok n
  | None => Raise (ValueError (lit "invalid literal for int()"))
  end.

Fixpoint ints (l : list str) : result (list N) :=
  match l with
  | [] => Ok []
  | x :: l' => n <- int_ x ;; ns <- ints l' ;; Ok (n :: ns)
  end.

(** [_parse_letter_version(letter, number)] *)
Definition _parse_letter_version (letter number : option str)
  : result (option (str * N)) :=
  match letter with
  | Some ((_ :: _) as letter) =>
      let number := match number with
                    | None => lit "0"
                    | Some n => n
                    end in
      let letter := lower letter in
      let letter :=
        if str_eqb letter (lit "alpha") then lit "a"
        else if str_eqb letter (lit "beta") then lit "b"
        else if VersionInfo.mem_str letter ["c"; "pre"; "preview"]%string
             then lit "rc"
        else if VersionInfo.mem_str letter ["rev"; "r"]%string
             then lit "post"
        else letter in
      n <- int_ number ;;
      Ok (Some (letter, n))
  | _ =>
      match number with
      | Some ((_ :: _) as number) =>
          n <- int_ number ;;
          Ok (Some (lit "post", n))
      | _ => Ok None
      end
  end.

(** [a or b] on two optional strings. *)
Definition or_ (a b : option str) : option str :=
  if VersionInfo.falsy a then b else a.

(** [Version(version)] *)
Definition __init__ (version : str) : result t :=
  match re_match version_re version with
  | None =>
      Raise (ValueError (lit "Invalid version: '" ++ version ++ lit "'"))
  | Some g =>
      e <- match group "epoch" g with
           | Some ((_ :: _) as x) => int_ x
           | _ => Ok 0%N
           end ;;
      r <- ints (split_dot (VersionInfo.or_empty (group "release" g))) ;;
      pre <- _parse_letter_version (group "pre_l" g) (group "pre_n" g) ;;
      post <- _parse_letter_version (group "post_l" g)
                (or_ (group "post_n1" g) (group "post_n2" g)) ;;
      dev <- _parse_letter_version (group "dev_l" g) (group "dev_n" g) ;;
      Ok (Build e r pre post dev)
  end.

Definition major (self : t) : N := nth 0 (release self) 0%N.
Definition minor (self : t) : N := nth 1 (release self) 0%N.
Definition micro (self : t) : N := nth 2 (release self) 0%N.
Definition pre (self : t) : option (str * N) := _pre self.
Definition post (self : t) : option N := option_map snd (_post self).
Definition dev (self : t) : option N := option_map snd (_dev self).

End PyPIVersion.

(** ** models/version.py *)

Inductive VersionFormat : Type :=
| SEMVER
| PYPI
| UNKNOWN.

Definition VersionFormat_eqb (a b : VersionFormat) : bool :=
  match a, b with
  | SEMVER, SEMVER | PYPI, PYPI | UNKNOWN, UNKNOWN => true
  | _, _ => false
  end.

(** [if x:] for an optional integer. *)
Definition truthy_int (x : option N) : bool :=
  match x with
  | Some n => negb (n =? 0)%N
  | None => false
  end.

Module SemanticVersion.

(** [semver_parts] holds [VersionInfo.to_dict()], and [version_info]
    rebuilds the [VersionInfo] from it: the record stands for both. *)
Record t : Type := Build
  { semver_parts : VersionInfo.t;
    original_version : str;
    prefix : str;
    version_format : VersionFormat }.

Definition version_info (self : t) : VersionInfo.t := semver_parts self.

(** [str(self)] *)
Definition __str__ (self : t) : str :=
  let version_str := VersionInfo.__str__ (version_info self) in
  match prefix self with
  | _ :: _ => prefix self ++ version_str
  | [] => version_str
  end.

Definition installable_version (self : t) : str :=
  match original_version self with
  | _ :: _ => skipn (List.length (prefix self)) (original_version self)
  | [] => __str__ self
  end.

(** The pattern [^((?:.+@)?v|V)(G2)] where the second group [G2] is
    [.] repeated with a star. *)
Definition prefix_re : regex :=
  Seq (Grp "1"
         (Alt (Seq (Opt (Seq (Plus (Cls is_not_newline)) (Chr "@")))
                   (Chr "v"))
              (Chr "V")))
      (Grp "2" (Star (Cls is_not_newline))).

Definition _parse_semver (version prefix original_version : str)
  : result t :=
  match VersionInfo.parse version true with
  | Ok semver_version =>
      Ok (Build semver_version original_version prefix SEMVER)
  | Raise (ValueError _) =>
      Raise (ValueError (lit "Invalid semver version: " ++ version))
  | Raise e => Raise e
  end.

(** The body of the [try] of [_parse_pypi], after [PyPIVersion(version)]. *)
Definition pypi_to_semver (pypi_version : PyPIVersion.t) : VersionInfo.t :=
  let major := PyPIVersion.major pypi_version in
  let minor := PyPIVersion.minor pypi_version in
  let patch := PyPIVersion.micro pypi_version in
  let prerelease :=
    match PyPIVersion.pre pypi_version with
    | Some (pre_type, pre_num) =>
        if str_eqb pre_type (lit "a")
        then Some (lit "alpha." ++ dec pre_num)
        else if str_eqb pre_type (lit "b")
        then Some (lit "beta." ++ dec pre_num)
        else if str_eqb pre_type (lit "rc")
        then Some (lit "rc." ++ dec pre_num)
        else Some (pre_type ++ lit "." ++ dec pre_num)
    | None => None
    end in
  let build :=
    if truthy_int (PyPIVersion.dev pypi_version)
    then Some (lit "dev." ++
               dec (match PyPIVersion.dev pypi_version with
                    | Some n => n
                    | None => 0%N
                    end))
    else None in
  let build :=
    match PyPIVersion.post pypi_version with
    | Some p =>
        if negb (p =? 0)%N
        then if VersionInfo.falsy build
             then Some (lit "post." ++ dec p)
             else Some (VersionInfo.or_empty build ++ lit ".post" ++ dec p)
        else build
    | None => build
    end in
  VersionInfo.Build major minor patch prerelease build.

Definition _parse_pypi (version prefix original_version : str) : result t :=
  match PyPIVersion.__init__ version with
  | Ok pypi_version =>
      Ok (Build (pypi_to_semver pypi_version) original_version prefix PYPI)
  | Raise _ => Raise (ValueError (lit "Invalid PyPI version: " ++ version))
  end.

Definition _parse_legacy (version prefix original_version : str)
  : result t :=
  let version :=
    if (2 <? count_dot version)%nat
    then match split_dot_max 3 version with
         | [major; minor; patch; release] =>
             major ++ lit "." ++ minor ++ lit "." ++ patch ++ lit "-"
                   ++ release
         | _ => version
         end
    else version in
  match VersionInfo.parse version true with
  | Ok semver_version =>
      Ok (Build semver_version original_version prefix UNKNOWN)
  | Raise (ValueError _) =>
      Raise (ValueError (lit "Invalid version: " ++ version))
  | Raise e => Raise e
  end.

(** [SemanticVersion.parse(version)] *)
Definition parse (version : str) : result t :=
  let original_version := version in
  let '(prefix, version) :=
    match re_match prefix_re version with
    | Some g =>
        (VersionInfo.or_empty (group "1" g),
         VersionInfo.or_empty (group "2" g))
    | None => ([], version)
    end in
  match _parse_semver version prefix original_version with
  | Raise (ValueError _) =>
      match _parse_pypi version prefix original_version with
      | Raise (ValueError _) =>
          _parse_legacy version prefix original_version
      | r => r
      end
  | r => r
  end.

(** The values [__eq__] may be handed. *)
Inductive object : Type :=
| SemanticVersion_ (v : t)
| VersionInfo_ (v : VersionInfo.t)
| str_ (s : str)
| int_ (z : Z)
| None_.

Definition __eq__ (self : t) (other : object) : result bool :=
  match other with
  | SemanticVersion_ other =>
      Ok (VersionInfo.__eq__ (version_info self) (version_info other))
  | _ => Raise NotImplementedError
  end.

Definition __lt__ (self other : t) : bool :=
  VersionInfo.__lt__ (version_info self) (version_info other).

(** [self == other] between two versions: [__eq__] cannot raise there. *)
Definition eq (self other : t) : bool :=
  VersionInfo.__eq__ (version_info self) (version_info other).

(** The methods that [functools.total_ordering] derives from [__lt__]
    and [__eq__], and the default [__ne__]. *)
Definition __ne__ (self other : t) : bool := negb (eq self other).
Definition __le__ (self other : t) : bool :=
  __lt__ self other || eq self other.
Definition __gt__ (self other : t) : bool :=
  negb (__lt__ self other) && __ne__ self other.
Definition __ge__ (self other : t) : bool := negb (__lt__ self other).

Definition variations (self : t) : list str :=
  let variations := [VersionInfo.__str__ (version_info self)] in
  let variations :=
    match original_version self with
    | _ :: _ => variations ++ [original_version self]
    | [] => variations
    end in
  match prefix self with
  | _ :: _ => variations ++ [VersionInfo.__str__ (version_info self)]
  | [] => variations
  end.

(** [x.split('.')[1]] *)
Definition split_1 (x : str) : result str :=
  match split_dot x with
  | _ :: y :: _ => Ok y
  | _ => Raise IndexError
  end.

Definition to_pypi (self : t) : result str :=
  let version_info := version_info self in
  let pypi_version :=
    dec (VersionInfo.major version_info) ++ lit "."
        ++ dec (VersionInfo.minor version_info) ++ lit "."
        ++ dec (VersionInfo.patch version_info) in
  pypi_version <-
    (if VersionInfo.falsy (VersionInfo.prerelease version_info)
     then Ok pypi_version
     else
       let prerelease :=
         VersionInfo.or_empty (VersionInfo.prerelease version_info) in
       if startswith (lit "alpha.") prerelease
       then n <- split_1 prerelease ;; Ok (pypi_version ++ lit "a" ++ n)
       else if startswith (lit "beta.") prerelease
       then n <- split_1 prerelease ;; Ok (pypi_version ++ lit "b" ++ n)
       else if startswith (lit "rc.") prerelease
       then n <- split_1 prerelease ;; Ok (pypi_version ++ lit "rc" ++ n)
       else Ok (pypi_version ++ lit "-" ++ prerelease)) ;;
  if VersionInfo.falsy (VersionInfo.build version_info)
  then Ok pypi_version
  else
    let build := VersionInfo.or_empty (VersionInfo.build version_info) in
    if startswith (lit "dev.") build
    then n <- split_1 build ;; Ok (pypi_version ++ lit ".dev" ++ n)
    else if startswith (lit "post.") build
    then n <- split_1 build ;; Ok (pypi_version ++ lit ".post" ++ n)
    else Ok (pypi_version ++ lit "+" ++ build).

Definition to_semver (self : t) : str :=
  VersionInfo.__str__ (version_info self).

(** [repr(self)]; the character 34 is the double quote. *)
Definition __repr__ (self : t) : str :=
  lit "SemanticVersion(" ++ "034" :: __str__ self ++ "034" :: lit ")".

End SemanticVersion.

Module VersionPredicate.

Record t : Type := Build
  { operator : str;
    version : str;
    version_format : VersionFormat }.

(** [VersionPredicate(operator=..., version=..., version_format=...)]:
    the fields are typed [str], [str] and [VersionFormat], and no
    validator looks at their contents. *)
Definition __init__ (operator version : str) (version_format : VersionFormat)
  : result t :=
  Ok (Build operator version version_format).

Definition operator_map : list (string * string) :=
  [("<", "__lt__"); ("<=", "__le__"); (">", "__gt__"); (">=", "__ge__");
   ("!=", "__ne__"); ("==", "__eq__")]%string.

Fixpoint lookup (k : str) (m : list (string * string)) : option string :=
  match m with
  | [] => None
  | (k', v) :: m' => if str_eqb k (lit k') then Some v else lookup k m'
  end.

Definition operator_to_symbol (self : t) : result str :=
  match lookup (operator self) operator_map with
  | None => Raise (ValueError (lit "Invalid operator: " ++ operator self))
  | Some v => Ok (lit v)
  end.

(** The pattern [^(!=|<=|>=|<|>|==|=)\s*(G2)] where the second group
    [G2] is [.] repeated with a star. *)
Definition predicate_re : regex :=
  Seq (Grp "1"
         (Alt (Lit (lit "!=")) (Alt (Lit (lit "<=")) (Alt (Lit (lit ">="))
         (Alt (Chr "<") (Alt (Chr ">") (Alt (Lit (lit "==")) (Chr "="))))))))
 (Seq (Star (Cls is_space))
      (Grp "2" (Star (Cls is_not_newline)))).

(** [str(e)] for the exceptions of this module. *)
Definition exn_str (e : exn) : str :=
  match e with
  | ValueError msg => msg
  | _ => []
  end.

Definition from_str (s : str) : result t :=
  let s := strip s in
  match re_match predicate_re s with
  | None => Raise (ValueError (lit "Invalid version predicate format"))
  | Some g =>
      let operator := VersionInfo.or_empty (group "1" g) in
      let version_str := VersionInfo.or_empty (group "2" g) in
      let operator :=
        if str_eqb operator (lit "=") then lit "==" else operator in
      match SemanticVersion.parse version_str with
      | Ok normalized_version =>
          let normalized_version_str :=
            VersionInfo.__str__
              (SemanticVersion.version_info normalized_version) in
          Ok (Build operator normalized_version_str
                (SemanticVersion.version_format normalized_version))
      | Raise ((ValueError _) as e) =>
          Raise (ValueError
                   (lit "Invalid version predicate format: " ++ exn_str e))
      | Raise e => Raise e
      end
  end.

Definition __str__ (self : t) : str := operator self ++ version self.

(** [repr(self)]; the character 34 is the double quote. *)
Definition __repr__ (self : t) : str :=
  lit "VersionPredicate(" ++ "034" :: __str__ self ++ "034" :: lit ")".

Definition semver (self : t) : result SemanticVersion.t :=
  SemanticVersion.parse (version self).

Definition to_pypi_predicate (self : t) : result str :=
  semver_version <- semver self ;;
  pypi_version <- SemanticVersion.to_pypi semver_version ;;
  Ok (operator self ++ pypi_version).

Definition to_semver_predicate (self : t) : result str :=
  semver_version <- semver self ;;
  let semver_version_str := SemanticVersion.to_semver semver_version in
  Ok (operator self ++ semver_version_str).

End VersionPredicate.

(** [SemanticVersion.matches_predicate(self, predicate)] *)
Definition matches_predicate (self : SemanticVersion.t)
    (predicate : VersionPredicate.t) : result bool :=
  VersionInfo.match_ (SemanticVersion.version_info self)
    (VersionPredicate.__str__ predicate).

(** ** Vocabulary of the proofs *)

(** A pattern without groups and without [$]. *)
Fixpoint plain (r : regex) : bool :=
  match r with
  | Eps | Cls _ => true
  | Seq a b | Alt a b => plain a && plain b
  | Star a => plain a
  | Grp _ _ | Eol => false
  end.

(** Every class of the pattern lies within [q]. *)
Fixpoint within (q : ascii -> bool) (r : regex) : Prop :=
  match r with
  | Eps | Eol => True
  | Cls p => forall c, p c = true -> q c = true
  | Seq a b | Alt a b => within q a /\ within q b
  | Star a | Grp _ a => within q a
  end.

(** The input is empty or starts with a character of [q]. *)
Definition headok (q : ascii -> bool) (s : str) : bool :=
  match s with
  | [] => true
  | c :: _ => q c
  end.

(** [guarded q r]: wherever [r] matches, the input is empty or starts with
    a character of [q].  [skippable q r]: the same, unless the match
    consumes nothing. *)
Fixpoint guarded (q : ascii -> bool) (r : regex) : Prop :=
  match r with
  | Eps | Star _ => False
  | Eol => q "010" = true
  | Cls p => forall c, p c = true -> q c = true
  | Seq a b => guarded q a \/ (skippable q a /\ guarded q b)
  | Alt a b => guarded q a /\ guarded q b
  | Grp _ a => guarded q a
  end
with skippable (q : ascii -> bool) (r : regex) : Prop :=
  match r with
  | Eps | Eol => True
  | Cls p => forall c, p c = true -> q c = true
  | Seq a b => guarded q a \/ (skippable q a /\ skippable q b)
  | Alt a b => skippable q a /\ skippable q b
  | Star a | Grp _ a => skippable q a
  end.

(** Every match of the pattern consumes a character. *)
Fixpoint consuming (r : regex) : bool :=
  match r with
  | Cls _ => true
  | Seq a b => consuming a || consuming b
  | Alt a b => consuming a && consuming b
  | Grp _ a => consuming a
  | Eps | Star _ | Eol => false
  end.

(** The groups of a pattern, with their bodies. *)
Fixpoint groups_of (r : regex) : list (string * regex) :=
  match r with
  | Seq a b | Alt a b => groups_of a ++ groups_of b
  | Star a => groups_of a
  | Grp n a => (n, a) :: groups_of a
  | Eps | Cls _ | Eol => []
  end.

(** [w] as a whole is a match of the plain pattern [r]. *)
Definition full (r : regex) (w : str) : Prop := Mat r w [] [] [].

Definition full_opt (r : regex) (o : option str) : Prop :=
  match o with
  | None => True
  | Some w => full r w
  end.

(** The versions that [VersionInfo.parse] can return: the prerelease and
    the build, when present, have the form that the pattern asks for. *)
Definition wf (v : VersionInfo.t) : Prop :=
  full_opt VersionInfo.prerelease_re (VersionInfo.prerelease v) /\
  full_opt VersionInfo.build_re (VersionInfo.build v).

(** A decimal numeral as [N.to_uint] writes it: a single zero, or digits
    that start with a digit other than zero. *)
Definition normal_uint (d : Decimal.uint) : bool :=
  match d with
  | Decimal.Nil => false
  | Decimal.D0 Decimal.Nil => true
  | Decimal.D0 _ => false
  | _ => true
  end.

(** The same on text: [0], or digits that do not start with a zero. *)
Definition normal_digits (w : str) : bool :=
  match w with
  | [] => false
  | c :: ds => forallb is_digit w && (is_pos_digit c || str_eqb w (lit "0"))
  end.

Definition not_space (c : ascii) : bool := negb (is_space c).

(** The characters that may follow a number of the version core, a
    prerelease and a build. *)
Definition stop_core (c : ascii) : bool :=
  is_chr "." c || is_chr "-" c || is_chr "+" c || is_chr "010" c.
Definition stop_pre (c : ascii) : bool := is_chr "+" c || is_chr "010" c.
Definition stop_build (c : ascii) : bool := is_chr "010" c.

(** The characters of a prerelease and of a build. *)
Definition is_ident_char (c : ascii) : bool :=
  is_alnum_hyphen c || is_chr "." c.

Definition add_group (name : string) (o : option str) (g : groups) : groups :=
  match o with
  | Some w => (name, w) :: g
  | None => g
  end.

Definition pre_suffix (p : option str) : str :=
  match p with
  | Some w => "-" :: w
  | None => []
  end.

Definition build_suffix (b : option str) : str :=
  match b with
  | Some w => "+" :: w
  | None => []
  end.

(** The tail of [_REGEX_TEMPLATE] from the build on, and from the
    prerelease on. *)
Definition build_tail_re : regex :=
  Seq (Opt (Seq (Chr "+") (Grp "build" VersionInfo.build_re))) Eol.

Definition pre_tail_re : regex :=
  Seq (Opt (Seq (Chr "-") (Grp "prerelease" VersionInfo.prerelease_re)))
      build_tail_re.
Definition stop_tail (c : ascii) : bool :=
  is_chr "-" c || is_chr "+" c || is_chr "010" c.

Definition patch_re (optional : bool) : regex :=
  VersionInfo.quant optional
    (Seq (Chr ".") (Grp "patch" VersionInfo.numeric_re)).

Definition minor_re (optional : bool) : regex :=
  VersionInfo.quant optional
    (Seq (Chr ".")
    (Seq (Grp "minor" VersionInfo.numeric_re) (patch_re optional))).

(** The text of a version, as [VersionInfo.__str__] lays it out. *)
Definition version_text (M m p : N) (pre b : option str) : str :=
  dec M ++ "." :: dec m ++ "." :: dec p ++ pre_suffix pre ++ build_suffix b.

Definition version_groups (M m p : N) (pre b : option str) : groups :=
  add_group "build" b
    (add_group "prerelease" pre
       [("patch"%string, dec p); ("minor"%string, dec m);
        ("major"%string, dec M)]).

(** The characters of the text of a version. *)
Definition is_version_char (c : ascii) : bool :=
  is_ident_char c || is_chr "+" c.

(** The first step of [SemanticVersion.parse]: the prefix and the text left
    to decode. *)
Definition split_prefix (version : str) : str * str :=
  match re_match SemanticVersion.prefix_re version with
  | Some g =>
      (VersionInfo.or_empty (group "1" g), VersionInfo.or_empty (group "2" g))
  | None => ([], version)
  end.

(** An identifier of a prerelease: characters of [[0-9a-zA-Z-]], at least
    one, and no leading zero when all of them are digits. *)
Definition is_ident (w : str) : bool :=
  forallb is_alnum_hyphen w
  && (if forallb is_digit w then normal_digits w
      else match w with [] => false | _ => true end).

(** [.i1.i2...] *)
Definition dotted (ids : list str) : str := List.concat (map (cons ".") ids).

(** ["." .join(ids)] for a non-empty list. *)
Definition join_dot (ids : list str) : str :=
  match ids with
  | [] => []
  | i :: r => i ++ dotted r
  end.

Definition untag (t : VersionInfo.tag) : str :=
  match t with
  | VersionInfo.TInt n => dec n
  | VersionInfo.TStr x => x
  end.

Definition in_sign (z : Z) : Prop := z = (-1)%Z \/ z = 0%Z \/ z = 1%Z.

(** The six operators of a predicate. *)
Definition operators : list str :=
  map lit ["<"; "<="; ">"; ">="; "!="; "=="]%string.

(** [getattr(a, symbol)(b)] for the comparison methods of
    [SemanticVersion]. *)
Definition call (symbol : str) (a b : SemanticVersion.t) : option bool :=
  if str_eqb symbol (lit "__lt__") then Some (SemanticVersion.__lt__ a b)
  else if str_eqb symbol (lit "__le__") then Some (SemanticVersion.__le__ a b)
  else if str_eqb symbol (lit "__gt__") then Some (SemanticVersion.__gt__ a b)
  else if str_eqb symbol (lit "__ge__") then Some (SemanticVersion.__ge__ a b)
  else if str_eqb symbol (lit "__ne__") then Some (SemanticVersion.__ne__ a b)
  else if str_eqb symbol (lit "__eq__") then Some (SemanticVersion.eq a b)
  else None.

(** A version without its build. *)
Definition without_build (v : VersionInfo.t) : VersionInfo.t :=
  VersionInfo.Build (VersionInfo.major v) (VersionInfo.minor v)
    (VersionInfo.patch v) (VersionInfo.prerelease v) None.

Definition with_build (b : option str) (v : VersionInfo.t) : VersionInfo.t :=
  VersionInfo.Build (VersionInfo.major v) (VersionInfo.minor v)
    (VersionInfo.patch v) (VersionInfo.prerelease v) b.

(** A version with another build. *)
Definition set_build (b : option str) (v : SemanticVersion.t)
  : SemanticVersion.t :=
  SemanticVersion.Build (with_build b (SemanticVersion.version_info v))
    (SemanticVersion.original_version v) (SemanticVersion.prefix v)
    (SemanticVersion.version_format v).

Definition not_at (c : ascii) : bool := negb (is_chr "@" c).

(** The order of [_nat_cmp] on lists of tags: the first difference
    decides, and a list is below its extensions. *)
Fixpoint cmp_lex (a b : list VersionInfo.tag) : Z :=
  match a, b with
  | [], [] => 0%Z
  | [], _ :: _ => (-1)%Z
  | _ :: _, [] => 1%Z
  | x :: a', y :: b' =>
      let c := VersionInfo.cmp_prerelease_tag x y in
      if (c =? 0)%Z then cmp_lex a' b' else c
  end.

(** The tuple [(major, minor, patch)]. *)
Definition triple (v : VersionInfo.t) : N * N * N :=
  (VersionInfo.major v, VersionInfo.minor v, VersionInfo.patch v).

(** What [compare v w = -1] says on well-formed versions. *)
Definition below (v w : VersionInfo.t) : Prop :=
  VersionInfo._cmp_triple (triple v) (triple w) = (-1)%Z \/
  (triple v = triple w /\
   ((VersionInfo.prerelease v <> None /\ VersionInfo.prerelease w = None) \/
    exists a b,
      VersionInfo.prerelease v = Some a /\
      VersionInfo.prerelease w = Some b /\
      VersionInfo._nat_cmp (Some a) (Some b) = (-1)%Z)).

(** [f"{major}.{minor}.{patch}"] *)
Definition triple_text (v : VersionInfo.t) : str :=
  dec (VersionInfo.major v) ++ lit "." ++ dec (VersionInfo.minor v)
      ++ lit "." ++ dec (VersionInfo.patch v).

(** The two steps of [to_pypi]: the prerelease, then the build. *)
Definition to_pypi_prerelease (pypi_version : str) (prerelease : option str)
  : result str :=
  if VersionInfo.falsy prerelease then Ok pypi_version
  else
    let prerelease := VersionInfo.or_empty prerelease in
    if startswith (lit "alpha.") prerelease
    then n <- SemanticVersion.split_1 prerelease ;;
         Ok (pypi_version ++ lit "a" ++ n)
    else if startswith (lit "beta.") prerelease
    then n <- SemanticVersion.split_1 prerelease ;;
         Ok (pypi_version ++ lit "b" ++ n)
    else if startswith (lit "rc.") prerelease
    then n <- SemanticVersion.split_1 prerelease ;;
         Ok (pypi_version ++ lit "rc" ++ n)
    else Ok (pypi_version ++ lit "-" ++ prerelease).

Definition to_pypi_build (pypi_version : str) (build : option str)
  : result str :=
  if VersionInfo.falsy build then Ok pypi_version
  else
    let build := VersionInfo.or_empty build in
    if startswith (lit "dev.") build
    then n <- SemanticVersion.split_1 build ;;
         Ok (pypi_version ++ lit ".dev" ++ n)
    else if startswith (lit "post.") build
    then n <- SemanticVersion.split_1 build ;;
         Ok (pypi_version ++ lit ".post" ++ n)
    else Ok (pypi_version ++ lit "+" ++ build).

(** The prefixes that [SemanticVersion.parse] strips: [v], [V], or a
    name of one line followed by [@v]. *)
Definition is_prefix_text (pfx : str) : Prop :=
  pfx = lit "v" \/ pfx = lit "V" \/
  exists name, name <> [] /\ forallb is_not_newline name = true /\
               pfx = name ++ lit "@v".

(** The version [v] as [parse] returns it when [pfx] was stripped from
    the input [orig]. *)
Definition with_prefix (pfx orig : str) (v : SemanticVersion.t)
  : SemanticVersion.t :=
  SemanticVersion.Build (SemanticVersion.semver_parts v) orig pfx
    (SemanticVersion.version_format v).

(** [s.rstrip()] *)
Definition rstrip (s : str) : str := rev (lstrip (rev s)).

(** The first line of [s]: what [.] repeated takes. *)
Fixpoint line (s : str) : str :=
  match s with
  | c :: s' => if is_not_newline c then c :: line s' else []
  | [] => []
  end.

(** The operators that the pattern of [from_str] reads. *)
Definition tokens : list str :=
  map lit ["!="; "<="; ">="; "<"; ">"; "=="; "="]%string.

(** The text of a version written without its patch, or without its
    minor and patch. *)
Definition short_text (M : N) (m : option N) (pre b : option str) : str :=
  dec M
  ++ match m with Some m => "." :: dec m | None => [] end
  ++ pre_suffix pre ++ build_suffix b.

Definition short_groups (M : N) (m : option N) (pre b : option str)
  : groups :=
  add_group "build" b
    (add_group "prerelease" pre
       (match m with Some m => [("minor"%string, dec m)] | None => [] end
        ++ [("major"%string, dec M)])).

(** The characters of a release: digits and dots. *)
Definition is_release_char (c : ascii) : bool := is_digit c || is_chr "." c.

(** The text of a release [n.n1.n2...]. *)
Definition release_text (n : N) (ns : list N) : str :=
  dec n ++ dotted (map dec ns).

(** The words of [VERSION_PATTERN]. *)
Definition words : list string :=
  ["alpha"; "a"; "beta"; "b"; "preview"; "pre"; "c"; "rc"; "post"; "rev";
   "r"; "dev"]%string.

(** What follows the release in [VERSION_PATTERN]: the optional pre, post,
    dev and local segments, whitespace and the end. *)
Definition after_release_re : regex :=
  match PyPIVersion.version_re with
  | Seq _ (Seq _ (Seq _ (Seq _ r))) => r
  | _ => Eps
  end.

(** What is left of [s] after the text [l] read under [re.IGNORECASE]. *)
Fixpoint ilit_strip (l s : str) : option str :=
  match l, s with
  | [], _ => Some s
  | x :: l', c :: s' => if is_ichr x c then ilit_strip l' s' else None
  | _ :: _, [] => None
  end.

(** The pre segment of [VERSION_PATTERN], and what follows it. *)
Definition pre_group_re : regex :=
  match after_release_re with
  | Seq (Alt p _) _ => p
  | _ => Eps
  end.

Definition after_pre_re : regex :=
  match after_release_re with
  | Seq _ r => r
  | _ => Eps
  end.

(** The post segment of [VERSION_PATTERN], and what follows it. *)
Definition post_group_re : regex :=
  match after_pre_re with
  | Seq (Alt p _) _ => p
  | _ => Eps
  end.

Definition after_post_re : regex :=
  match after_pre_re with
  | Seq _ r => r
  | _ => Eps
  end.

(** The text starts with a digit, or with a dot and a digit. *)
Definition numeric_head (s : str) : bool :=
  match s with
  | c :: r =>
      is_digit c
      || (is_chr "." c && match r with d :: _ => is_digit d | [] => false end)
  | [] => false
  end.

(** Every dot is followed by a digit. *)
Fixpoint dots_ok (s : str) : bool :=
  match s with
  | c :: r =>
      (if is_chr "." c
       then match r with d :: _ => is_digit d | [] => false end
       else true) && dots_ok r
  | [] => true
  end.

(** The letters of a prerelease in PEP 440 and the words that
    [_parse_pypi] writes for them. *)
Definition pre_words : list (str * str) :=
  [(lit "alpha", lit "a"); (lit "beta", lit "b"); (lit "rc", lit "rc")].

(** The text [a.b.cLN] of a prerelease in PEP 440. *)
Definition pre_text (a b c : N) (l : str) (n : N) : str :=
  release_text a [b; c] ++ l ++ dec n.

(** What the first group of the pattern of [from_str] reads: the first
    operator, in the order of the pattern, that the text starts with;
    and the text after it. *)
Fixpoint read_first (ts : list str) (s : str) : option (str * str) :=
  match ts with
  | [] => None
  | t :: ts' =>
      if startswith t s then Some (t, skipn (List.length t) s)
      else read_first ts' s
  end.

Definition read_operator (s : str) : option (str * str) :=
  read_first tokens s.

(** * Properties *)

(** ** The matcher against the matches *)

Section Matcher.

Variable A : Type.

Lemma Mat_suffix r s g s' g' :
  Mat r s g s' g' -> exists w, s = w ++ s'.
Proof.
  induction 1.
  - now exists [].
  - now exists [c].
  - destruct IHMat1 as [w1 ->], IHMat2 as [w2 ->].
    exists (w1 ++ w2). now rewrite app_assoc.
  - assumption.
  - assumption.
  - now exists [].
  - destruct IHMat1 as [w1 ->], IHMat2 as [w2 ->].
    exists (w1 ++ w2). now rewrite app_assoc.
  - assumption.
  - now exists [].
Qed.

Lemma Mat_length r s g s' g' :
  Mat r s g s' g' -> (List.length s' <= List.length s)%nat.
Proof.
  intros H. apply Mat_suffix in H as [w ->].
  rewrite length_app. lia.
Qed.

(** What the group of a match holds is what the group matched. *)
Lemma firstn_matched (w s' : str) :
  firstn (List.length (w ++ s') - List.length s') (w ++ s') = w.
Proof.
  rewrite length_app.
  replace (List.length w + List.length s' - List.length s')%nat
    with (List.length w + 0)%nat by lia.
  rewrite firstn_app_2. simpl. apply app_nil_r.
Qed.

Lemma eol_inv (s : str) (k : option A) x :
  match s with
  | [] => k
  | ["010"] => k
  | _ => None
  end = Some x ->
  (s = [] \/ s = ["010"]) /\ k = Some x.
Proof.
  destruct s as [|c [|d s]]; intros H.
  - auto.
  - destruct c as [[] [] [] [] [] [] [] []]; try discriminate H. auto.
  - destruct c as [[] [] [] [] [] [] [] []]; discriminate H.
Qed.

(** Soundness: a result of the matcher comes from a match of the
    pattern, with the continuation run on what that match leaves. *)
Lemma run_sound (r : regex) :
  forall s g (k : str -> groups -> option A) x,
    run r s g k = Some x ->
    exists s' g', Mat r s g s' g' /\ k s' g' = Some x.
Proof.
  induction r as [|p|a IHa b IHb|a IHa b IHb|a IHa|name a IHa|];
    simpl; intros s g k x H.
  - exists s, g. split; [constructor | assumption].
  - destruct s as [|c s]; [discriminate|].
    destruct (p c) eqn:E; [|discriminate].
    exists s, g. split; [now constructor | assumption].
  - apply IHa in H as (s1 & g1 & M1 & H).
    apply IHb in H as (s2 & g2 & M2 & H).
    exists s2, g2. split; [eapply MSeq; eassumption | assumption].
  - destruct (run a s g k) eqn:E.
    + apply IHa in E as (s1 & g1 & M1 & E).
      exists s1, g1. split; [now apply MAltL | congruence].
    + apply IHb in H as (s1 & g1 & M1 & H).
      exists s1, g1. split; [now apply MAltR | assumption].
  - revert H. generalize (List.length s) as n. intros n. revert s g.
    induction n as [|n IHn]; simpl; intros s g H.
    + exists s, g. split; [apply MStar0 | assumption].
    + match type of H with
      | match ?e with _ => _ end = _ => destruct e eqn:E
      end.
      * injection H as ->.
        apply IHa in E as (s1 & g1 & M1 & E).
        destruct (List.length s1 <? List.length s)%nat eqn:L;
          [|discriminate].
        apply IHn in E as (s2 & g2 & M2 & K).
        exists s2, g2. split; [|congruence].
        eapply MStarS; [eassumption| |eassumption].
        now apply Nat.ltb_lt.
      * exists s, g. split; [apply MStar0 | assumption].
  - apply IHa in H as (s' & g' & M & H).
    eexists. eexists. split; [apply MGrp; eassumption | assumption].
  - apply eol_inv in H as [E H].
    exists s, g. split; [now constructor | assumption].
Qed.

Lemma star_loop_skip body (k : str -> groups -> option A) n s g :
  k s g <> None -> star_loop body k n s g <> None.
Proof.
  destruct n; simpl; [tauto|].
  destruct (body s g _); [discriminate | tauto].
Qed.

(** Completeness: where the pattern has a match whose remainder the
    continuation accepts, the matcher returns a result. *)
Lemma run_complete_aux r s g s' g' :
  Mat r s g s' g' ->
  forall k : str -> groups -> option A,
    k s' g' <> None ->
    run r s g k <> None /\
    forall a n, r = Star a -> (List.length s <= n)%nat ->
                star_loop (run a) k n s g <> None.
Proof.
  induction 1; intros k K.
  - split; [exact K | discriminate].
  - split; [simpl; now rewrite H | discriminate].
  - split; [|discriminate]. simpl.
    apply IHMat1. now apply IHMat2.
  - split; [|discriminate]. simpl.
    destruct (run a s g k) eqn:E; [discriminate|].
    exfalso. now apply (IHMat k K).
  - split; [|discriminate]. simpl.
    destruct (run a s g k) eqn:E; [discriminate|].
    now apply IHMat.
  - split.
    + simpl. now apply star_loop_skip.
    + intros a' n _ _. now apply star_loop_skip.
  - assert (G : forall n, (List.length s <= n)%nat ->
                          star_loop (run a) k n s g <> None).
    { intros n Hn. destruct n as [|n]; [lia|]. simpl.
      match goal with
      | |- match ?e with _ => _ end <> _ => destruct e eqn:E
      end; [discriminate|].
      exfalso. revert E. apply IHMat1.
      apply Nat.ltb_lt in H0 as L. rewrite L.
      apply (proj2 (IHMat2 k K) a n eq_refl). lia. }
    split.
    + simpl. now apply G.
    + intros a' n E Hn. injection E as <-. now apply G.
  - split; [|discriminate]. simpl.
    now apply IHMat.
  - split; [|discriminate]. simpl.
    destruct H as [-> | ->]; exact K.
Qed.

Lemma run_complete r s g s' g' (k : str -> groups -> option A) :
  Mat r s g s' g' -> k s' g' <> None -> run r s g k <> None.
Proof.
  intros M K. now apply (run_complete_aux M).
Qed.

End Matcher.

(** [re.match] returns the groups of some match, and returns one whenever
    there is a match. *)
Lemma re_match_sound r s g :
  re_match r s = Some g -> exists s', Mat r s [] s' g.
Proof.
  unfold re_match. intros H.
  apply run_sound in H as (s' & g' & M & E).
  injection E as <-. now exists s'.
Qed.

Lemma re_match_complete r s s' g :
  Mat r s [] s' g -> re_match r s <> None.
Proof.
  intros M. unfold re_match.
  eapply run_complete; [eassumption | discriminate].
Qed.

Lemma re_match_none r s :
  (forall s' g, ~ Mat r s [] s' g) -> re_match r s = None.
Proof.
  intros H. destruct (re_match r s) eqn:E; [|reflexivity].
  apply re_match_sound in E as [s' M]. now apply H in M.
Qed.

(** ** Generic facts on matches *)

Lemma Mat_plain r s g s' g' :
  Mat r s g s' g' -> plain r = true ->
  g' = g /\ forall w, s = w ++ s' -> forall t h, Mat r (w ++ t) h t h.
Proof.
  induction 1; simpl; intros P; try discriminate P.
  - split; [reflexivity|]. intros w E t h.
    assert (w = []) as ->.
    { apply (f_equal (@List.length ascii)) in E. rewrite length_app in E.
      destruct w; [reflexivity | simpl in E; lia]. }
    constructor.
  - split; [reflexivity|]. intros w E t h.
    change (c :: s) with ([c] ++ s) in E. apply app_inv_tail in E as <-.
    simpl. now constructor.
  - apply andb_prop in P as [Pa Pb].
    destruct (IHMat1 Pa) as [-> F1], (IHMat2 Pb) as [-> F2].
    split; [reflexivity|]. intros w E t h.
    destruct (Mat_suffix H) as [w1 E1], (Mat_suffix H0) as [w2 E2].
    assert (w = w1 ++ w2) as ->.
    { apply (app_inv_tail s2). now rewrite <- app_assoc, <- E2, <- E1. }
    rewrite <- app_assoc.
    eapply MSeq; [apply F1; exact E1 | apply F2; exact E2].
  - apply andb_prop in P as [Pa Pb].
    destruct (IHMat Pa) as [-> F]. split; [reflexivity|].
    intros w E t h. apply MAltL. now apply F.
  - apply andb_prop in P as [Pa Pb].
    destruct (IHMat Pb) as [-> F]. split; [reflexivity|].
    intros w E t h. apply MAltR. now apply F.
  - split; [reflexivity|]. intros w E t h.
    assert (w = []) as ->.
    { apply (f_equal (@List.length ascii)) in E. rewrite length_app in E.
      destruct w; [reflexivity | simpl in E; lia]. }
    apply MStar0.
  - destruct (IHMat1 P) as [-> F1], (IHMat2 P) as [-> F2].
    split; [reflexivity|]. intros w E t h.
    destruct (Mat_suffix H) as [w1 E1], (Mat_suffix H1) as [w2 E2].
    assert (w = w1 ++ w2) as ->.
    { apply (app_inv_tail s2). now rewrite <- app_assoc, <- E2, <- E1. }
    rewrite <- app_assoc.
    eapply MStarS; [apply F1; exact E1 | | apply F2; exact E2].
    subst s s1. rewrite !length_app in *. lia.
Qed.

(** A match of a plain pattern may be moved to another input and to other
    groups. *)
Lemma Mat_full r w t g g' :
  Mat r (w ++ t) g t g' -> plain r = true ->
  g' = g /\ forall t' h, Mat r (w ++ t') h t' h.
Proof.
  intros M P. destruct (Mat_plain M P) as [E F].
  split; [exact E|]. intros t' h. now apply F.
Qed.

Lemma full_Mat r w t h :
  full r w -> plain r = true -> Mat r (w ++ t) h t h.
Proof.
  unfold full. intros M P.
  destruct (Mat_plain M P) as [_ F]. apply F. now rewrite app_nil_r.
Qed.

Lemma Mat_to_full r w t g g' :
  Mat r (w ++ t) g t g' -> plain r = true -> full r w.
Proof.
  intros M P. destruct (Mat_plain M P) as [_ F].
  unfold full. specialize (F w eq_refl [] []). now rewrite app_nil_r in F.
Qed.

Lemma Mat_within q r s g s' g' :
  Mat r s g s' g' -> within q r ->
  exists w, s = w ++ s' /\ forallb q w = true.
Proof.
  induction 1; simpl; intros W.
  - now exists [].
  - exists [c]. simpl. now rewrite (W c H).
  - destruct W as [Wa Wb].
    destruct (IHMat1 Wa) as (w1 & -> & F1), (IHMat2 Wb) as (w2 & -> & F2).
    exists (w1 ++ w2). rewrite app_assoc, forallb_app, F1, F2. auto.
  - now apply IHMat.
  - now apply IHMat.
  - now exists [].
  - destruct (IHMat1 W) as (w1 & -> & F1), (IHMat2 W) as (w2 & -> & F2).
    exists (w1 ++ w2). rewrite app_assoc, forallb_app, F1, F2. auto.
  - now apply IHMat.
  - now exists [].
Qed.

Lemma Mat_guarded_skippable q r s g s' g' :
  Mat r s g s' g' ->
  (guarded q r -> headok q s = true) /\
  (skippable q r -> s' = s \/ headok q s = true).
Proof.
  induction 1; simpl.
  - split; [contradiction | auto].
  - split; intros G; [|right]; now apply G.
  - destruct IHMat1 as [G1 S1], IHMat2 as [G2 S2].
    split.
    + intros [G | [S G]]; [now apply G1|].
      destruct (S1 S) as [-> | ?]; [now apply G2 | assumption].
    + intros [G | [Sa Sb]]; [right; now apply G1|].
      destruct (S1 Sa) as [-> | ?]; [now apply S2 | now right].
  - destruct IHMat as [G1 S1]. split; intros [? ?]; auto.
  - destruct IHMat as [G1 S1]. split; intros [? ?]; auto.
  - split; [contradiction | auto].
  - destruct IHMat1 as [G1 S1], IHMat2 as [G2 S2].
    split; [contradiction|]. intros S.
    destruct (S1 S) as [E | ?]; [|now right].
    subst s1. lia.
  - exact IHMat.
  - split; [|auto]. intros Q. now destruct H as [-> | ->].
Qed.

Lemma Mat_guarded q r s g s' g' :
  Mat r s g s' g' -> guarded q r -> headok q s = true.
Proof.
  intros M. apply (Mat_guarded_skippable q M).
Qed.

Lemma Mat_consuming r s g s' g' :
  Mat r s g s' g' -> consuming r = true ->
  (List.length s' < List.length s)%nat.
Proof.
  induction 1; simpl; intros C; try discriminate C.
  - lia.
  - apply Mat_length in H as L1. apply Mat_length in H0 as L2.
    apply orb_prop in C as [C | C]; [apply IHMat1 in C | apply IHMat2 in C];
      lia.
  - apply andb_prop in C as [C _]. now apply IHMat.
  - apply andb_prop in C as [_ C]. now apply IHMat.
  - now apply IHMat.
Qed.

(** Where two runs of [q]-characters end at a character outside [q], they
    are the same run. *)
Lemma split_unique (q : ascii -> bool) (w1 w2 r1 r2 : str) :
  w1 ++ r1 = w2 ++ r2 ->
  forallb q w1 = true -> forallb q w2 = true ->
  headok (fun c => negb (q c)) r1 = true ->
  headok (fun c => negb (q c)) r2 = true ->
  w1 = w2 /\ r1 = r2.
Proof.
  revert w2. induction w1 as [|c w1 IH]; intros [|d w2] E F1 F2 H1 H2;
    simpl in *.
  - auto.
  - subst r1. simpl in H1. apply andb_prop in F2 as [F2 _].
    rewrite F2 in H1. discriminate.
  - subst r2. simpl in H2. apply andb_prop in F1 as [F1 _].
    rewrite F1 in H2. discriminate.
  - injection E as -> E.
    apply andb_prop in F1 as [_ F1]. apply andb_prop in F2 as [_ F2].
    destruct (IH w2 E F1 F2 H1 H2) as [-> ->]. auto.
Qed.

Lemma headok_weaken (q q' : ascii -> bool) s :
  (forall c, q c = true -> q' c = true) ->
  headok q s = true -> headok q' s = true.
Proof.
  destruct s; simpl; auto.
Qed.

(** What a group holds after a match is what it held before, or a match of
    its body. *)
Lemma Mat_group r s g s' g' :
  Mat r s g s' g' ->
  forall name w,
    group name g' = Some w ->
    group name g = Some w \/
    exists a t g0 g1, In (name, a) (groups_of r) /\ Mat a (w ++ t) g0 t g1.
Proof.
  induction 1; intros nm w G; simpl; auto.
  - destruct (IHMat2 nm w G) as [G1 | (a0 & t & g0 & g3 & I & M)].
    + destruct (IHMat1 nm w G1) as [G0 | (a0 & t & g0 & g3 & I & M)].
      * now left.
      * right. exists a0, t, g0, g3. split; [|exact M].
        apply in_or_app. now left.
    + right. exists a0, t, g0, g3. split; [|exact M].
      apply in_or_app. now right.
  - destruct (IHMat nm w G) as [G0 | (a0 & t & g0 & g3 & I & M)].
    + now left.
    + right. exists a0, t, g0, g3. split; [|exact M].
      apply in_or_app. now left.
  - destruct (IHMat nm w G) as [G0 | (a0 & t & g0 & g3 & I & M)].
    + now left.
    + right. exists a0, t, g0, g3. split; [|exact M].
      apply in_or_app. now right.
  - destruct (IHMat2 nm w G) as [G1 | R]; [|exact (or_intror R)].
    exact (IHMat1 nm w G1).
  - simpl in G. destruct (String.eqb name nm) eqn:E.
    + apply String.eqb_eq in E as ->. injection G as <-.
      right. destruct (Mat_suffix H) as [w0 ->].
      rewrite firstn_matched.
      exists a, s', g, g'. split; [now left | exact H].
    + destruct (IHMat nm w G) as [G0 | (a0 & t & g0 & g3 & I & M)].
      * now left.
      * right. exists a0, t, g0, g3. split; [now right | exact M].
Qed.

(** ** Characters *)

(** A fact about every character, by cases on its eight bits. *)
Ltac by_char c :=
  destruct c as [[] [] [] [] [] [] [] []]; vm_compute; try reflexivity;
  try discriminate; intuition discriminate.

Lemma digit_not_space c : is_digit c = true -> not_space c = true.
Proof. by_char c. Qed.

Lemma pos_digit_digit c : is_pos_digit c = true -> is_digit c = true.
Proof. by_char c. Qed.

Lemma digit_alnum c : is_digit c = true -> is_alnum_hyphen c = true.
Proof. by_char c. Qed.

Lemma alpha_alnum c : is_alpha_hyphen c = true -> is_alnum_hyphen c = true.
Proof. by_char c. Qed.

Lemma alpha_not_digit c : is_alpha_hyphen c = true -> is_digit c = false.
Proof. by_char c. Qed.

Lemma str_eqb_eq (a b : str) : str_eqb a b = true <-> a = b.
Proof.
  revert b. induction a as [|x a IH]; intros [|y b]; simpl;
    try (split; [discriminate | discriminate]); try tauto.
  rewrite andb_true_iff, Ascii.eqb_eq, IH. split.
  - now intros [-> ->].
  - intros E. now injection E.
Qed.

Lemma str_eqb_refl (a : str) : str_eqb a a = true.
Proof. now apply str_eqb_eq. Qed.

Lemma forallb_weaken (p q : ascii -> bool) (w : str) :
  (forall c, p c = true -> q c = true) ->
  forallb p w = true -> forallb q w = true.
Proof.
  intros I. induction w as [|c w IH]; simpl; [reflexivity|].
  intros H. apply andb_prop in H as [H1 H2].
  now rewrite (I c H1), IH.
Qed.

(** ** Decimal numerals *)

Lemma lstrip_not_space (s : str) :
  forallb not_space s = true -> lstrip s = s.
Proof.
  destruct s as [|c s]; simpl; [reflexivity|].
  unfold not_space at 1. intros H. apply andb_prop in H as [H _].
  now destruct (is_space c).
Qed.

Lemma strip_not_space (s : str) : forallb not_space s = true -> strip s = s.
Proof.
  intros H. unfold strip. rewrite (lstrip_not_space s H).
  rewrite lstrip_not_space.
  - apply rev_involutive.
  - apply forallb_forall. intros c I. apply in_rev in I.
    now apply (proj1 (forallb_forall _ _) H).
Qed.

Lemma uint_chars_digits d : forallb is_digit (uint_chars d) = true.
Proof.
  induction d; simpl; try reflexivity; exact IHd.
Qed.

Lemma chars_uint_chars d : chars_uint (uint_chars d) = Some d.
Proof.
  induction d; simpl; try reflexivity; now rewrite IHd.
Qed.

Lemma digits_chars (w : str) :
  forallb is_digit w = true ->
  exists d, chars_uint w = Some d /\ uint_chars d = w.
Proof.
  induction w as [|c w IH]; simpl.
  - now exists Decimal.Nil.
  - intros H. apply andb_prop in H as [Hc Hw].
    destruct (IH Hw) as (d & E & <-). rewrite E.
    destruct c as [[] [] [] [] [] [] [] []]; try discriminate Hc;
      cbn; eexists; (split; [reflexivity|]); reflexivity.
Qed.

Lemma nzhead_not_D0 d d' : Decimal.nzhead d <> Decimal.D0 d'.
Proof.
  induction d; simpl; try discriminate. exact IHd.
Qed.

Lemma unorm_normal d : normal_uint (Decimal.unorm d) = true.
Proof.
  unfold Decimal.unorm.
  destruct (Decimal.nzhead d) eqn:E; try reflexivity.
  now apply nzhead_not_D0 in E.
Qed.

Lemma normal_unorm d : normal_uint d = true -> Decimal.unorm d = d.
Proof.
  destruct d as [|d| | | | | | | | |]; simpl; try discriminate;
    try reflexivity.
  destruct d; try discriminate. reflexivity.
Qed.

Lemma to_uint_normal n : normal_uint (N.to_uint n) = true.
Proof.
  rewrite <- (DecimalN.Unsigned.of_to n) at 1.
  rewrite DecimalN.Unsigned.to_of. apply unorm_normal.
Qed.

Lemma normal_uint_chars d :
  normal_digits (uint_chars d) = normal_uint d.
Proof.
  destruct d as [|d| | | | | | | | |]; try reflexivity;
    unfold normal_digits, uint_chars; fold uint_chars; cbn [forallb];
    rewrite uint_chars_digits; try reflexivity.
  destruct d; reflexivity.
Qed.

Lemma dec_digits n : forallb is_digit (dec n) = true.
Proof. apply uint_chars_digits. Qed.

Lemma dec_normal n : normal_digits (dec n) = true.
Proof.
  unfold dec. rewrite normal_uint_chars. apply to_uint_normal.
Qed.

Lemma dec_not_nil n : dec n <> [].
Proof.
  intros E. pose proof (dec_normal n) as H. now rewrite E in H.
Qed.

Lemma py_int_digits (w : str) :
  w <> [] -> forallb is_digit w = true ->
  py_int w = option_map N.of_uint (chars_uint w).
Proof.
  intros NE D. unfold py_int. rewrite strip_not_space.
  - destruct w; [contradiction | reflexivity].
  - revert D. apply forallb_weaken, digit_not_space.
Qed.

(** [int(str(n)) == n] *)
Lemma py_int_dec n : py_int (dec n) = Some n.
Proof.
  rewrite py_int_digits by (apply dec_not_nil || apply dec_digits).
  unfold dec. rewrite chars_uint_chars. simpl.
  now rewrite DecimalN.Unsigned.of_to.
Qed.

(** [str(int(w)) == w] for a numeral without a leading zero. *)
Lemma dec_py_int (w : str) :
  normal_digits w = true -> exists n, py_int w = Some n /\ dec n = w.
Proof.
  intros H.
  assert (NE : w <> []) by (intros ->; discriminate H).
  assert (D : forallb is_digit w = true).
  { destruct w; [discriminate|]. unfold normal_digits in H.
    now apply andb_prop in H. }
  destruct (digits_chars w D) as (d & E & <-).
  rewrite normal_uint_chars in H.
  exists (N.of_uint d). rewrite py_int_digits, E by assumption.
  split; [reflexivity|]. unfold dec.
  now rewrite DecimalN.Unsigned.to_of, normal_unorm.
Qed.

(** ** Inversion of matches; the version pattern of the semver package *)

Ltac inv H := inversion H; subst; clear H.

Lemma is_chr_eq x c : is_chr x c = true -> c = x.
Proof. apply Ascii.eqb_eq. Qed.

Lemma Seq_inv a b s g s2 g2 :
  Mat (Seq a b) s g s2 g2 ->
  exists s1 g1, Mat a s g s1 g1 /\ Mat b s1 g1 s2 g2.
Proof. intros M. inv M. eauto. Qed.

Lemma Alt_inv a b s g s' g' :
  Mat (Alt a b) s g s' g' -> Mat a s g s' g' \/ Mat b s g s' g'.
Proof. intros M. inv M; auto. Qed.

Lemma Grp_inv name a s g s' g' :
  Mat (Grp name a) s g s' g' ->
  exists g0, Mat a s g s' g0 /\
             g' = (name, firstn (List.length s - List.length s') s) :: g0.
Proof. intros M. inv M. eauto. Qed.

Lemma Cls_inv p s g s' g' :
  Mat (Cls p) s g s' g' -> exists c, s = c :: s' /\ p c = true /\ g' = g.
Proof. intros M. inv M. eauto. Qed.

Lemma Eps_inv s g s' g' : Mat Eps s g s' g' -> s' = s /\ g' = g.
Proof. intros M. inv M. auto. Qed.

Lemma Eol_inv s g s' g' :
  Mat Eol s g s' g' -> (s = [] \/ s = ["010"]) /\ s' = s /\ g' = g.
Proof. intros M. inv M. auto. Qed.

Lemma Chr_inv x s g s' g' :
  Mat (Chr x) s g s' g' -> s = x :: s' /\ g' = g.
Proof.
  intros M. apply Cls_inv in M as (c & -> & E & ->).
  apply is_chr_eq in E as ->. auto.
Qed.

Lemma Opt_inv a s g s' g' :
  Mat (Opt a) s g s' g' -> Mat a s g s' g' \/ (s' = s /\ g' = g).
Proof.
  intros M. apply Alt_inv in M as [M | M]; [now left|].
  apply Eps_inv in M. now right.
Qed.

Lemma quant_inv o a s g s' g' :
  Mat (VersionInfo.quant o a) s g s' g' ->
  Mat a s g s' g' \/ (o = true /\ s' = s /\ g' = g).
Proof.
  destruct o; simpl; intros M; [|now left].
  apply Opt_inv in M as [M | [-> ->]]; auto.
Qed.

Lemma full_within q r w :
  full r w -> within q r -> forallb q w = true.
Proof.
  intros M W. destruct (Mat_within q M W) as (w' & E & F).
  rewrite app_nil_r in E. now subst.
Qed.

Lemma numeric_plain : plain VersionInfo.numeric_re = true.
Proof. reflexivity. Qed.

Lemma prerelease_plain : plain VersionInfo.prerelease_re = true.
Proof. reflexivity. Qed.

Lemma build_plain : plain VersionInfo.build_re = true.
Proof. reflexivity. Qed.

Lemma numeric_within : within is_digit VersionInfo.numeric_re.
Proof.
  simpl. repeat split; intros c; by_char c.
Qed.

Lemma prerelease_within : within is_ident_char VersionInfo.prerelease_re.
Proof.
  simpl. repeat split; intros c; by_char c.
Qed.

Lemma build_within : within is_ident_char VersionInfo.build_re.
Proof.
  simpl. repeat split; intros c; by_char c.
Qed.

(** A group over a plain pattern takes a whole run of characters when what
    follows the run, and what follows the group, cannot continue it. *)
Lemma run_group (q stop : ascii -> bool) name r w T g s1 g1 :
  plain r = true -> within q r ->
  (forall c, stop c = true -> negb (q c) = true) ->
  forallb q w = true ->
  Mat (Grp name r) (w ++ T) g s1 g1 ->
  headok stop T = true -> headok stop s1 = true ->
  s1 = T /\ g1 = (name, w) :: g.
Proof.
  intros P W D F M HT H1. apply Grp_inv in M as (g0 & M & ->).
  destruct (Mat_plain M P) as [-> _].
  destruct (Mat_within q M W) as (w' & E & F').
  destruct (split_unique q w w' T s1 E F F') as [<- <-].
  - revert HT. now apply headok_weaken.
  - revert H1. now apply headok_weaken.
  - split; [reflexivity|]. now rewrite firstn_matched.
Qed.

Lemma stop_core_not_digit c : stop_core c = true -> negb (is_digit c) = true.
Proof. by_char c. Qed.

Lemma stop_pre_not_ident c :
  stop_pre c = true -> negb (is_ident_char c) = true.
Proof. by_char c. Qed.

Lemma stop_build_not_ident c :
  stop_build c = true -> negb (is_ident_char c) = true.
Proof. by_char c. Qed.

Lemma build_tail_guarded : guarded stop_pre build_tail_re.
Proof.
  simpl. right. split.
  - split; [|exact I]. left. intros c H. apply is_chr_eq in H as ->.
    reflexivity.
  - reflexivity.
Qed.

Lemma pre_tail_guarded : guarded stop_tail pre_tail_re.
Proof.
  simpl. right. split.
  - split; [|exact I]. left. intros c H. apply is_chr_eq in H as ->.
    reflexivity.
  - right. split.
    + split; [|exact I]. left. intros c H. apply is_chr_eq in H as ->.
      reflexivity.
    + reflexivity.
Qed.

Lemma build_tail b g s' g' :
  full_opt VersionInfo.build_re b ->
  Mat build_tail_re (build_suffix b) g s' g' ->
  g' = add_group "build" b g.
Proof.
  intros Fb M. apply Seq_inv in M as (s1 & g1 & M & ME).
  apply Eol_inv in ME as (E & -> & ->).
  apply Opt_inv in M as [M | [-> ->]].
  - apply Seq_inv in M as (s2 & g2 & MC & M).
    apply Chr_inv in MC as [E1 ->].
    destruct b as [w|]; [|discriminate E1]. simpl in *.
    injection E1 as <-.
    rewrite <- (app_nil_r w) in M.
    destruct (@run_group is_ident_char stop_build _ _ _ _ _ _ _
                build_plain build_within
                stop_build_not_ident (@full_within _ _ _ Fb build_within) M)
      as [_ ->]; trivial.
    now destruct E as [-> | ->].
  - destruct b as [w|]; [|reflexivity].
    now destruct E as [E | E].
Qed.

Lemma pre_tail p b g s' g' :
  full_opt VersionInfo.prerelease_re p ->
  full_opt VersionInfo.build_re b ->
  Mat pre_tail_re (pre_suffix p ++ build_suffix b) g s' g' ->
  g' = add_group "build" b (add_group "prerelease" p g).
Proof.
  intros Fp Fb M. apply Seq_inv in M as (s1 & g1 & M & MB).
  pose proof (Mat_guarded stop_pre MB build_tail_guarded) as G.
  apply Opt_inv in M as [M | [-> ->]].
  - apply Seq_inv in M as (s2 & g2 & MC & M).
    apply Chr_inv in MC as [E1 ->].
    destruct p as [w|]; simpl in E1.
    + injection E1 as <-.
      destruct (@run_group is_ident_char stop_pre _ _ _ _ _ _ _
                  prerelease_plain prerelease_within stop_pre_not_ident
                  (@full_within _ _ _ Fp prerelease_within) M)
        as [-> ->]; trivial.
      * now destruct b.
      * eapply build_tail; eassumption.
    + now destruct b.
  - destruct p as [w|]; simpl in *; [discriminate G|].
    eapply build_tail; eassumption.
Qed.

Lemma stop_tail_core c : stop_tail c = true -> stop_core c = true.
Proof. by_char c. Qed.

Lemma patch_tail_guarded o : guarded stop_core (Seq (patch_re o) pre_tail_re).
Proof.
  assert (D : guarded stop_core (Chr ".")).
  { intros c H. apply is_chr_eq in H as ->. reflexivity. }
  destruct o; simpl.
  - right. split.
    + split; [|exact I]. left. exact D.
    + right. split.
      * split; [|exact I]. left. intros c H. apply is_chr_eq in H as ->.
        reflexivity.
      * right. split; [|reflexivity].
        split; [|exact I]. left. intros c H. apply is_chr_eq in H as ->.
        reflexivity.
  - left. left. exact D.
Qed.

Lemma minor_tail_guarded o : guarded stop_core (Seq (minor_re o) pre_tail_re).
Proof.
  assert (D : guarded stop_core (Chr ".")).
  { intros c H. apply is_chr_eq in H as ->. reflexivity. }
  destruct o; simpl.
  - right. split.
    + split; [|exact I]. left. exact D.
    + right. split.
      * split; [|exact I]. left. intros c H. apply is_chr_eq in H as ->.
        reflexivity.
      * right. split; [|reflexivity].
        split; [|exact I]. left. intros c H. apply is_chr_eq in H as ->.
        reflexivity.
  - left. left. exact D.
Qed.

Lemma numeral_group name n T g s1 g1 :
  Mat (Grp name VersionInfo.numeric_re) (dec n ++ T) g s1 g1 ->
  headok stop_core T = true -> headok stop_core s1 = true ->
  s1 = T /\ g1 = (name, dec n) :: g.
Proof.
  intros M. revert M.
  apply (@run_group is_digit stop_core _ _ _ _ _ _ _ numeric_plain
           numeric_within stop_core_not_digit (dec_digits n)).
Qed.

Lemma suffix_headok pre b :
  headok stop_core (pre_suffix pre ++ build_suffix b) = true.
Proof. destruct pre, b; reflexivity. Qed.

Lemma semver_re_eq o :
  VersionInfo.semver_re o =
  Seq (Grp "major" VersionInfo.numeric_re) (Seq (minor_re o) pre_tail_re).
Proof. reflexivity. Qed.

(** The version pattern reads the text of a version in one way only. *)
Lemma semver_unique o M m p pre b s' g :
  full_opt VersionInfo.prerelease_re pre ->
  full_opt VersionInfo.build_re b ->
  Mat (VersionInfo.semver_re o) (version_text M m p pre b) [] s' g ->
  g = version_groups M m p pre b.
Proof.
  intros Fp Fb M0. rewrite semver_re_eq in M0. unfold version_text in M0.
  apply Seq_inv in M0 as (s1 & g1 & MM & M1).
  pose proof (Mat_guarded stop_core M1 (minor_tail_guarded o)) as G1.
  destruct (numeral_group _ _ MM eq_refl G1) as [-> ->].
  apply Seq_inv in M1 as (s2 & g2 & Mm & MT).
  pose proof (Mat_guarded stop_tail MT pre_tail_guarded) as GT.
  apply quant_inv in Mm as [Mm | (_ & -> & ->)]; [|discriminate GT].
  apply Seq_inv in Mm as (s3 & g3 & MC & Mm).
  apply Chr_inv in MC as [E ->]. injection E as <-.
  apply Seq_inv in Mm as (s4 & g4 & Mm & Mp).
  pose proof (Mat_guarded stop_core (MSeq Mp MT) (patch_tail_guarded o)) as G4.
  destruct (numeral_group _ _ Mm eq_refl G4) as [-> ->].
  apply quant_inv in Mp as [Mp | (_ & -> & ->)]; [|discriminate GT].
  apply Seq_inv in Mp as (s5 & g5 & MC & Mp).
  apply Chr_inv in MC as [E ->]. injection E as <-.
  assert (G2 : headok stop_core s2 = true).
  { revert GT. apply headok_weaken, stop_tail_core. }
  destruct (numeral_group _ _ Mp (suffix_headok pre b) G2) as [-> ->].
  unfold version_groups. eapply pre_tail; eassumption.
Qed.

Lemma Star_cls p (w t : str) g :
  forallb p w = true -> Mat (Star (Cls p)) (w ++ t) g t g.
Proof.
  induction w as [|c w IH]; simpl; intros F.
  - apply MStar0.
  - apply andb_prop in F as [Fc Fw].
    eapply MStarS; [now apply MCls | simpl; lia | now apply IH].
Qed.

Lemma numeric_Mat n t g :
  Mat VersionInfo.numeric_re (dec n ++ t) g t g.
Proof.
  pose proof (dec_normal n) as H. unfold normal_digits in H.
  destruct (dec n) as [|c ds]; [discriminate|].
  apply andb_prop in H as [D H]. simpl in D.
  apply andb_prop in D as [_ D].
  apply orb_prop in H as [P | Z].
  - apply MAltR. eapply MSeq; [now apply MCls | now apply Star_cls].
  - apply str_eqb_eq in Z. injection Z as -> ->.
    apply MAltL. now apply MCls.
Qed.

Lemma Chr_Mat x s g : Mat (Chr x) (x :: s) g s g.
Proof. apply MCls. apply Ascii.eqb_refl. Qed.

Lemma quant_Mat o a s g s' g' :
  Mat a s g s' g' -> Mat (VersionInfo.quant o a) s g s' g'.
Proof. destruct o; simpl; [apply MAltL | auto]. Qed.

Lemma build_tail_Mat b g :
  full_opt VersionInfo.build_re b ->
  exists g', Mat build_tail_re (build_suffix b) g [] g'.
Proof.
  intros F. destruct b as [w|]; simpl.
  - eexists. eapply MSeq; [|apply MEol; now left].
    apply MAltL. eapply MSeq; [apply Chr_Mat|].
    apply MGrp. rewrite <- (app_nil_r w) at 1.
    now apply full_Mat.
  - eexists. eapply MSeq; [apply MAltR, MEps | apply MEol; now left].
Qed.

Lemma pre_tail_Mat pre b g :
  full_opt VersionInfo.prerelease_re pre ->
  full_opt VersionInfo.build_re b ->
  exists g', Mat pre_tail_re (pre_suffix pre ++ build_suffix b) g [] g'.
Proof.
  intros Fp Fb. destruct pre as [w|]; simpl.
  - destruct (@build_tail_Mat b
                (("prerelease"%string,
                  firstn (List.length (w ++ build_suffix b)
                          - List.length (build_suffix b))
                    (w ++ build_suffix b)) :: g) Fb) as [g' Mb].
    eexists. eapply MSeq; [|exact Mb].
    apply MAltL. eapply MSeq; [apply Chr_Mat|].
    apply MGrp. now apply full_Mat.
  - destruct (@build_tail_Mat b g Fb) as [g' Mb].
    eexists. eapply MSeq; [apply MAltR, MEps | exact Mb].
Qed.

Lemma semver_exists o M m p pre b :
  full_opt VersionInfo.prerelease_re pre ->
  full_opt VersionInfo.build_re b ->
  exists g, Mat (VersionInfo.semver_re o) (version_text M m p pre b) [] [] g.
Proof.
  intros Fp Fb. rewrite semver_re_eq. unfold version_text.
  edestruct (pre_tail_Mat) as [g' Mt]; [exact Fp | exact Fb |].
  eexists.
  eapply MSeq; [apply MGrp, numeric_Mat|].
  eapply MSeq; [|exact Mt].
  apply quant_Mat. eapply MSeq; [apply Chr_Mat|].
  eapply MSeq; [apply MGrp, numeric_Mat|].
  apply quant_Mat. eapply MSeq; [apply Chr_Mat|].
  apply MGrp, numeric_Mat.
Qed.

Lemma full_not_nil r w : full r w -> consuming r = true -> w <> [].
Proof.
  intros M C ->. apply (Mat_consuming M) in C. simpl in C. lia.
Qed.

Lemma wf_falsy_pre v :
  wf v ->
  VersionInfo.falsy (VersionInfo.prerelease v) =
  match VersionInfo.prerelease v with Some _ => false | None => true end.
Proof.
  intros [Fp _]. destruct (VersionInfo.prerelease v) as [[|c w]|];
    try reflexivity.
  now apply full_not_nil in Fp.
Qed.

Lemma wf_falsy_build v :
  wf v ->
  VersionInfo.falsy (VersionInfo.build v) =
  match VersionInfo.build v with Some _ => false | None => true end.
Proof.
  intros [_ Fb]. destruct (VersionInfo.build v) as [[|c w]|];
    try reflexivity.
  now apply full_not_nil in Fb.
Qed.

(** [str(v)] is the text of [v]. *)
Lemma str_text v :
  wf v ->
  VersionInfo.__str__ v =
  version_text (VersionInfo.major v) (VersionInfo.minor v)
    (VersionInfo.patch v) (VersionInfo.prerelease v) (VersionInfo.build v).
Proof.
  intros W. unfold VersionInfo.__str__, version_text.
  rewrite (wf_falsy_pre W), (wf_falsy_build W).
  destruct (VersionInfo.prerelease v), (VersionInfo.build v); simpl;
    repeat (rewrite <- app_assoc; simpl); rewrite ?app_nil_r; reflexivity.
Qed.

Lemma int_part_dec n : VersionInfo.int_part (dec n) = Ok n.
Proof. unfold VersionInfo.int_part. now rewrite py_int_dec. Qed.

Lemma int_part_or_0_dec n : VersionInfo.int_part_or_0 (Some (dec n)) = Ok n.
Proof.
  unfold VersionInfo.int_part_or_0.
  pose proof (dec_not_nil n) as NE. pose proof (int_part_dec n) as E.
  destruct (dec n); [contradiction | exact E].
Qed.

Lemma group_version_groups M m p pre b :
  let g := version_groups M m p pre b in
  group "major" g = Some (dec M) /\ group "minor" g = Some (dec m) /\
  group "patch" g = Some (dec p) /\ group "prerelease" g = pre /\
  group "build" g = b.
Proof.
  destruct pre, b; repeat split; reflexivity.
Qed.

(** Parsing the text of a version gives the version back, with or without
    [optional_minor_and_patch]. *)
Lemma parse_str v o :
  wf v -> VersionInfo.parse (VersionInfo.__str__ v) o = Ok v.
Proof.
  intros W. rewrite (str_text W). destruct W as [Fp Fb].
  unfold VersionInfo.parse.
  destruct (re_match _ _) as [g|] eqn:E.
  - apply re_match_sound in E as [s' M].
    apply semver_unique in M; [|assumption|assumption]. subst g.
    destruct (group_version_groups (VersionInfo.major v)
                (VersionInfo.minor v) (VersionInfo.patch v)
                (VersionInfo.prerelease v) (VersionInfo.build v))
      as (-> & -> & -> & -> & ->).
    rewrite int_part_dec, !int_part_or_0_dec. simpl. now destruct v.
  - exfalso.
    destruct (@semver_exists o (VersionInfo.major v) (VersionInfo.minor v)
                (VersionInfo.patch v) _ _ Fp Fb) as [g M].
    now apply re_match_complete in M.
Qed.

Lemma bind_Ok {A B} (r : result A) (f : A -> result B) b :
  bind r f = Ok b -> exists a, r = Ok a /\ f a = Ok b.
Proof.
  destruct r; simpl; [eauto | discriminate].
Qed.

(** What [VersionInfo.parse] returns is well formed. *)
Lemma parse_wf s o v : VersionInfo.parse s o = Ok v -> wf v.
Proof.
  unfold VersionInfo.parse.
  destruct (re_match _ s) as [g|] eqn:E; [|discriminate].
  apply re_match_sound in E as [s' M]. intros H.
  apply bind_Ok in H as (ma & _ & H). apply bind_Ok in H as (mi & _ & H).
  apply bind_Ok in H as (pa & _ & H). injection H as <-.
  split; simpl.
  - destruct (group "prerelease" g) as [w|] eqn:G; [|exact I]. simpl.
    destruct (Mat_group M _ G) as [G0 | (a & t & g0 & g1 & In_ & Ma)];
      [discriminate|].
    assert (a = VersionInfo.prerelease_re) as ->.
    { destruct o; simpl in In_;
        repeat (destruct In_ as [In_ | In_];
                [try discriminate In_; now injection In_ |]);
        contradiction. }
    exact (@Mat_to_full _ _ _ _ _ Ma prerelease_plain).
  - destruct (group "build" g) as [w|] eqn:G; [|exact I]. simpl.
    destruct (Mat_group M _ G) as [G0 | (a & t & g0 & g1 & In_ & Ma)];
      [discriminate|].
    assert (a = VersionInfo.build_re) as ->.
    { destruct o; simpl in In_;
        repeat (destruct In_ as [In_ | In_];
                [try discriminate In_; now injection In_ |]);
        contradiction. }
    exact (@Mat_to_full _ _ _ _ _ Ma build_plain).
Qed.

(** ** The text of a version carries no prefix *)

Lemma version_text_chars M m p pre b :
  full_opt VersionInfo.prerelease_re pre ->
  full_opt VersionInfo.build_re b ->
  forallb is_version_char (version_text M m p pre b) = true.
Proof.
  intros Fp Fb. unfold version_text.
  assert (D : forall n, forallb is_version_char (dec n) = true).
  { intros n. apply (forallb_weaken is_digit); [|apply dec_digits].
    intros c. by_char c. }
  assert (W : forall w, forallb is_ident_char w = true ->
                        forallb is_version_char w = true).
  { intros w. apply forallb_weaken. intros c. by_char c. }
  rewrite forallb_app, D. simpl.
  rewrite forallb_app, D. simpl.
  rewrite forallb_app, D. simpl.
  rewrite forallb_app. apply andb_true_intro. split.
  - destruct pre as [w|]; [|reflexivity]. simpl. apply W.
    exact (@full_within _ _ _ Fp prerelease_within).
  - destruct b as [w|]; [|reflexivity]. simpl. apply W.
    exact (@full_within _ _ _ Fb build_within).
Qed.

Lemma version_text_head M m p pre b :
  exists c s, version_text M m p pre b = c :: s /\ is_digit c = true.
Proof.
  unfold version_text.
  pose proof (dec_not_nil M) as NE. pose proof (dec_digits M) as D.
  destruct (dec M) as [|c w]; [contradiction|].
  simpl in D. apply andb_prop in D as [D _].
  exists c. eexists. split; [reflexivity | exact D].
Qed.

Lemma prefix_re_none (S : str) :
  forallb is_version_char S = true ->
  (exists c s, S = c :: s /\ is_digit c = true) ->
  re_match SemanticVersion.prefix_re S = None.
Proof.
  intros F (c & s & -> & D). apply re_match_none. intros s' g M.
  apply Seq_inv in M as (s1 & g1 & M & _).
  apply Grp_inv in M as (g0 & M & _).
  apply Alt_inv in M as [M | M].
  - apply Seq_inv in M as (s2 & g2 & M & MV).
    apply Chr_inv in MV as [-> _].
    apply Opt_inv in M as [M | [E _]].
    + apply Seq_inv in M as (s3 & g3 & M & MA).
      apply Chr_inv in MA as [-> _].
      apply Mat_suffix in M as [w E]. rewrite E in F.
      rewrite forallb_app in F. apply andb_prop in F as [_ F].
      discriminate F.
    + injection E as E1 _. subst c. discriminate D.
  - apply Chr_inv in M as [E _]. injection E as E1 _. subst c. discriminate D.
Qed.

(** ** What the package parsers return is well formed *)

Lemma alnum_run_Mat (w t : str) g :
  w <> [] -> forallb is_alnum_hyphen w = true ->
  Mat (Plus (Cls is_alnum_hyphen)) (w ++ t) g t g.
Proof.
  intros NE F. destruct w as [|c w]; [contradiction|].
  simpl in F. apply andb_prop in F as [Fc Fw].
  eapply MSeq; [now apply MCls | now apply Star_cls].
Qed.

Lemma dotted_Mat (b t : str) g :
  b <> [] -> forallb is_alnum_hyphen b = true ->
  Mat (Star (Seq (Chr ".") (Plus (Cls is_alnum_hyphen)))) t g [] g ->
  Mat (Star (Seq (Chr ".") (Plus (Cls is_alnum_hyphen))))
      ("." :: b ++ t) g [] g.
Proof.
  intros NE F M.
  eapply MStarS.
  - eapply MSeq; [apply Chr_Mat | now apply alnum_run_Mat].
  - simpl. rewrite length_app. lia.
  - exact M.
Qed.

Lemma build_Mat (a t : str) g :
  a <> [] -> forallb is_alnum_hyphen a = true ->
  Mat (Star (Seq (Chr ".") (Plus (Cls is_alnum_hyphen)))) t g [] g ->
  Mat VersionInfo.build_re (a ++ t) g [] g.
Proof.
  intros NE F M. eapply MSeq; [now apply alnum_run_Mat | exact M].
Qed.

Lemma dec_alnum n : forallb is_alnum_hyphen (dec n) = true.
Proof.
  apply (forallb_weaken is_digit); [apply digit_alnum | apply dec_digits].
Qed.

(** [dev.N], [post.N] and [dev.N.postM] are builds. *)
Lemma build_full_2 (a : str) n :
  a <> [] -> forallb is_alnum_hyphen a = true ->
  full VersionInfo.build_re (a ++ "." :: dec n).
Proof.
  intros NE F. apply build_Mat; trivial.
  rewrite <- (app_nil_r (dec n)).
  apply dotted_Mat; [apply dec_not_nil | apply dec_alnum | apply MStar0].
Qed.

Lemma build_full_3 (a b : str) n m :
  a <> [] -> forallb is_alnum_hyphen a = true ->
  b <> [] -> forallb is_alnum_hyphen b = true ->
  full VersionInfo.build_re (a ++ "." :: dec n ++ "." :: b ++ dec m).
Proof.
  intros NEa Fa NEb Fb. apply build_Mat; trivial.
  apply dotted_Mat; [apply dec_not_nil | apply dec_alnum |].
  rewrite <- (app_nil_r (b ++ dec m)).
  apply dotted_Mat; [| |apply MStar0].
  - destruct b; [contradiction | discriminate].
  - rewrite forallb_app, Fb. apply dec_alnum.
Qed.

Lemma pre_ident_num_Mat n t g :
  Mat VersionInfo.pre_ident_re (dec n ++ t) g t g.
Proof.
  pose proof (numeric_Mat n t g) as M.
  apply Alt_inv in M as [M | M]; [now apply MAltL|].
  apply MAltR. now apply MAltL.
Qed.

Lemma pre_ident_word_Mat c (w t : str) g :
  is_alpha_hyphen c = true -> forallb is_alnum_hyphen w = true ->
  Mat VersionInfo.pre_ident_re (c :: w ++ t) g t g.
Proof.
  intros Fc Fw. apply MAltR, MAltR.
  eapply MSeq; [apply MStar0|].
  eapply MSeq; [now apply MCls | now apply Star_cls].
Qed.

(** [alpha.N], [beta.N], [rc.N] and the like are prereleases. *)
Lemma pre_full_2 c (w : str) n :
  is_alpha_hyphen c = true -> forallb is_alnum_hyphen w = true ->
  full VersionInfo.prerelease_re ((c :: w) ++ "." :: dec n).
Proof.
  intros Fc Fw. unfold full. simpl.
  eapply MSeq; [now apply pre_ident_word_Mat|].
  eapply MStarS.
  - eapply MSeq; [apply Chr_Mat|].
    rewrite <- (app_nil_r (dec n)) at 1. apply pre_ident_num_Mat.
  - simpl. lia.
  - apply MStar0.
Qed.

Lemma ILit_inv l : forall s g s' g',
  Mat (ILit l) s g s' g' -> exists w, s = w ++ s' /\ lower w = l /\ g' = g.
Proof.
  induction l as [|c l IH]; intros s g s' g' M.
  - apply Eps_inv in M as [-> ->]. now exists [].
  - destruct l as [|d l].
    + apply Cls_inv in M as (x & -> & E & ->).
      apply Ascii.eqb_eq in E. exists [x]. simpl. now rewrite E.
    + change (ILit (c :: d :: l))
        with (Seq (Cls (is_ichr c)) (ILit (d :: l))) in M.
      apply Seq_inv in M as (s1 & g1 & MC & M).
      apply Cls_inv in MC as (x & -> & E & ->).
      apply Ascii.eqb_eq in E.
      apply IH in M as (w & -> & L & ->).
      exists (x :: w). simpl. now rewrite E, L.
Qed.

(** The letters that [_parse_letter_version] can return. *)
Lemma letter_version_letters (letter number : option str) l n :
  (forall w, letter = Some w ->
     In (lower w) (map lit ["alpha"; "a"; "beta"; "b"; "preview"; "pre";
                            "c"; "rc"; "post"; "rev"; "r"; "dev"]%string)) ->
  PyPIVersion._parse_letter_version letter number = Ok (Some (l, n)) ->
  In l (map lit ["a"; "b"; "rc"; "post"; "dev"]%string).
Proof.
  intros L. unfold PyPIVersion._parse_letter_version.
  destruct letter as [[|c w]|].
  - destruct number as [[|d x]|]; try discriminate.
    intros H. apply bind_Ok in H as (k & _ & H). injection H as <- _.
    simpl. tauto.
  - specialize (L _ eq_refl). remember (lower (c :: w)) as lw. intros H.
    apply bind_Ok in H as (k & _ & H). injection H as <- _.
    simpl in L.
    repeat (destruct L as [L | L]; [rewrite <- L; simpl; tauto|]).
    contradiction.
  - destruct number as [[|d x]|]; try discriminate.
    intros H. apply bind_Ok in H as (k & _ & H). injection H as <- _.
    simpl. tauto.
Qed.

Ltac this_word Q Ma l :=
  apply (Q _ Ma); exists l; split; [reflexivity | simpl; tauto].

Ltac any_word Q Ma :=
  first [ this_word Q Ma "alpha"%string | this_word Q Ma "a"%string
        | this_word Q Ma "beta"%string | this_word Q Ma "b"%string
        | this_word Q Ma "preview"%string | this_word Q Ma "pre"%string
        | this_word Q Ma "c"%string | this_word Q Ma "rc"%string
        | this_word Q Ma "post"%string | this_word Q Ma "rev"%string
        | this_word Q Ma "r"%string | this_word Q Ma "dev"%string ].

Lemma version_re_letter s s' g name w :
  Mat PyPIVersion.version_re s [] s' g ->
  In name ["pre_l"; "post_l"; "dev_l"]%string ->
  group name g = Some w ->
  In (lower w) (map lit ["alpha"; "a"; "beta"; "b"; "preview"; "pre";
                         "c"; "rc"; "post"; "rev"; "r"; "dev"]%string).
Proof.
  intros M N G.
  destruct (Mat_group M _ G) as [G0 | (a & t & g0 & g1 & In_ & Ma)];
    [discriminate|].
  assert (P : forall l, Mat (ILit (lit l)) (w ++ t) g0 t g1 ->
                        lower w = lit l).
  { intros l Ml. apply ILit_inv in Ml as (w' & E & L & _).
    apply app_inv_tail in E. now subst. }
  assert (Q : forall a', Mat a' (w ++ t) g0 t g1 ->
              (exists l, a' = ILit (lit l) /\
                 In l ["alpha"; "a"; "beta"; "b"; "preview"; "pre";
                       "c"; "rc"; "post"; "rev"; "r"; "dev"]%string) ->
              In (lower w)
                (map lit ["alpha"; "a"; "beta"; "b"; "preview"; "pre";
                          "c"; "rc"; "post"; "rev"; "r"; "dev"]%string)).
  { intros a' Ma' (l & -> & I). rewrite (P l Ma'). now apply in_map. }
  simpl in N. simpl in In_.
  destruct N as [<- | [<- | [<- | []]]];
    repeat (destruct In_ as [In_ | In_];
            [try discriminate In_; injection In_ as <-|]);
    try contradiction;
    repeat (apply Alt_inv in Ma as [Ma | Ma]; [any_word Q Ma|]);
    any_word Q Ma.
Qed.

Lemma init_letters s pv :
  PyPIVersion.__init__ s = Ok pv ->
  forall l n, PyPIVersion.pre pv = Some (l, n) ->
              In l (map lit ["a"; "b"; "rc"; "post"; "dev"]%string).
Proof.
  unfold PyPIVersion.__init__.
  destruct (re_match _ s) as [g|] eqn:E; [|discriminate].
  apply re_match_sound in E as [s' M]. intros H.
  apply bind_Ok in H as (e & _ & H). apply bind_Ok in H as (r & _ & H).
  apply bind_Ok in H as (pre & Hpre & H).
  apply bind_Ok in H as (post & _ & H). apply bind_Ok in H as (dev & _ & H).
  injection H as <-. unfold PyPIVersion.pre. simpl. intros l n ->.
  revert Hpre. apply letter_version_letters. intros w G.
  eapply version_re_letter; [exact M | | exact G]. simpl. tauto.
Qed.

(** What [_parse_pypi] builds from a PEP 440 version is well formed. *)
Lemma pypi_to_semver_wf s pv :
  PyPIVersion.__init__ s = Ok pv -> wf (SemanticVersion.pypi_to_semver pv).
Proof.
  intros H. pose proof (init_letters _ H) as L.
  unfold SemanticVersion.pypi_to_semver, wf. simpl. split.
  - destruct (PyPIVersion.pre pv) as [[l n]|]; [|exact I].
    specialize (L l n eq_refl). simpl in L.
    destruct L as [<- | [<- | [<- | [<- | [<- | []]]]]]; simpl.
    + apply (@pre_full_2 "a" (lit "lpha")); reflexivity.
    + apply (@pre_full_2 "b" (lit "eta")); reflexivity.
    + apply (@pre_full_2 "r" (lit "c")); reflexivity.
    + apply (@pre_full_2 "p" (lit "ost")); reflexivity.
    + apply (@pre_full_2 "d" (lit "ev")); reflexivity.
  - destruct (PyPIVersion.dev pv) as [d|], (PyPIVersion.post pv) as [p|];
      simpl; try destruct (d =? 0)%N; try destruct (p =? 0)%N; simpl;
      try exact I;
      first [ apply (@build_full_2 (lit "dev")); [discriminate | reflexivity]
            | apply (@build_full_2 (lit "post")); [discriminate | reflexivity]
            | apply (@build_full_3 (lit "dev") (lit "post") d p);
              try discriminate; reflexivity ].
Qed.

(** ** [SemanticVersion.parse] *)

Lemma parse_unfold s :
  SemanticVersion.parse s =
  match SemanticVersion._parse_semver (snd (split_prefix s))
          (fst (split_prefix s)) s with
  | Raise (ValueError _) =>
      match SemanticVersion._parse_pypi (snd (split_prefix s))
              (fst (split_prefix s)) s with
      | Raise (ValueError _) =>
          SemanticVersion._parse_legacy (snd (split_prefix s))
            (fst (split_prefix s)) s
      | r => r
      end
  | r => r
  end.
Proof.
  unfold SemanticVersion.parse, split_prefix.
  destruct (re_match SemanticVersion.prefix_re s); reflexivity.
Qed.

Lemma _parse_semver_Ok ver pfx orig sv :
  SemanticVersion._parse_semver ver pfx orig = Ok sv ->
  exists vi, VersionInfo.parse ver true = Ok vi /\
             sv = SemanticVersion.Build vi orig pfx SEMVER.
Proof.
  unfold SemanticVersion._parse_semver.
  destruct (VersionInfo.parse ver true) as [vi|[]]; try discriminate.
  intros H. injection H as <-. now exists vi.
Qed.

Lemma _parse_pypi_Ok ver pfx orig sv :
  SemanticVersion._parse_pypi ver pfx orig = Ok sv ->
  exists pv, PyPIVersion.__init__ ver = Ok pv /\
             sv = SemanticVersion.Build (SemanticVersion.pypi_to_semver pv)
                    orig pfx PYPI.
Proof.
  unfold SemanticVersion._parse_pypi.
  destruct (PyPIVersion.__init__ ver) as [pv|]; try discriminate.
  intros H. injection H as <-. now exists pv.
Qed.

Lemma _parse_legacy_Ok ver pfx orig sv :
  SemanticVersion._parse_legacy ver pfx orig = Ok sv ->
  exists ver' vi, VersionInfo.parse ver' true = Ok vi /\
                  sv = SemanticVersion.Build vi orig pfx UNKNOWN.
Proof.
  unfold SemanticVersion._parse_legacy.
  match goal with
  | |- match VersionInfo.parse ?v true with _ => _ end = _ -> _ =>
      destruct (VersionInfo.parse v true) as [vi|[]] eqn:E; try discriminate;
      intros H; injection H as <-; now exists v, vi
  end.
Qed.

(** The three ways in which [parse] succeeds. *)
Lemma parse_Ok s sv :
  SemanticVersion.parse s = Ok sv ->
  let pfx := fst (split_prefix s) in
  let ver := snd (split_prefix s) in
  SemanticVersion._parse_semver ver pfx s = Ok sv \/
  ((forall x, SemanticVersion._parse_semver ver pfx s <> Ok x) /\
   (SemanticVersion._parse_pypi ver pfx s = Ok sv \/
    ((forall x, SemanticVersion._parse_pypi ver pfx s <> Ok x) /\
     SemanticVersion._parse_legacy ver pfx s = Ok sv))).
Proof.
  rewrite parse_unfold. simpl.
  destruct (SemanticVersion._parse_semver _ _ s) as [x|[m| |]];
    try discriminate; intros H.
  - now left.
  - right. split; [discriminate|].
    destruct (SemanticVersion._parse_pypi _ _ s) as [y|[m'| |]];
      try discriminate.
    + now left.
    + right. split; [discriminate | exact H].
Qed.

(** What [parse] returns is well formed, and keeps its input. *)
Lemma parse_wf_version s sv :
  SemanticVersion.parse s = Ok sv -> wf (SemanticVersion.version_info sv).
Proof.
  intros H. apply parse_Ok in H. simpl in H.
  destruct H as [H | [_ [H | [_ H]]]].
  - apply _parse_semver_Ok in H as (vi & P & ->). simpl.
    now apply parse_wf in P.
  - apply _parse_pypi_Ok in H as (pv & P & ->). simpl.
    now apply pypi_to_semver_wf in P.
  - apply _parse_legacy_Ok in H as (ver' & vi & P & ->). simpl.
    now apply parse_wf in P.
Qed.

Lemma parse_envelope s sv :
  SemanticVersion.parse s = Ok sv ->
  SemanticVersion.original_version sv = s /\
  SemanticVersion.prefix sv = fst (split_prefix s).
Proof.
  intros H. apply parse_Ok in H. simpl in H.
  destruct H as [H | [_ [H | [_ H]]]].
  - apply _parse_semver_Ok in H as (vi & P & ->). now split.
  - apply _parse_pypi_Ok in H as (pv & P & ->). now split.
  - apply _parse_legacy_Ok in H as (ver' & vi & P & ->). now split.
Qed.

(** Parsing the text of a well-formed version: no prefix, the semver
    decoder, the same version. *)
Lemma parse_text v :
  wf v ->
  SemanticVersion.parse (VersionInfo.__str__ v) =
  Ok (SemanticVersion.Build v (VersionInfo.__str__ v) [] SEMVER).
Proof.
  intros W. unfold SemanticVersion.parse.
  rewrite prefix_re_none.
  - unfold SemanticVersion._parse_semver. now rewrite parse_str.
  - rewrite (str_text W). destruct W. now apply version_text_chars.
  - rewrite (str_text W). apply version_text_head.
Qed.

(** ** Comparison *)

Lemma _cmp_refl n : VersionInfo._cmp n n = 0%Z.
Proof. unfold VersionInfo._cmp. now rewrite N.compare_refl. Qed.

Lemma _cmp_str_refl x : VersionInfo._cmp_str x x = 0%Z.
Proof.
  induction x as [|c x IH]; simpl; [reflexivity|].
  now rewrite N.compare_refl.
Qed.

Lemma cmp_zip_refl l : VersionInfo.cmp_zip l l = 0%Z.
Proof.
  induction l as [|t l IH]; simpl; [reflexivity|].
  assert (E : VersionInfo.cmp_prerelease_tag t t = 0%Z).
  { destruct t; simpl; [apply _cmp_refl | apply _cmp_str_refl]. }
  now rewrite E.
Qed.

Lemma _nat_cmp_refl a : VersionInfo._nat_cmp a a = 0%Z.
Proof.
  unfold VersionInfo._nat_cmp. rewrite cmp_zip_refl. simpl.
  apply _cmp_refl.
Qed.

(** The comparison reads the build of neither version. *)
Lemma compare_build_irrelevant M m p pre b1 M' m' p' pre' b2 b1' b2' :
  VersionInfo.compare (VersionInfo.Build M m p pre b1)
    (VersionInfo.Build M' m' p' pre' b2) =
  VersionInfo.compare (VersionInfo.Build M m p pre b1')
    (VersionInfo.Build M' m' p' pre' b2').
Proof. reflexivity. Qed.

Lemma compare_same_fields v w :
  VersionInfo.major v = VersionInfo.major w ->
  VersionInfo.minor v = VersionInfo.minor w ->
  VersionInfo.patch v = VersionInfo.patch w ->
  VersionInfo.prerelease v = VersionInfo.prerelease w ->
  VersionInfo.compare v w = 0%Z.
Proof.
  intros E1 E2 E3 E4. unfold VersionInfo.compare, VersionInfo._cmp_triple.
  rewrite E1, E2, E3, E4, !_cmp_refl, _nat_cmp_refl. reflexivity.
Qed.

Lemma compare_refl v : VersionInfo.compare v v = 0%Z.
Proof. now apply compare_same_fields. Qed.

(** ** [to_pypi] always returns *)

Lemma startswith_app (p s : str) :
  startswith p s = true -> exists t, s = p ++ t.
Proof.
  revert s. induction p as [|c p IH]; intros s H.
  - now exists s.
  - destruct s as [|d s]; [discriminate|]. simpl in H.
    apply andb_prop in H as [E H]. apply Ascii.eqb_eq in E as ->.
    destruct (IH s H) as [t ->]. now exists t.
Qed.

Lemma split_dot_not_nil (s : str) : split_dot s <> [].
Proof.
  induction s as [|c s IH]; simpl; [discriminate|].
  destruct (is_chr "." c); [discriminate|].
  destruct (split_dot s); discriminate.
Qed.

Lemma split_dot_cons c (s : str) :
  is_chr "." c = false ->
  split_dot (c :: s) = (c :: hd [] (split_dot s)) :: tl (split_dot s).
Proof.
  intros E. simpl. rewrite E.
  pose proof (split_dot_not_nil s) as NE.
  destruct (split_dot s); [contradiction | reflexivity].
Qed.

Lemma split_1_after_dot (w s : str) :
  forallb (fun c => negb (is_chr "." c)) w = true ->
  exists y, SemanticVersion.split_1 (w ++ "." :: s) = Ok y.
Proof.
  intros F. unfold SemanticVersion.split_1.
  assert (E : exists x y l, split_dot (w ++ "." :: s) = x :: y :: l).
  { induction w as [|c w IH]; simpl in *.
    - pose proof (split_dot_not_nil s) as NE.
      destruct (split_dot s) as [|y l]; [contradiction|]. now eexists _, _, _.
    - apply andb_prop in F as [Fc Fw].
      destruct (IH Fw) as (x & y & l & ->).
      apply negb_true_iff in Fc. rewrite Fc. now eexists _, _, _. }
  destruct E as (x & y & l & ->). now exists y.
Qed.

Lemma split_1_startswith (w : string) (x : str) :
  forallb (fun c => negb (is_chr "." c)) (removelast (lit w)) = true ->
  last (lit w) "." = "." ->
  lit w <> [] ->
  startswith (lit w) x = true ->
  exists y, SemanticVersion.split_1 x = Ok y.
Proof.
  intros F L NE S. apply startswith_app in S as [t ->].
  rewrite (app_removelast_last "." NE), L, <- app_assoc. simpl.
  now apply split_1_after_dot.
Qed.

Lemma bind_total {A B} (r : result A) (f : A -> result B) :
  (exists a, r = Ok a) -> (forall a, exists b, f a = Ok b) ->
  exists b, bind r f = Ok b.
Proof.
  intros [a ->] F. simpl. apply F.
Qed.

Ltac split_1_case E :=
  apply split_1_startswith in E as [? ->]; try reflexivity;
  [simpl; now eexists | discriminate].

Lemma to_pypi_total v : exists r, SemanticVersion.to_pypi v = Ok r.
Proof.
  unfold SemanticVersion.to_pypi. cbv zeta. apply bind_total.
  - destruct (VersionInfo.falsy _); [now eexists|].
    destruct (startswith (lit "alpha.") _) eqn:E1; [split_1_case E1|].
    destruct (startswith (lit "beta.") _) eqn:E2; [split_1_case E2|].
    destruct (startswith (lit "rc.") _) eqn:E3; [split_1_case E3|].
    now eexists.
  - intros base.
    destruct (VersionInfo.falsy _); [now eexists|].
    destruct (startswith (lit "dev.") _) eqn:E1; [split_1_case E1|].
    destruct (startswith (lit "post.") _) eqn:E2; [split_1_case E2|].
    now eexists.
Qed.

(** ** Comparison: range and equality *)

Lemma _cmp_sign a b : in_sign (VersionInfo._cmp a b).
Proof.
  unfold in_sign, VersionInfo._cmp. destruct (a ?= b)%N; auto.
Qed.

Lemma _cmp_str_sign a b : in_sign (VersionInfo._cmp_str a b).
Proof.
  unfold in_sign. revert b.
  induction a as [|x a IH]; intros [|y b]; simpl; auto.
  destruct (code x ?= code y)%N; auto.
Qed.

Lemma cmp_tag_sign a b : in_sign (VersionInfo.cmp_prerelease_tag a b).
Proof.
  destruct a, b; simpl;
    [apply _cmp_sign | | | apply _cmp_str_sign]; unfold in_sign; auto.
Qed.

Lemma cmp_zip_sign a b : in_sign (VersionInfo.cmp_zip a b).
Proof.
  revert b. induction a as [|x a IH]; intros [|y b]; simpl;
    try (unfold in_sign; now auto).
  destruct (VersionInfo.cmp_prerelease_tag x y =? 0)%Z;
    [apply IH | apply cmp_tag_sign].
Qed.

Lemma _nat_cmp_sign a b : in_sign (VersionInfo._nat_cmp a b).
Proof.
  unfold VersionInfo._nat_cmp.
  destruct (VersionInfo.cmp_zip _ _ =? 0)%Z;
    [apply _cmp_sign | apply cmp_zip_sign].
Qed.

Lemma _cmp_triple_sign a b : in_sign (VersionInfo._cmp_triple a b).
Proof.
  destruct a as [[a1 a2] a3], b as [[b1 b2] b3]. simpl.
  destruct (VersionInfo._cmp a1 b1 =? 0)%Z; [|apply _cmp_sign].
  destruct (VersionInfo._cmp a2 b2 =? 0)%Z; apply _cmp_sign.
Qed.

(** [compare] returns -1, 0 or 1. *)
Lemma compare_sign v w : in_sign (VersionInfo.compare v w).
Proof.
  unfold VersionInfo.compare.
  destruct (negb _); [apply _cmp_triple_sign|].
  destruct (VersionInfo._nat_cmp _ _ =? 0)%Z; [unfold in_sign; auto|].
  destruct (VersionInfo.falsy _); [unfold in_sign; auto|].
  destruct (VersionInfo.falsy _); [unfold in_sign; auto|].
  apply _nat_cmp_sign.
Qed.

Lemma _cmp_0 a b : VersionInfo._cmp a b = 0%Z -> a = b.
Proof.
  unfold VersionInfo._cmp. destruct (a ?= b)%N eqn:E; try discriminate.
  intros _. now apply N.compare_eq.
Qed.

Lemma code_inj x y : code x = code y -> x = y.
Proof.
  unfold code. intros E.
  rewrite <- (ascii_N_embedding x), <- (ascii_N_embedding y). now rewrite E.
Qed.

Lemma _cmp_str_0 a b : VersionInfo._cmp_str a b = 0%Z -> a = b.
Proof.
  revert b. induction a as [|x a IH]; intros [|y b]; simpl;
    try discriminate; auto.
  destruct (code x ?= code y)%N eqn:E; try discriminate.
  intros H. apply N.compare_eq in E. apply code_inj in E as ->.
  now rewrite (IH b H).
Qed.

Lemma cmp_tag_0 a b : VersionInfo.cmp_prerelease_tag a b = 0%Z -> a = b.
Proof.
  destruct a, b; simpl; try discriminate; intros H.
  - now rewrite (_cmp_0 _ _ H).
  - now rewrite (_cmp_str_0 _ _ H).
Qed.

Lemma _cmp_triple_0 a1 a2 a3 b1 b2 b3 :
  VersionInfo._cmp_triple (a1, a2, a3) (b1, b2, b3) = 0%Z ->
  a1 = b1 /\ a2 = b2 /\ a3 = b3.
Proof.
  simpl.
  destruct (VersionInfo._cmp a1 b1 =? 0)%Z eqn:E1.
  - destruct (VersionInfo._cmp a2 b2 =? 0)%Z eqn:E2.
    + intros E3. apply Z.eqb_eq in E1, E2.
      repeat split; now apply _cmp_0.
    + intros E. rewrite E in E2. discriminate.
  - intros E. rewrite E in E1. discriminate.
Qed.

(** ** The identifiers of a prerelease *)

Lemma pre_ident_lang s g s' g' :
  Mat VersionInfo.pre_ident_re s g s' g' ->
  exists w, s = w ++ s' /\ is_ident w = true.
Proof.
  intros M. apply Alt_inv in M as [M | M]; [|apply Alt_inv in M as [M | M]].
  - apply Chr_inv in M as [-> _]. now exists ["0"].
  - apply Seq_inv in M as (s1 & g1 & MC & MS).
    apply Cls_inv in MC as (c & -> & Pc & _).
    destruct (Mat_within is_digit MS (fun c H => H)) as (ds & -> & D).
    exists (c :: ds). split; [reflexivity|].
    unfold is_ident, normal_digits. simpl.
    rewrite (pos_digit_digit c Pc), D, Pc,
      (digit_alnum c (pos_digit_digit c Pc)),
      (forallb_weaken is_digit is_alnum_hyphen ds digit_alnum D).
    reflexivity.
  - apply Seq_inv in M as (s1 & g1 & MD & M).
    apply Seq_inv in M as (s2 & g2 & MC & MS).
    destruct (Mat_within is_digit MD (fun c H => H)) as (ds & -> & D).
    apply Cls_inv in MC as (c & -> & Ac & _).
    destruct (Mat_within is_alnum_hyphen MS (fun c H => H))
      as (rest & -> & R).
    exists (ds ++ c :: rest). split; [now rewrite <- app_assoc|].
    unfold is_ident. rewrite !forallb_app. simpl.
    rewrite (forallb_weaken is_digit is_alnum_hyphen ds digit_alnum D),
      (alpha_alnum c Ac), R, (alpha_not_digit c Ac), andb_false_r.
    now destruct ds.
Qed.

Lemma star_ident_lang r s g s' g' :
  Mat r s g s' g' ->
  r = Star (Seq (Chr ".") VersionInfo.pre_ident_re) ->
  exists ids, Forall (fun i => is_ident i = true) ids /\
              s = dotted ids ++ s'.
Proof.
  induction 1; intros E; try discriminate E.
  - now exists [].
  - injection E as ->. destruct (IHMat2 eq_refl) as (ids & F & ->).
    apply Seq_inv in H as (s3 & g3 & MC & MI).
    apply Chr_inv in MC as [-> _].
    apply pre_ident_lang in MI as (w & -> & I).
    exists (w :: ids). split; [now constructor|].
    unfold dotted. simpl. now rewrite <- app_assoc.
Qed.

(** A prerelease is a dotted list of identifiers. *)
Lemma prerelease_lang w :
  full VersionInfo.prerelease_re w ->
  exists i ids, is_ident i = true /\
                Forall (fun i => is_ident i = true) ids /\
                w = i ++ dotted ids.
Proof.
  intros M. apply Seq_inv in M as (s1 & g1 & MI & MS).
  apply pre_ident_lang in MI as (i & -> & I).
  destruct (star_ident_lang MS eq_refl) as (ids & F & ->).
  exists i, ids. now rewrite app_nil_r.
Qed.

Lemma is_ident_no_dot w :
  is_ident w = true -> forallb (fun c => negb (is_chr "." c)) w = true.
Proof.
  unfold is_ident. intros H. apply andb_prop in H as [H _].
  revert H. apply forallb_weaken. intros c. by_char c.
Qed.

Lemma is_ident_not_nil w : is_ident w = true -> w <> [].
Proof. intros H ->. discriminate H. Qed.

Lemma split_dot_no_dot (i : str) :
  forallb (fun c => negb (is_chr "." c)) i = true -> split_dot i = [i].
Proof.
  induction i as [|c i IH]; simpl; [reflexivity|].
  intros H. apply andb_prop in H as [Hc Hi].
  apply negb_true_iff in Hc. now rewrite Hc, (IH Hi).
Qed.

Lemma split_dot_app_dot (i rest : str) :
  forallb (fun c => negb (is_chr "." c)) i = true ->
  split_dot (i ++ "." :: rest) = i :: split_dot rest.
Proof.
  induction i as [|c i IH]; simpl; [reflexivity|].
  intros H. apply andb_prop in H as [Hc Hi].
  apply negb_true_iff in Hc. now rewrite Hc, (IH Hi).
Qed.

Lemma split_dot_join ids : forall i,
  Forall (fun i => is_ident i = true) (i :: ids) ->
  split_dot (i ++ dotted ids) = i :: ids.
Proof.
  induction ids as [|j ids IH]; intros i F.
  - unfold dotted. simpl. rewrite app_nil_r. apply split_dot_no_dot.
    apply is_ident_no_dot. now inversion F.
  - inversion F as [|? ? Fi F']. subst.
    change (dotted (j :: ids)) with ("." :: j ++ dotted ids).
    rewrite split_dot_app_dot by now apply is_ident_no_dot.
    now rewrite IH.
Qed.

Lemma all_digits_Mat (w : str) :
  w <> [] -> forallb is_digit w = true ->
  Mat VersionInfo.all_digits_re w [] [] [].
Proof.
  intros NE D. destruct w as [|c w]; [contradiction|].
  simpl in D. apply andb_prop in D as [Dc Dw].
  eapply MSeq; [|apply MEol; now left].
  eapply MSeq; [now apply MCls|].
  rewrite <- (app_nil_r w) at 1. now apply Star_cls.
Qed.

Lemma all_digits_inv (w s' : str) g :
  Mat VersionInfo.all_digits_re w [] s' g ->
  forallb is_alnum_hyphen w = true -> forallb is_digit w = true.
Proof.
  intros M A. apply Seq_inv in M as (s1 & g1 & MP & ME).
  apply Eol_inv in ME as (E & _ & _).
  destruct (Mat_within is_digit MP (conj (fun c H => H) (fun c H => H)))
    as (ds & -> & D).
  destruct E as [-> | ->].
  - now rewrite app_nil_r.
  - rewrite forallb_app in A. apply andb_prop in A as [_ A].
    discriminate A.
Qed.

(** The tag of an identifier keeps the identifier. *)
Lemma untag_to_tag w : is_ident w = true -> untag (VersionInfo.to_tag w) = w.
Proof.
  unfold is_ident. intros H. apply andb_prop in H as [A H].
  unfold VersionInfo.to_tag.
  destruct (forallb is_digit w) eqn:D.
  - destruct (dec_py_int w H) as (n & -> & E).
    destruct (re_match VersionInfo.all_digits_re w) eqn:R; [exact E|].
    exfalso. revert R. apply (@re_match_complete _ _ [] []).
    apply all_digits_Mat; [|exact D]. intros ->. discriminate H.
  - destruct (re_match VersionInfo.all_digits_re w) eqn:R; [|reflexivity].
    apply re_match_sound in R as [s' M].
    apply all_digits_inv in M; [|exact A]. congruence.
Qed.

Lemma length_dotted_cons (j : str) ids :
  List.length (dotted (j :: ids)) =
  S (List.length j + List.length (dotted ids)).
Proof.
  unfold dotted. simpl. now rewrite length_app.
Qed.

(** ** Predicates *)

Lemma Lit_inv l : forall s g s' g',
  Mat (Lit l) s g s' g' -> s = l ++ s' /\ g' = g.
Proof.
  induction l as [|c l IH]; intros s g s' g' M.
  - apply Eps_inv in M as [-> ->]. auto.
  - destruct l as [|d l].
    + apply Chr_inv in M as [-> ->]. auto.
    + change (Lit (c :: d :: l)) with (Seq (Chr c) (Lit (d :: l))) in M.
      apply Seq_inv in M as (s1 & g1 & MC & M).
      apply Chr_inv in MC as [-> ->].
      apply IH in M as [-> ->]. auto.
Qed.

Ltac this_token M l :=
  apply (Lit_inv (lit l)) in M as [-> ->]; exists (lit l);
  split; [reflexivity | split; [reflexivity | simpl; tauto]].

(** The groups of a match of the predicate pattern. *)
Lemma predicate_re_groups s s' g :
  Mat VersionPredicate.predicate_re s [] s' g ->
  exists op w, g = [("2"%string, w); ("1"%string, op)] /\
               In op (map lit ["!="; "<="; ">="; "<"; ">"; "=="; "="]%string).
Proof.
  intros M. apply Seq_inv in M as (s1 & g1 & M1 & M).
  apply Grp_inv in M1 as (g0 & M1 & ->).
  apply Seq_inv in M as (s2 & g2 & MS & M2).
  destruct (Mat_plain MS eq_refl) as [-> _].
  apply Grp_inv in M2 as (g3 & M2 & ->).
  destruct (Mat_plain M2 eq_refl) as [-> _].
  assert (T : exists op, s = op ++ s1 /\ g0 = [] /\
              In op (map lit ["!="; "<="; ">="; "<"; ">"; "=="; "="]%string)).
  { repeat (apply Alt_inv in M1 as [M1 | M1];
            [first [ this_token M1 "!="%string | this_token M1 "<="%string
                   | this_token M1 ">="%string | this_token M1 "<"%string
                   | this_token M1 ">"%string | this_token M1 "=="%string ]|]).
    this_token M1 "="%string. }
  destruct T as (op & -> & -> & I).
  rewrite firstn_matched. now eexists op, _.
Qed.

Lemma from_str_Ok s p :
  VersionPredicate.from_str s = Ok p ->
  exists op v,
    In op operators /\
    p = VersionPredicate.Build op
          (VersionInfo.__str__ (SemanticVersion.version_info v))
          (SemanticVersion.version_format v) /\
    wf (SemanticVersion.version_info v) /\
    exists t, SemanticVersion.parse t = Ok v.
Proof.
  unfold VersionPredicate.from_str.
  destruct (re_match _ _) as [g|] eqn:E; [|discriminate].
  apply re_match_sound in E as [s' M].
  apply predicate_re_groups in M as (op & w & -> & I). simpl.
  destruct (SemanticVersion.parse w) as [v|[]] eqn:P; try discriminate.
  intros H. injection H as <-.
  eexists _, v. split; [|split; [reflexivity|split]].
  - simpl in I. unfold operators. simpl.
    destruct I as [<- | [<- | [<- | [<- | [<- | [<- | [<- | []]]]]]]];
      simpl; tauto.
  - now apply parse_wf_version in P.
  - now exists w.
Qed.

Lemma digit_not_equals c : is_digit c = true -> Ascii.eqb c "=" = false.
Proof. by_char c. Qed.

(** [match] on an operator followed by the text of a version compares
    with that version. *)
Lemma match_text self op vi :
  In op operators -> wf vi ->
  VersionInfo.match_ self (op ++ VersionInfo.__str__ vi) =
  Ok (VersionInfo.mem_Z (VersionInfo.compare self vi)
        (VersionInfo.possibilities_dict op)).
Proof.
  intros I W.
  assert (P : VersionInfo.compare_str self (VersionInfo.__str__ vi) =
              Ok (VersionInfo.compare self vi)).
  { unfold VersionInfo.compare_str. now rewrite parse_str. }
  destruct (version_text_head (VersionInfo.major vi) (VersionInfo.minor vi)
              (VersionInfo.patch vi) (VersionInfo.prerelease vi)
              (VersionInfo.build vi)) as (c & t & E & D).
  rewrite <- (str_text W) in E.
  unfold VersionInfo.match_. unfold operators in I. simpl in I.
  destruct I as [<- | [<- | [<- | [<- | [<- | [<- | []]]]]]];
    rewrite E in *; cbn -[VersionInfo.compare_str VersionInfo.compare];
    rewrite ?(digit_not_equals c D);
    cbn -[VersionInfo.compare_str VersionInfo.compare];
    rewrite P; reflexivity.
Qed.

(** The comparison method that an operator names gives what [match]
    computes from the sign of [compare]. *)
Lemma operator_call op self stored :
  In op operators ->
  exists symbol,
    VersionPredicate.lookup op VersionPredicate.operator_map = Some symbol /\
    call (lit symbol) self stored =
    Some (VersionInfo.mem_Z
            (VersionInfo.compare (SemanticVersion.version_info self)
               (SemanticVersion.version_info stored))
            (VersionInfo.possibilities_dict op)).
Proof.
  intros I. unfold operators in I. simpl in I.
  pose proof (compare_sign (SemanticVersion.version_info self)
                (SemanticVersion.version_info stored)) as S.
  destruct I as [<- | [<- | [<- | [<- | [<- | [<- | []]]]]]];
    eexists; (split; [reflexivity|]);
    unfold call; simpl;
    unfold SemanticVersion.__lt__, SemanticVersion.__le__,
      SemanticVersion.__gt__, SemanticVersion.__ge__, SemanticVersion.__ne__,
      SemanticVersion.eq, SemanticVersion.__lt__, VersionInfo.__lt__,
      VersionInfo.__eq__;
    destruct S as [-> | [-> | ->]]; reflexivity.
Qed.

Lemma str_without_build v :
  wf v ->
  VersionInfo.__str__ v =
  VersionInfo.__str__ (without_build v) ++ build_suffix (VersionInfo.build v).
Proof.
  intros W.
  assert (W' : wf (without_build v)) by (destruct W; now split).
  rewrite (str_text W), (str_text W'). unfold version_text. simpl.
  rewrite app_nil_r. repeat (rewrite <- app_assoc; simpl). reflexivity.
Qed.

(** ** The greedy loop on a character class *)

(** When the continuation fails wherever the loop can get to, the loop
    hands over where it stands. *)
Lemma star_loop_deeper_fail A p body (k : str -> groups -> option A) g :
  (forall s g k, body s g k = run (A:=A) (Cls p) s g k) ->
  forall n s,
    (forall u v, s = u ++ v -> u <> [] -> forallb p u = true ->
                 k v g = None) ->
    star_loop body k n s g = k s g.
Proof.
  intros B. induction n as [|n IH]; intros s H; [reflexivity|].
  cbn [star_loop]. rewrite B. cbn [run].
  destruct s as [|c s]; [reflexivity|].
  destruct (p c) eqn:Pc; [|reflexivity].
  assert (L : (List.length s <? List.length (c :: s))%nat = true).
  { apply Nat.ltb_lt. simpl. lia. }
  rewrite L, IH.
  - rewrite (H [c] s); [reflexivity | reflexivity | discriminate |].
    simpl. now rewrite Pc.
  - intros u v -> U F. apply (H (c :: u) v); [reflexivity | discriminate |].
    simpl. now rewrite Pc.
Qed.

(** The loop is greedy: it hands over at the last place where the
    continuation succeeds. *)
Lemma star_loop_last A p body (k : str -> groups -> option A) g x rest :
  (forall s g k, body s g k = run (A:=A) (Cls p) s g k) ->
  k rest g = Some x ->
  (forall u v, rest = u ++ v -> u <> [] -> forallb p u = true ->
               k v g = None) ->
  forall w n, forallb p w = true -> (List.length w <= n)%nat ->
  star_loop body k n (w ++ rest) g = Some x.
Proof.
  intros B K H. induction w as [|c w IH]; intros n F Hn.
  - cbn [app]. now rewrite (@star_loop_deeper_fail _ p body k g B n rest H).
  - destruct n as [|n]; [simpl in Hn; lia|].
    simpl in F. apply andb_prop in F as [Pc F].
    cbn [star_loop app]. rewrite B. cbn [run]. rewrite Pc.
    assert (L : (List.length (w ++ rest) <?
                 List.length (c :: w ++ rest))%nat = true).
    { apply Nat.ltb_lt. simpl. lia. }
    rewrite L, IH; [reflexivity | assumption | simpl in Hn; lia].
Qed.

(** A loop followed by a continuation that takes what is left takes a
    whole run of characters of the class. *)
Lemma star_loop_all A p (k : str -> groups -> option A) g x w rest :
  forallb p w = true -> headok (fun c => negb (p c)) rest = true ->
  k rest g = Some x ->
  run (Star (Cls p)) (w ++ rest) g k = Some x.
Proof.
  intros F H K. cbn [run]. apply (@star_loop_last _ p); trivial.
  - intros u v -> U Fu. destruct u as [|c u]; [contradiction|].
    simpl in H, Fu. apply andb_prop in Fu as [Pc _].
    rewrite Pc in H. discriminate H.
  - rewrite length_app. lia.
Qed.

(** The second group of the prefix and predicate patterns, [.] repeated,
    takes a whole line. *)
Lemma rest_group s g :
  forallb is_not_newline s = true ->
  run (Grp "2" (Star (Cls is_not_newline))) s g (fun _ g => Some g) =
  Some (("2"%string, s) :: g).
Proof.
  intros F.
  pose proof (@star_loop_all _ is_not_newline
                (fun s' g' =>
                   Some (("2"%string,
                          firstn (List.length s - List.length s') s) :: g'))
                g (("2"%string, s) :: g) s [] F eq_refl) as E.
  rewrite app_nil_r in E. apply E.
  simpl. now rewrite Nat.sub_0_r, firstn_all.
Qed.

(** ** The matcher, one construct at a time *)

Lemma run_Alt A a b s g (k : str -> groups -> option A) :
  run (Alt a b) s g k =
  match run a s g k with Some x => Some x | None => run b s g k end.
Proof. reflexivity. Qed.

Lemma run_Seq A a b s g (k : str -> groups -> option A) :
  run (Seq a b) s g k = run a s g (fun s' g' => run b s' g' k).
Proof. reflexivity. Qed.

Lemma run_Grp A name a s g (k : str -> groups -> option A) :
  run (Grp name a) s g k =
  run a s g (fun s' g' =>
    k s' ((name, firstn (List.length s - List.length s') s) :: g')).
Proof. reflexivity. Qed.

Lemma run_Chr A x c s g (k : str -> groups -> option A) :
  run (Chr x) (c :: s) g k = if Ascii.eqb c x then k s g else None.
Proof. reflexivity. Qed.

(** ** Whitespace *)

Lemma lstrip_spaces ws s :
  forallb is_space ws = true -> lstrip (ws ++ s) = lstrip s.
Proof.
  induction ws as [|c ws IH]; simpl; [reflexivity|].
  intros H. apply andb_prop in H as [-> H]. auto.
Qed.

Lemma lstrip_head s : headok not_space s = true -> lstrip s = s.
Proof.
  destruct s as [|c s]; simpl; [reflexivity|].
  unfold not_space. now destruct (is_space c).
Qed.

(** What [lstrip] removes and what it leaves. *)
Lemma lstrip_split s :
  exists ws, s = ws ++ lstrip s /\ forallb is_space ws = true /\
             headok not_space (lstrip s) = true.
Proof.
  induction s as [|c s (ws & E & F & H)]; [now exists []|].
  simpl. destruct (is_space c) eqn:Sc.
  - exists (c :: ws). simpl. rewrite Sc, F. now rewrite <- E.
  - exists []. simpl. unfold not_space. now rewrite Sc.
Qed.

Lemma lstrip_app_keep a b :
  b <> [] -> headok not_space b = true -> lstrip (a ++ b) = lstrip a ++ b.
Proof.
  intros NE H. induction a as [|c a IH]; simpl.
  - now apply lstrip_head.
  - now destruct (is_space c).
Qed.

Lemma lstrip_app_spaces s ws :
  forallb is_space ws = true ->
  lstrip (s ++ ws) = lstrip s ++ ws \/
  (lstrip s = [] /\ lstrip (s ++ ws) = []).
Proof.
  intros F. induction s as [|c s IH]; simpl.
  - right. split; [reflexivity|].
    rewrite <- (app_nil_r ws). now rewrite lstrip_spaces.
  - destruct (is_space c); [exact IH | now left].
Qed.

Lemma forallb_rev (p : ascii -> bool) (s : str) :
  forallb p s = true -> forallb p (rev s) = true.
Proof.
  intros H. apply forallb_forall. intros c I. apply in_rev in I.
  now apply (proj1 (forallb_forall _ _) H).
Qed.

Lemma strip_rstrip s : strip s = rstrip (lstrip s).
Proof. reflexivity. Qed.

(** [rstrip] leaves a prefix and removes whitespace. *)
Lemma rstrip_split s :
  exists ws, s = rstrip s ++ ws /\ forallb is_space ws = true /\
             headok not_space (rev (rstrip s)) = true.
Proof.
  destruct (lstrip_split (rev s)) as (ws & E & F & H).
  exists (rev ws). unfold rstrip. rewrite rev_involutive.
  split; [|split; [now apply forallb_rev | exact H]].
  rewrite <- rev_app_distr, <- E. symmetry. apply rev_involutive.
Qed.

Lemma rstrip_app_spaces s ws :
  forallb is_space ws = true -> rstrip (s ++ ws) = rstrip s.
Proof.
  intros F. unfold rstrip. rewrite rev_app_distr.
  now rewrite lstrip_spaces by now apply forallb_rev.
Qed.

(** Whitespace in front of a text is gone once both ends are stripped. *)
Lemma lstrip_rstrip_spaces ws t :
  forallb is_space ws = true ->
  lstrip (rstrip (ws ++ t)) = lstrip (rstrip t).
Proof.
  intros F. unfold rstrip at 1. rewrite rev_app_distr.
  destruct (@lstrip_app_spaces (rev t) (rev ws) (@forallb_rev _ _ F))
    as [-> | [E ->]].
  - rewrite rev_app_distr, rev_involutive. now apply lstrip_spaces.
  - unfold rstrip. now rewrite E.
Qed.

(** Whitespace around a text does not change what [strip] returns. *)
Lemma strip_pad ws1 s ws2 :
  forallb is_space ws1 = true -> forallb is_space ws2 = true ->
  strip (ws1 ++ s ++ ws2) = strip s.
Proof.
  intros F1 F2. rewrite !strip_rstrip, lstrip_spaces by exact F1.
  destruct (@lstrip_app_spaces s ws2 F2) as [-> | [E ->]].
  - now apply rstrip_app_spaces.
  - now rewrite E.
Qed.

(** [strip] keeps a word without whitespace at its ends, and strips the
    right end of what follows it. *)
Lemma strip_word op Y :
  op <> [] -> headok not_space op = true ->
  headok not_space (rev op) = true ->
  strip (op ++ Y) = op ++ rstrip Y.
Proof.
  intros NE H1 H2. rewrite strip_rstrip.
  rewrite lstrip_head by (destruct op; [contradiction | exact H1]).
  unfold rstrip. rewrite rev_app_distr, lstrip_app_keep; trivial.
  - now rewrite rev_app_distr, rev_involutive.
  - intros E. apply (f_equal (@rev ascii)) in E.
    rewrite rev_involutive in E. contradiction.
Qed.

Lemma token_word op :
  In op tokens ->
  op <> [] /\ headok not_space op = true /\
  headok not_space (rev op) = true.
Proof.
  unfold tokens. simpl.
  intros [<- | [<- | [<- | [<- | [<- | [<- | [<- | []]]]]]]];
    (split; [discriminate | split; reflexivity]).
Qed.

Lemma startswith_prefix q s t :
  startswith q s = true -> startswith q (s ++ t) = true.
Proof.
  revert s. induction q as [|x q IH]; intros [|y s] E; simpl in *;
    try discriminate; try reflexivity.
  apply andb_prop in E as [-> E]. simpl. now apply IH.
Qed.

(** ** The first line *)

Lemma line_split s :
  exists rest, s = line s ++ rest /\
               forallb is_not_newline (line s) = true /\
               headok (fun c => negb (is_not_newline c)) rest = true.
Proof.
  induction s as [|c s (rest & E & F & H)]; [now exists []|].
  simpl. destruct (is_not_newline c) eqn:N.
  - exists rest. simpl. rewrite N, F. now rewrite <- E.
  - exists (c :: s). simpl. now rewrite N.
Qed.

Lemma line_all s : forallb is_not_newline s = true -> line s = s.
Proof.
  induction s as [|c s IH]; simpl; [reflexivity|].
  intros H. apply andb_prop in H as [-> H]. now rewrite IH.
Qed.

(** ** What the pattern of [from_str] reads *)

(** The rest of the pattern skips whitespace and takes one line. *)
Lemma version_group Y g :
  run (Seq (Star (Cls is_space)) (Grp "2" (Star (Cls is_not_newline))))
    Y g (fun _ g => Some g) =
  Some (("2"%string, line (lstrip Y)) :: g).
Proof.
  destruct (lstrip_split Y) as (ws & E & F & H).
  remember (lstrip Y) as L eqn:HL.
  destruct (line_split L) as (rest & EL & FL & HR).
  remember (line L) as l eqn:Hl. clear HL Hl. subst Y L.
  rewrite run_Seq. apply star_loop_all; trivial.
  rewrite run_Grp. apply star_loop_all; trivial.
  now rewrite firstn_matched.
Qed.

Lemma skipn_length_app (p r : str) : skipn (List.length p) (p ++ r) = r.
Proof. induction p as [|c p IH]; simpl; auto. Qed.

(** A literal text is read when the input starts with it. *)
Lemma run_Lit A l : forall s g (k : str -> groups -> option A),
  run (Lit l) s g k =
  if startswith l s then k (skipn (List.length l) s) g else None.
Proof.
  induction l as [|c l IH]; intros s g k; [reflexivity|].
  destruct l as [|d l].
  - destruct s as [|x s]; [reflexivity|].
    cbn [Lit startswith List.length skipn]. rewrite run_Chr.
    rewrite andb_true_r, (Ascii.eqb_sym c x). reflexivity.
  - change (Lit (c :: d :: l)) with (Seq (Chr c) (Lit (d :: l))).
    rewrite run_Seq. destruct s as [|x s]; [reflexivity|].
    rewrite run_Chr, IH.
    change (startswith (c :: d :: l) (x :: s))
      with (Ascii.eqb c x && startswith (d :: l) s).
    rewrite (Ascii.eqb_sym c x).
    destruct (Ascii.eqb x c); reflexivity.
Qed.

Lemma read_first_split ts s op rest :
  read_first ts s = Some (op, rest) -> In op ts /\ s = op ++ rest.
Proof.
  induction ts as [|t ts IH]; [discriminate|].
  cbn [read_first]. destruct (startswith t s) eqn:E.
  - intros H. injection H as <- <-. split; [now left|].
    apply startswith_app in E as [r ->]. now rewrite skipn_length_app.
  - intros H. apply IH in H as [I ->]. split; [now right | reflexivity].
Qed.

Lemma read_operator_split s op rest :
  read_operator s = Some (op, rest) -> In op tokens /\ s = op ++ rest.
Proof. apply read_first_split. Qed.

(** The first group of the pattern of [from_str] reads what
    [read_operator] reads, when what follows cannot fail. *)
Lemma operator_read A S g (k : str -> groups -> option A) :
  (forall R, k R g <> None) ->
  run (Alt (Lit (lit "!=")) (Alt (Lit (lit "<=")) (Alt (Lit (lit ">="))
      (Alt (Chr "<") (Alt (Chr ">") (Alt (Lit (lit "==")) (Chr "=")))))))
    S g k =
  match read_operator S with
  | Some (op, R) => k R g
  | None => None
  end.
Proof.
  intros T.
  change (Chr "<") with (Lit (lit "<")).
  change (Chr ">") with (Lit (lit ">")).
  change (Chr "=") with (Lit (lit "=")).
  unfold read_operator, tokens. cbn [map read_first].
  rewrite !run_Alt, !run_Lit.
  repeat match goal with
         | |- context [startswith ?t S] =>
             destruct (startswith t S);
             [match goal with
              | |- context [k ?R g] =>
                  specialize (T R); destruct (k R g); [reflexivity | tauto]
              end|]
         end.
  reflexivity.
Qed.

(** The pattern of [from_str] on any text: the operator that
    [read_operator] reads, then the first line of what follows, without
    the whitespace in front of it. *)
Lemma predicate_re_read S :
  re_match VersionPredicate.predicate_re S =
  match read_operator S with
  | Some (op, rest) =>
      Some [("2"%string, line (lstrip rest)); ("1"%string, op)]
  | None => None
  end.
Proof.
  unfold re_match, VersionPredicate.predicate_re.
  rewrite run_Seq, run_Grp, operator_read.
  - destruct (read_operator S) as [[op rest]|] eqn:E; [|reflexivity].
    apply read_operator_split in E as [_ ->].
    rewrite firstn_matched. apply version_group.
  - intros R. now rewrite version_group.
Qed.

(** A predicate that [from_str] returns, from the text it was given. *)
Lemma from_str_read s p :
  VersionPredicate.from_str s = Ok p ->
  exists op rest v,
    read_operator (strip s) = Some (op, rest) /\
    SemanticVersion.parse (line (lstrip rest)) = Ok v /\
    p = VersionPredicate.Build
          (if str_eqb op (lit "=") then lit "==" else op)
          (VersionInfo.__str__ (SemanticVersion.version_info v))
          (SemanticVersion.version_format v).
Proof.
  unfold VersionPredicate.from_str. cbv zeta. rewrite predicate_re_read.
  destruct (read_operator (strip s)) as [[op rest]|]; [|discriminate].
  cbn [group String.eqb Ascii.eqb Bool.eqb VersionInfo.or_empty].
  destruct (SemanticVersion.parse (line (lstrip rest))) as [v|[]] eqn:P;
    try discriminate.
  intros H. injection H as <-. exists op, rest, v. repeat split.
  exact P.
Qed.

(** * The claims *)

(** ** Matching a predicate *)

(** C1, as the specification states it, fails: the predicate built from
    [>=1.0.0a1] stores the version [1.0.0-alpha.1], and the version parsed
    from [1.0.0] matches it, since a final release is above its own
    prereleases. *)
Lemma C1_final_release_matches_prerelease_bound :
  exists p v,
    VersionPredicate.from_str (lit ">=1.0.0a1") = Ok p /\
    VersionPredicate.version p = lit "1.0.0-alpha.1" /\
    SemanticVersion.parse (lit "1.0.0") = Ok v /\
    matches_predicate v p = Ok true /\
    matches_predicate v p <> Ok false.
Proof.
  eexists. eexists.
  split; [vm_compute; reflexivity|].
  split; [reflexivity|].
  split; [vm_compute; reflexivity|].
  split; [vm_compute; reflexivity | discriminate].
Qed.

(** C1, amended: for every predicate [p] that [from_str] returns, the
    stored version parses again to a version [stored], the operator names
    one of the six comparison methods, and matching any candidate [v]
    against [p] returns what that method returns on [v] and [stored]:
    [matches] applies the operator as the comparison of the two versions. *)
Theorem C1_matches_applies_operator (s : str) (p : VersionPredicate.t) :
  VersionPredicate.from_str s = Ok p ->
  exists stored symbol,
    VersionPredicate.semver p = Ok stored /\
    VersionPredicate.operator_to_symbol p = Ok symbol /\
    forall v, exists b,
      call symbol v stored = Some b /\ matches_predicate v p = Ok b.
Proof.
  intros H. apply from_str_Ok in H as (op & sv & I & -> & W & _).
  set (vi := SemanticVersion.version_info sv) in *.
  exists (SemanticVersion.Build vi (VersionInfo.__str__ vi) [] SEMVER).
  destruct (operator_call
              (SemanticVersion.Build vi (VersionInfo.__str__ vi) [] SEMVER)
              (SemanticVersion.Build vi (VersionInfo.__str__ vi) [] SEMVER) I)
    as (symbol & L & _).
  exists (lit symbol). split; [|split].
  - unfold VersionPredicate.semver. simpl. now apply parse_text.
  - unfold VersionPredicate.operator_to_symbol.
    cbn [VersionPredicate.operator]. now rewrite L.
  - intros v.
    destruct (operator_call v
                (SemanticVersion.Build vi (VersionInfo.__str__ vi) [] SEMVER)
                I) as (symbol' & L' & C).
    assert (symbol' = symbol) as -> by congruence.
    eexists. split; [exact C|].
    unfold matches_predicate, VersionPredicate.__str__. simpl.
    now apply match_text.
Qed.

Lemma C1_matches_applies_operator_witness :
  exists stored symbol,
    VersionPredicate.semver
      (VersionPredicate.Build (lit ">=") (lit "1.0.0-alpha.1") PYPI)
    = Ok stored /\
    VersionPredicate.operator_to_symbol
      (VersionPredicate.Build (lit ">=") (lit "1.0.0-alpha.1") PYPI)
    = Ok symbol /\
    forall v, exists b,
      call symbol v stored = Some b /\
      matches_predicate v
        (VersionPredicate.Build (lit ">=") (lit "1.0.0-alpha.1") PYPI)
      = Ok b.
Proof.
  apply (@C1_matches_applies_operator (lit ">=1.0.0a1")).
  vm_compute. reflexivity.
Defined.

(** ** The RubyGems suffix *)

(** C2: the code rejects [4.25.14p12].  The semver decoder, the PEP 440
    decoder and the legacy fallback all refuse it, [VersionFormat] has no
    [RUBYGEMS] member, and [parse] raises [ValueError]. *)
Theorem C2_rubygems_suffix_rejected :
  SemanticVersion.parse (lit "4.25.14p12") =
  Raise (ValueError (lit "Invalid version: 4.25.14p12")).
Proof. vm_compute. reflexivity. Qed.

(** ** Round trip through [to_semver] *)

(** C3, as the specification states it, fails: [1.2.3.x] decodes as
    UNKNOWN, and its rendering [1.2.3-x] decodes as SEMVER. *)
Lemma C3_unknown_format_not_stable :
  exists v v',
    SemanticVersion.parse (lit "1.2.3.x") = Ok v /\
    SemanticVersion.version_format v = UNKNOWN /\
    SemanticVersion.to_semver v = lit "1.2.3-x" /\
    SemanticVersion.parse (SemanticVersion.to_semver v) = Ok v' /\
    SemanticVersion.version_format v' <> SemanticVersion.version_format v.
Proof.
  eexists. eexists.
  split; [vm_compute; reflexivity|].
  split; [reflexivity|].
  split; [vm_compute; reflexivity|].
  split; [vm_compute; reflexivity | discriminate].
Qed.

(** C3, amended: for every string [s] that [parse] accepts, whatever its
    format, parsing the [to_semver] rendering of the result succeeds with
    format SEMVER, no prefix and the same canonical model, which is equal
    to the first under the equality that ignores the build.  The format is
    therefore kept when [s] decoded as SEMVER. *)
Theorem C3_reparse_of_rendering (s : str) (v : SemanticVersion.t) :
  SemanticVersion.parse s = Ok v ->
  exists v',
    SemanticVersion.parse (SemanticVersion.to_semver v) = Ok v' /\
    SemanticVersion.version_format v' = SEMVER /\
    SemanticVersion.version_info v' = SemanticVersion.version_info v /\
    SemanticVersion.eq v' v = true /\
    (SemanticVersion.version_format v = SEMVER ->
     SemanticVersion.version_format v' = SemanticVersion.version_format v).
Proof.
  intros H. apply parse_wf_version in H as W.
  eexists. split; [now apply parse_text|].
  split; [reflexivity|]. split; [reflexivity|]. split.
  - unfold SemanticVersion.eq, VersionInfo.__eq__. simpl.
    now rewrite compare_refl.
  - intros ->. reflexivity.
Qed.

Lemma C3_reparse_of_rendering_witness :
  exists v',
    SemanticVersion.parse (lit "1.0.0-alpha.1+dev.1") = Ok v' /\
    SemanticVersion.version_format v' = SEMVER /\
    SemanticVersion.version_info v' =
      VersionInfo.Build 1 0 0 (Some (lit "alpha.1")) (Some (lit "dev.1")) /\
    SemanticVersion.eq v'
      (SemanticVersion.Build
         (VersionInfo.Build 1 0 0 (Some (lit "alpha.1")) (Some (lit "dev.1")))
         (lit "1.0.0a1.dev1") [] PYPI) = true /\
    (PYPI = SEMVER -> SemanticVersion.version_format v' = PYPI).
Proof.
  apply (@C3_reparse_of_rendering (lit "1.0.0a1.dev1")
           (SemanticVersion.Build
              (VersionInfo.Build 1 0 0 (Some (lit "alpha.1"))
                 (Some (lit "dev.1")))
              (lit "1.0.0a1.dev1") [] PYPI)).
  vm_compute. reflexivity.
Defined.

(** ** PEP 440 development and post releases *)

Lemma parse_raises_ValueError s o e :
  VersionInfo.parse s o = Raise e -> exists m, e = ValueError m.
Proof.
  unfold VersionInfo.parse, VersionInfo.int_part_or_0, VersionInfo.int_part.
  destruct (re_match _ s) as [g|]; [|intros H; injection H as <-; eauto].
  destruct (group "major" g) as [z|]; simpl;
    [destruct (py_int z); simpl|]; try (intros H; injection H as <-; eauto).
  destruct (group "minor" g) as [[|c x]|]; simpl;
    try destruct (py_int (c :: x)); simpl;
    try (intros H; injection H as <-; eauto);
    destruct (group "patch" g) as [[|d y]|]; simpl;
    try destruct (py_int (d :: y)); simpl;
    try discriminate; intros H; injection H as <-; eauto.
Qed.




(** ** The prefix *)

(** What [parse] does with a prefix that its pattern finds: the prefix
    starts the input, [installable_version] is the input without it, and
    [str] puts it back before the canonical text. *)
Lemma parse_prefix_reapplied (s : str) (v : SemanticVersion.t) :
  SemanticVersion.parse s = Ok v ->
  SemanticVersion.prefix v = fst (split_prefix s) /\
  SemanticVersion.installable_version v =
    skipn (List.length (SemanticVersion.prefix v)) s /\
  SemanticVersion.__str__ v =
    SemanticVersion.prefix v ++ SemanticVersion.to_semver v.
Proof.
  intros H. destruct (parse_envelope _ H) as [EO EP].
  split; [exact EP|]. split.
  - unfold SemanticVersion.installable_version. rewrite EO.
    destruct s; [discriminate H | reflexivity].
  - unfold SemanticVersion.__str__, SemanticVersion.to_semver.
    now destruct (SemanticVersion.prefix v).
Qed.

(** C5: the code does not strip a prefix that ends in [@V].  In the
    pattern the alternation separates [(?:.+@)?v] from [V], so that a
    capital [V] counts only as the first character: [pkg@V1.0.0] keeps its
    whole text and no decoder accepts it, while [pkg@v1.0.0], [v1.0.0] and
    [V1.0.0] are decoded with the prefixes [pkg@v], [v] and [V]. *)
Theorem C5_at_capital_V_prefix_not_stripped :
  split_prefix (lit "pkg@V1.0.0") = ([], lit "pkg@V1.0.0") /\
  SemanticVersion.parse (lit "pkg@V1.0.0") =
    Raise (ValueError (lit "Invalid version: pkg@V1.0.0")) /\
  SemanticVersion.parse (lit "pkg@v1.0.0") =
    Ok (SemanticVersion.Build (VersionInfo.Build 1 0 0 None None)
          (lit "pkg@v1.0.0") (lit "pkg@v") SEMVER) /\
  SemanticVersion.parse (lit "V1.0.0") =
    Ok (SemanticVersion.Build (VersionInfo.Build 1 0 0 None None)
          (lit "V1.0.0") (lit "V") SEMVER) /\
  SemanticVersion.parse (lit "v1.0.0") =
    Ok (SemanticVersion.Build (VersionInfo.Build 1 0 0 None None)
          (lit "v1.0.0") (lit "v") SEMVER) /\
  SemanticVersion.installable_version
    (SemanticVersion.Build (VersionInfo.Build 1 0 0 None None)
       (lit "v1.0.0") (lit "v") SEMVER) = lit "1.0.0" /\
  SemanticVersion.__str__
    (SemanticVersion.Build (VersionInfo.Build 1 0 0 None None)
       (lit "v1.0.0") (lit "v") SEMVER) = lit "v1.0.0".
Proof.
  repeat split; vm_compute; reflexivity.
Qed.

(** ** The operator of a hand-built predicate *)

Lemma lookup_operator op :
  VersionPredicate.lookup op VersionPredicate.operator_map = None <->
  ~ In op operators.
Proof.
  unfold VersionPredicate.operator_map, operators. simpl.
  repeat match goal with
         | |- context [str_eqb op ?l] =>
             let E := fresh "E" in
             destruct (str_eqb op l) eqn:E;
             [apply str_eqb_eq in E; subst op; simpl;
              split; [discriminate | intros N; exfalso; apply N; tauto]|]
         end.
  split; [|reflexivity]. intros _ I.
  repeat (destruct I as [I | I];
          [subst op; rewrite str_eqb_refl in *; discriminate|]).
  exact I.
Qed.

(** C7: building a predicate by hand succeeds for any operator and keeps
    it as given, and rendering the predicate never looks at it; the
    operator is checked by [operator_to_symbol] alone, which raises
    [ValueError("Invalid operator: ...")] exactly when the operator is not
    one of the six, and returns a method name otherwise. *)
Theorem C7_operator_checked_lazily
    (op ver : str) (fmt : VersionFormat) :
  exists p,
    VersionPredicate.__init__ op ver fmt = Ok p /\
    VersionPredicate.operator p = op /\
    VersionPredicate.version p = ver /\
    VersionPredicate.__str__ p = op ++ ver /\
    (VersionPredicate.operator_to_symbol p =
       Raise (ValueError (lit "Invalid operator: " ++ op)) <->
     ~ In op operators) /\
    ((exists symbol, VersionPredicate.operator_to_symbol p = Ok symbol) <->
     In op operators).
Proof.
  eexists. split; [reflexivity|].
  split; [reflexivity|]. split; [reflexivity|]. split; [reflexivity|].
  unfold VersionPredicate.operator_to_symbol.
  cbn [VersionPredicate.operator].
  destruct (VersionPredicate.lookup op VersionPredicate.operator_map)
    as [symbol|] eqn:L.
  - assert (I : In op operators).
    { destruct (in_dec (list_eq_dec ascii_dec) op operators) as [I | N];
        [exact I|].
      apply lookup_operator in N. congruence. }
    split; split.
    + discriminate.
    + intros N. contradiction.
    + intros _. exact I.
    + intros _. now eexists.
  - apply lookup_operator in L. split; split.
    + intros _. exact L.
    + reflexivity.
    + intros [symbol H]. discriminate H.
    + intros I. contradiction.
Qed.

(** ** Equality with a value of another type *)

(** C8: [==] between a version and a value that is not a
    [SemanticVersion] raises [NotImplementedError]; it returns neither
    [False] nor [NotImplemented]. *)
Theorem C8_eq_raises_on_other_type
    (self : SemanticVersion.t) (other : SemanticVersion.object) :
  (forall v, other <> SemanticVersion.SemanticVersion_ v) ->
  SemanticVersion.__eq__ self other = Raise NotImplementedError /\
  (forall b, SemanticVersion.__eq__ self other <> Ok b).
Proof.
  intros N. destruct other as [v| | | |];
    try (split; [reflexivity | discriminate]).
  now destruct (N v).
Qed.

Lemma C8_eq_raises_on_other_type_witness :
  SemanticVersion.__eq__
    (SemanticVersion.Build (VersionInfo.Build 1 0 0 None None)
       (lit "1.0.0") [] SEMVER)
    (SemanticVersion.str_ (lit "1.0.0")) = Raise NotImplementedError /\
  (forall b,
      SemanticVersion.__eq__
        (SemanticVersion.Build (VersionInfo.Build 1 0 0 None None)
           (lit "1.0.0") [] SEMVER)
        (SemanticVersion.str_ (lit "1.0.0")) <> Ok b).
Proof.
  apply (@C8_eq_raises_on_other_type
           (SemanticVersion.Build (VersionInfo.Build 1 0 0 None None)
              (lit "1.0.0") [] SEMVER)
           (SemanticVersion.str_ (lit "1.0.0"))).
  intros v. discriminate.
Defined.

(** ** Predicates built by [from_str] *)

(** C9: the version that [from_str] stores is the canonical rendering of
    the version it parsed from its text.  The text is what follows the
    operator that the pattern reads in the stripped input: its first line,
    without the whitespace in front.  [parse] accepts that text, the
    stored version is the rendering of the result and the stored format
    is its format; the stored version parses again, to the same version
    parts and the same rendering; and [semver], [to_pypi_predicate] and
    [to_semver_predicate] all return on such a predicate. *)
Theorem C9_from_str_version_reparses (s : str) (p : VersionPredicate.t) :
  VersionPredicate.from_str s = Ok p ->
  (exists op rest v,
      read_operator (strip s) = Some (op, rest) /\
      SemanticVersion.parse (line (lstrip rest)) = Ok v /\
      VersionPredicate.operator p =
        (if str_eqb op (lit "=") then lit "==" else op) /\
      VersionPredicate.version p = SemanticVersion.to_semver v /\
      VersionPredicate.version_format p =
        SemanticVersion.version_format v /\
      exists sv,
        VersionPredicate.semver p = Ok sv /\
        SemanticVersion.version_info sv = SemanticVersion.version_info v /\
        SemanticVersion.to_semver sv = VersionPredicate.version p) /\
  (exists r, VersionPredicate.to_pypi_predicate p = Ok r) /\
  (exists r,
      VersionPredicate.to_semver_predicate p = Ok r /\
      r = VersionPredicate.operator p ++ VersionPredicate.version p).
Proof.
  intros H. apply from_str_read in H as (op & rest & v & R & P & ->).
  pose proof (parse_wf_version _ P) as W.
  set (o := if str_eqb op (lit "=") then lit "==" else op).
  assert (S : VersionPredicate.semver
                (VersionPredicate.Build o
                   (VersionInfo.__str__ (SemanticVersion.version_info v))
                   (SemanticVersion.version_format v)) =
              Ok (SemanticVersion.Build (SemanticVersion.version_info v)
                    (VersionInfo.__str__ (SemanticVersion.version_info v))
                    [] SEMVER)).
  { unfold VersionPredicate.semver. simpl. now apply parse_text. }
  split; [|split].
  - exists op, rest, v. repeat split; try assumption.
    eexists. split; [exact S|]. split; reflexivity.
  - unfold VersionPredicate.to_pypi_predicate. rewrite S. simpl.
    destruct (to_pypi_total
                (SemanticVersion.Build (SemanticVersion.version_info v)
                   (VersionInfo.__str__ (SemanticVersion.version_info v))
                   [] SEMVER)) as [r ->].
    now eexists.
  - unfold VersionPredicate.to_semver_predicate. rewrite S. simpl.
    now eexists.
Qed.

Lemma C9_from_str_version_reparses_witness :
  (exists op rest v,
      read_operator (strip (lit " >= 1.0.0a1 ")) = Some (op, rest) /\
      SemanticVersion.parse (line (lstrip rest)) = Ok v /\
      lit ">=" = (if str_eqb op (lit "=") then lit "==" else op) /\
      lit "1.0.0-alpha.1" = SemanticVersion.to_semver v /\
      PYPI = SemanticVersion.version_format v /\
      exists sv,
        VersionPredicate.semver
          (VersionPredicate.Build (lit ">=") (lit "1.0.0-alpha.1") PYPI)
        = Ok sv /\
        SemanticVersion.version_info sv = SemanticVersion.version_info v /\
        SemanticVersion.to_semver sv = lit "1.0.0-alpha.1") /\
  (exists r,
      VersionPredicate.to_pypi_predicate
        (VersionPredicate.Build (lit ">=") (lit "1.0.0-alpha.1") PYPI)
      = Ok r) /\
  (exists r,
      VersionPredicate.to_semver_predicate
        (VersionPredicate.Build (lit ">=") (lit "1.0.0-alpha.1") PYPI)
      = Ok r /\
      r = lit ">=" ++ lit "1.0.0-alpha.1").
Proof.
  apply (@C9_from_str_version_reparses (lit " >= 1.0.0a1 ")
           (VersionPredicate.Build (lit ">=") (lit "1.0.0-alpha.1") PYPI)).
  vm_compute. reflexivity.
Defined.

(** ** [installable_version] *)

(** C10: with a non-empty [original_version], [installable_version] is
    that text without its first [len(prefix)] characters; with an empty
    one it is [str(self)], which starts with the prefix when there is
    one. *)
Theorem C10_installable_version (v : SemanticVersion.t) :
  (SemanticVersion.original_version v <> [] ->
   SemanticVersion.installable_version v =
   skipn (List.length (SemanticVersion.prefix v))
     (SemanticVersion.original_version v)) /\
  (SemanticVersion.original_version v = [] ->
   SemanticVersion.installable_version v = SemanticVersion.__str__ v /\
   (SemanticVersion.prefix v <> [] ->
    SemanticVersion.installable_version v =
    SemanticVersion.prefix v
    ++ VersionInfo.__str__ (SemanticVersion.version_info v))).
Proof.
  unfold SemanticVersion.installable_version, SemanticVersion.__str__.
  split.
  - destruct (SemanticVersion.original_version v); [contradiction|].
    reflexivity.
  - intros ->. split; [reflexivity|].
    destruct (SemanticVersion.prefix v); [contradiction | reflexivity].
Qed.

(** For instance, a version built by hand with the prefix [v] and no
    original text is installable as [v1.0.0], prefix included. *)
Lemma C10_installable_version_witness :
  SemanticVersion.installable_version
    (SemanticVersion.Build (VersionInfo.Build 1 0 0 None None) [] (lit "v")
       SEMVER) = lit "v1.0.0" /\
  SemanticVersion.installable_version
    (SemanticVersion.Build (VersionInfo.Build 1 0 0 None None)
       (lit "v1.0.0") (lit "v") SEMVER) = lit "1.0.0".
Proof.
  split.
  - apply (proj2 (proj2 (C10_installable_version
               (SemanticVersion.Build (VersionInfo.Build 1 0 0 None None)
                  [] (lit "v") SEMVER)) eq_refl)).
    discriminate.
  - apply (proj1 (C10_installable_version
               (SemanticVersion.Build (VersionInfo.Build 1 0 0 None None)
                  (lit "v1.0.0") (lit "v") SEMVER))).
    discriminate.
Defined.

(** * Further properties of the module *)

(** ** The prefix and the envelope *)

(** The prefix, the decoded text and what follows it make up the input. *)
Lemma split_prefix_spec s :
  exists tail, s = fst (split_prefix s) ++ snd (split_prefix s) ++ tail.
Proof.
  unfold split_prefix.
  destruct (re_match SemanticVersion.prefix_re s) as [g|] eqn:E.
  - apply re_match_sound in E as [s' M].
    apply Seq_inv in M as (s1 & g1 & M1 & M2).
    apply Grp_inv in M1 as (g0 & M1 & ->).
    apply Grp_inv in M2 as (g2 & M2 & ->).
    destruct (Mat_plain M2 eq_refl) as [-> _].
    destruct (Mat_suffix M1) as [w1 ->], (Mat_suffix M2) as [w2 ->].
    simpl. rewrite !firstn_matched. now exists s'.
  - exists []. simpl. now rewrite app_nil_r.
Qed.

(** X1: a parsed version keeps its input as [original_version]; the input
    is not empty; and the prefix followed by [installable_version] is the
    input again. *)
Theorem X1_prefix_and_installable_rebuild_input
    (s : str) (v : SemanticVersion.t) :
  SemanticVersion.parse s = Ok v ->
  SemanticVersion.original_version v = s /\
  s <> [] /\
  s = SemanticVersion.prefix v ++ SemanticVersion.installable_version v.
Proof.
  intros H. destruct (parse_envelope _ H) as [EO EP].
  destruct (parse_prefix_reapplied _ H) as (_ & EI & _).
  split; [exact EO|]. split.
  - intros ->. discriminate H.
  - rewrite EI, EP. destruct (split_prefix_spec s) as [tail E].
    remember (fst (split_prefix s)) as p.
    remember (snd (split_prefix s)) as r.
    pose proof (skipn_length_app p (r ++ tail)) as K.
    rewrite <- E in K. now rewrite K.
Qed.

Lemma X1_prefix_and_installable_rebuild_input_witness :
  lit "pkg@v1.0" = lit "pkg@v1.0" /\
  lit "pkg@v1.0" <> [] /\
  lit "pkg@v1.0" =
    lit "pkg@v" ++
    SemanticVersion.installable_version
      (SemanticVersion.Build (VersionInfo.Build 1 0 0 None None)
         (lit "pkg@v1.0") (lit "pkg@v") SEMVER).
Proof.
  apply (@X1_prefix_and_installable_rebuild_input (lit "pkg@v1.0")
           (SemanticVersion.Build (VersionInfo.Build 1 0 0 None None)
              (lit "pkg@v1.0") (lit "pkg@v") SEMVER)).
  vm_compute. reflexivity.
Defined.

(** ** The order of the decoders *)

Lemma _parse_semver_iff ver pfx orig :
  (exists x, SemanticVersion._parse_semver ver pfx orig = Ok x) <->
  (exists vi, VersionInfo.parse ver true = Ok vi).
Proof.
  unfold SemanticVersion._parse_semver.
  destruct (VersionInfo.parse ver true) as [vi|[]]; split;
    intros [x H]; try discriminate H; eauto.
Qed.

Lemma _parse_pypi_iff ver pfx orig :
  (exists x, SemanticVersion._parse_pypi ver pfx orig = Ok x) <->
  (exists pv, PyPIVersion.__init__ ver = Ok pv).
Proof.
  unfold SemanticVersion._parse_pypi.
  destruct (PyPIVersion.__init__ ver) as [pv|]; split;
    intros [x H]; try discriminate H; eauto.
Qed.

(** X2: the format of a parsed version names the first decoder, in the
    order semver, PEP 440, legacy, that accepts the text left after the
    prefix: SEMVER exactly when the semver pattern accepts it, PYPI exactly
    when semver rejects it and [packaging] accepts it, UNKNOWN exactly when
    both reject it. *)
Theorem X2_format_is_first_accepting_decoder
    (s : str) (v : SemanticVersion.t) :
  SemanticVersion.parse s = Ok v ->
  (SemanticVersion.version_format v = SEMVER <->
   exists vi, VersionInfo.parse (snd (split_prefix s)) true = Ok vi) /\
  (SemanticVersion.version_format v = PYPI <->
   (forall vi, VersionInfo.parse (snd (split_prefix s)) true <> Ok vi) /\
   exists pv, PyPIVersion.__init__ (snd (split_prefix s)) = Ok pv) /\
  (SemanticVersion.version_format v = UNKNOWN <->
   (forall vi, VersionInfo.parse (snd (split_prefix s)) true <> Ok vi) /\
   forall pv, PyPIVersion.__init__ (snd (split_prefix s)) <> Ok pv).
Proof.
  intros H. apply parse_Ok in H. simpl in H.
  set (ver := snd (split_prefix s)) in *.
  set (pfx := fst (split_prefix s)) in *.
  assert (NS : (forall x, SemanticVersion._parse_semver ver pfx s <> Ok x) ->
               forall vi, VersionInfo.parse ver true <> Ok vi).
  { intros N vi E.
    destruct (proj2 (_parse_semver_iff ver pfx s) (ex_intro _ vi E))
      as [x Hx]. now apply (N x). }
  assert (NP : (forall x, SemanticVersion._parse_pypi ver pfx s <> Ok x) ->
               forall pv, PyPIVersion.__init__ ver <> Ok pv).
  { intros N pv E.
    destruct (proj2 (_parse_pypi_iff ver pfx s) (ex_intro _ pv E))
      as [x Hx]. now apply (N x). }
  destruct H as [H | [N1 [H | [N2 H]]]].
  - apply _parse_semver_Ok in H as (vi & P & ->). simpl.
    repeat split; try discriminate; eauto.
    + intros [N _]. now destruct (N vi).
    + intros [N _]. now destruct (N vi).
  - apply _parse_pypi_Ok in H as (pv & P & ->). simpl.
    repeat split; try discriminate; eauto.
    + intros [vi E]. now destruct (NS N1 vi).
    + intros [_ N]. now destruct (N pv).
  - apply _parse_legacy_Ok in H as (ver' & vi & P & ->). simpl.
    repeat split; try discriminate; eauto.
    + intros [vi' E]. now destruct (NS N1 vi').
    + intros [_ [pv E]]. now destruct (NP N2 pv).
Qed.

Lemma X2_format_is_first_accepting_decoder_witness :
  (PYPI = SEMVER <->
   exists vi,
     VersionInfo.parse (snd (split_prefix (lit "v1.0.0rc3"))) true = Ok vi) /\
  (PYPI = PYPI <->
   (forall vi,
       VersionInfo.parse (snd (split_prefix (lit "v1.0.0rc3"))) true
       <> Ok vi) /\
   exists pv,
     PyPIVersion.__init__ (snd (split_prefix (lit "v1.0.0rc3"))) = Ok pv) /\
  (PYPI = UNKNOWN <->
   (forall vi,
       VersionInfo.parse (snd (split_prefix (lit "v1.0.0rc3"))) true
       <> Ok vi) /\
   forall pv,
     PyPIVersion.__init__ (snd (split_prefix (lit "v1.0.0rc3"))) <> Ok pv).
Proof.
  apply (@X2_format_is_first_accepting_decoder (lit "v1.0.0rc3")
           (SemanticVersion.Build
              (VersionInfo.Build 1 0 0 (Some (lit "rc.3")) None)
              (lit "v1.0.0rc3") (lit "v") PYPI)).
  vm_compute. reflexivity.
Defined.

(** X3: the legacy fallback only ever helps a text with more than two
    dots; with fewer it repeats the semver attempt that has just failed.
    So a version of format UNKNOWN comes from a text with at least three
    dots. *)
Theorem X3_unknown_needs_three_dots (s : str) (v : SemanticVersion.t) :
  SemanticVersion.parse s = Ok v ->
  SemanticVersion.version_format v = UNKNOWN ->
  (2 < count_dot (snd (split_prefix s)))%nat.
Proof.
  intros H F. apply parse_Ok in H. simpl in H.
  destruct H as [H | [N1 [H | [N2 H]]]].
  - apply _parse_semver_Ok in H as (vi & P & ->). discriminate F.
  - apply _parse_pypi_Ok in H as (pv & P & ->). discriminate F.
  - unfold SemanticVersion._parse_legacy in H.
    destruct (2 <? count_dot (snd (split_prefix s)))%nat eqn:C;
      [now apply Nat.ltb_lt in C|].
    exfalso.
    destruct (VersionInfo.parse (snd (split_prefix s)) true) as [vi|e] eqn:P.
    + destruct (proj2 (_parse_semver_iff (snd (split_prefix s))
                         (fst (split_prefix s)) s) (ex_intro _ vi P))
        as [x Hx].
      now apply (N1 x).
    + destruct e; discriminate H.
Qed.

Lemma X3_unknown_needs_three_dots_witness :
  (2 < count_dot (snd (split_prefix (lit "1.2.3.x"))))%nat.
Proof.
  apply (@X3_unknown_needs_three_dots (lit "1.2.3.x")
           (SemanticVersion.Build
              (VersionInfo.Build 1 2 3 (Some (lit "x")) None)
              (lit "1.2.3.x") [] UNKNOWN)).
  - vm_compute. reflexivity.
  - reflexivity.
Defined.

(** ** Errors *)

Lemma _parse_semver_Raise ver pfx orig e :
  SemanticVersion._parse_semver ver pfx orig = Raise e ->
  exists m, e = ValueError m.
Proof.
  unfold SemanticVersion._parse_semver.
  destruct (VersionInfo.parse ver true) as [vi|e1] eqn:P; [discriminate|].
  destruct (parse_raises_ValueError _ _ P) as [m1 ->].
  intros H. injection H as <-. eauto.
Qed.

Lemma _parse_pypi_Raise ver pfx orig e :
  SemanticVersion._parse_pypi ver pfx orig = Raise e ->
  exists m, e = ValueError m.
Proof.
  unfold SemanticVersion._parse_pypi.
  destruct (PyPIVersion.__init__ ver); [discriminate|].
  intros H. injection H as <-. eauto.
Qed.

Lemma _parse_legacy_Raise ver pfx orig e :
  SemanticVersion._parse_legacy ver pfx orig = Raise e ->
  exists text, e = ValueError (lit "Invalid version: " ++ text).
Proof.
  unfold SemanticVersion._parse_legacy.
  match goal with
  | |- match VersionInfo.parse ?t true with _ => _ end = _ -> _ =>
      destruct (VersionInfo.parse t true) as [vi|e3] eqn:P3;
      [discriminate|];
      destruct (parse_raises_ValueError _ _ P3) as [m3 ->];
      intros H; injection H as <-; now exists t
  end.
Qed.

Lemma parse_raise_message (s : str) (e : exn) :
  SemanticVersion.parse s = Raise e ->
  exists text, e = ValueError (lit "Invalid version: " ++ text).
Proof.
  rewrite parse_unfold.
  destruct (SemanticVersion._parse_semver _ _ s) as [x|e1] eqn:E1;
    [discriminate|].
  destruct (_parse_semver_Raise _ _ _ E1) as [m1 ->].
  destruct (SemanticVersion._parse_pypi _ _ s) as [y|e2] eqn:E2;
    [discriminate|].
  destruct (_parse_pypi_Raise _ _ _ E2) as [m2 ->].
  apply _parse_legacy_Raise.
Qed.

(** X4: [parse] raises nothing but the [ValueError] of the legacy
    fallback, whose message starts with [Invalid version: ]; it never
    lets the errors of the semver and PEP 440 decoders through. *)
Theorem X4_parse_raises_invalid_version (s : str) (e : exn) :
  SemanticVersion.parse s = Raise e ->
  exists text, e = ValueError (lit "Invalid version: " ++ text).
Proof. apply parse_raise_message. Qed.

Lemma X4_parse_raises_invalid_version_witness :
  exists text,
    ValueError (lit "Invalid version: invalid-version") =
    ValueError (lit "Invalid version: " ++ text).
Proof.
  apply (@X4_parse_raises_invalid_version (lit "invalid-version")).
  vm_compute. reflexivity.
Defined.

(** X5: [from_str] raises nothing but a [ValueError] whose message starts
    with [Invalid version predicate format]. *)
Theorem X5_from_str_raises_invalid_predicate (s : str) (e : exn) :
  VersionPredicate.from_str s = Raise e ->
  exists text,
    e = ValueError (lit "Invalid version predicate format" ++ text).
Proof.
  unfold VersionPredicate.from_str.
  destruct (re_match _ _) as [g|].
  - cbv zeta.
    destruct (SemanticVersion.parse _) as [v|e1] eqn:P; [discriminate|].
    destruct (parse_raise_message _ P) as [text ->].
    intros H. injection H as <-. simpl. now eexists.
  - intros H. injection H as <-. exists []. now rewrite app_nil_r.
Qed.

Lemma X5_from_str_raises_invalid_predicate_witness :
  exists text,
    ValueError (lit "Invalid version predicate format") =
    ValueError (lit "Invalid version predicate format" ++ text).
Proof.
  apply (@X5_from_str_raises_invalid_predicate (lit "invalid-predicate")).
  vm_compute. reflexivity.
Defined.

(** ** Text that the semver pattern accepts *)

Lemma prefix_re_none_at (S : str) :
  forallb not_at S = true ->
  (exists c s, S = c :: s /\ is_digit c = true) ->
  re_match SemanticVersion.prefix_re S = None.
Proof.
  intros F (c & s & -> & D). apply re_match_none. intros s' g M.
  apply Seq_inv in M as (s1 & g1 & M & _).
  apply Grp_inv in M as (g0 & M & _).
  apply Alt_inv in M as [M | M].
  - apply Seq_inv in M as (s2 & g2 & M & MV).
    apply Chr_inv in MV as [-> _].
    apply Opt_inv in M as [M | [E _]].
    + apply Seq_inv in M as (s3 & g3 & M & MA).
      apply Chr_inv in MA as [-> _].
      apply Mat_suffix in M as [w E]. rewrite E in F.
      rewrite forallb_app in F. apply andb_prop in F as [_ F].
      discriminate F.
    + injection E as E1 _. subst c. discriminate D.
  - apply Chr_inv in M as [E _]. injection E as E1 _. subst c.
    discriminate D.
Qed.

Lemma semver_re_within o : within not_at (VersionInfo.semver_re o).
Proof.
  destruct o; simpl; repeat split; intros c; by_char c.
Qed.

(** The texts of the semver pattern start with a digit and hold no [@]. *)
Lemma semver_text_shape s o s' g :
  Mat (VersionInfo.semver_re o) s [] s' g ->
  forallb not_at s = true /\ exists c t, s = c :: t /\ is_digit c = true.
Proof.
  intros M. split.
  - destruct (Mat_within not_at M (semver_re_within o)) as (w & -> & F).
    rewrite forallb_app, F. simpl.
    rewrite semver_re_eq in M.
    apply Seq_inv in M as (s1 & g1 & _ & M).
    apply Seq_inv in M as (s2 & g2 & _ & M).
    apply Seq_inv in M as (s3 & g3 & _ & M).
    apply Seq_inv in M as (s4 & g4 & _ & M).
    apply Eol_inv in M as (E & <- & _).
    now destruct E as [-> | ->].
  - rewrite semver_re_eq in M.
    apply Seq_inv in M as (s1 & g1 & M & _).
    apply Grp_inv in M as (g0 & M & _).
    apply Alt_inv in M as [M | M].
    + apply Chr_inv in M as [-> _]. now eexists _, _.
    + apply Seq_inv in M as (s2 & g2 & M & _).
      apply Cls_inv in M as (c & -> & P & _).
      exists c, s2. split; [reflexivity | now apply pos_digit_digit].
Qed.

(** X6: text that the semver pattern accepts, with or without minor and
    patch, is never split at a prefix and is decoded by the semver
    decoder: [parse] returns the version that [VersionInfo.parse] reads,
    with the empty prefix and the format SEMVER. *)
Theorem X6_semver_text_decodes_as_semver (s : str) (vi : VersionInfo.t) :
  VersionInfo.parse s true = Ok vi ->
  SemanticVersion.parse s = Ok (SemanticVersion.Build vi s [] SEMVER).
Proof.
  intros H. unfold SemanticVersion.parse.
  assert (E : re_match SemanticVersion.prefix_re s = None).
  { unfold VersionInfo.parse in H.
    destruct (re_match (VersionInfo.semver_re true) s) as [g|] eqn:R;
      [|discriminate H].
    apply re_match_sound in R as [s' M].
    destruct (semver_text_shape M) as [F D].
    now apply prefix_re_none_at. }
  rewrite E. unfold SemanticVersion._parse_semver. now rewrite H.
Qed.

Lemma X6_semver_text_decodes_as_semver_witness :
  SemanticVersion.parse (lit "4.2-rc.1") =
  Ok (SemanticVersion.Build
        (VersionInfo.Build 4 2 0 (Some (lit "rc.1")) None)
        (lit "4.2-rc.1") [] SEMVER).
Proof.
  apply (@X6_semver_text_decodes_as_semver (lit "4.2-rc.1")).
  vm_compute. reflexivity.
Defined.

(** ** Matching *)

(** X7: the build of the candidate plays no part in matching: with any
    other build the candidate gives the same result, or the same error,
    against any predicate. *)
Theorem X7_matching_ignores_candidate_build
    (v : SemanticVersion.t) (b : option str) (p : VersionPredicate.t) :
  matches_predicate (set_build b v) p = matches_predicate v p.
Proof.
  unfold matches_predicate, VersionInfo.match_.
  set (e := VersionPredicate.__str__ p).
  destruct (if VersionInfo.mem_str (firstn 2 e) _ then _ else _)
    as [[op ver]|]; [|reflexivity].
  unfold VersionInfo.compare_str.
  destruct (VersionInfo.parse ver false); reflexivity.
Qed.

(** X8: matching against a hand-built predicate whose operator is one of
    [>=], [<=], [==], [!=] parses the stored version with the strict
    pattern, and an error of that parse is the error of the match: a
    version text such as [4.2], which [from_str] would have normalized,
    makes every match raise. *)
Theorem X8_match_raises_on_unparsable_stored_version
    (v : SemanticVersion.t) (op ver : str) (fmt : VersionFormat) (e : exn) :
  In op (map lit [">="; "<="; "=="; "!="]%string) ->
  VersionInfo.parse ver false = Raise e ->
  matches_predicate v (VersionPredicate.Build op ver fmt) = Raise e.
Proof.
  intros I P. unfold matches_predicate, VersionPredicate.__str__.
  cbn [VersionPredicate.operator VersionPredicate.version].
  simpl in I.
  destruct I as [<- | [<- | [<- | [<- | []]]]];
    unfold VersionInfo.match_; cbn -[VersionInfo.compare_str];
    unfold VersionInfo.compare_str; rewrite P; reflexivity.
Qed.

Lemma X8_match_raises_on_unparsable_stored_version_witness :
  matches_predicate
    (SemanticVersion.Build (VersionInfo.Build 4 2 0 None None)
       (lit "4.2") [] SEMVER)
    (VersionPredicate.Build (lit ">=") (lit "4.2") SEMVER) =
  Raise (ValueError (lit "4.2 is not valid SemVer string")).
Proof.
  apply (@X8_match_raises_on_unparsable_stored_version
           (SemanticVersion.Build (VersionInfo.Build 4 2 0 None None)
              (lit "4.2") [] SEMVER)
           (lit ">=") (lit "4.2") SEMVER).
  - simpl. tauto.
  - vm_compute. reflexivity.
Defined.

(** ** [variations] *)

(** X9: the variations of a parsed version hold its canonical text and
    its input and nothing else; the canonical text comes first, and when a
    prefix was stripped it is listed a second time. *)
Theorem X9_variations_of_parsed (s : str) (v : SemanticVersion.t) :
  SemanticVersion.parse s = Ok v ->
  hd [] (SemanticVersion.variations v) = SemanticVersion.to_semver v /\
  In s (SemanticVersion.variations v) /\
  (forall x, In x (SemanticVersion.variations v) ->
             x = SemanticVersion.to_semver v \/ x = s) /\
  (SemanticVersion.prefix v <> [] ->
   SemanticVersion.variations v =
   [SemanticVersion.to_semver v; s; SemanticVersion.to_semver v]).
Proof.
  intros H. destruct (parse_envelope _ H) as [EO _].
  assert (NE : s <> []) by (intros ->; discriminate H).
  unfold SemanticVersion.variations, SemanticVersion.to_semver.
  rewrite EO.
  destruct s as [|c s]; [contradiction|].
  destruct (SemanticVersion.prefix v); simpl.
  - repeat split; auto.
    + intros x [<- | [<- | []]]; auto.
    + contradiction.
  - repeat split; auto.
    intros x [<- | [<- | [<- | []]]]; auto.
Qed.

Lemma X9_variations_of_parsed_witness :
  hd [] (SemanticVersion.variations
           (SemanticVersion.Build (VersionInfo.Build 1 0 0 None None)
              (lit "v1.0.0") (lit "v") SEMVER)) = lit "1.0.0" /\
  In (lit "v1.0.0")
    (SemanticVersion.variations
       (SemanticVersion.Build (VersionInfo.Build 1 0 0 None None)
          (lit "v1.0.0") (lit "v") SEMVER)) /\
  (forall x,
      In x (SemanticVersion.variations
              (SemanticVersion.Build (VersionInfo.Build 1 0 0 None None)
                 (lit "v1.0.0") (lit "v") SEMVER)) ->
      x = lit "1.0.0" \/ x = lit "v1.0.0") /\
  (lit "v" <> [] ->
   SemanticVersion.variations
     (SemanticVersion.Build (VersionInfo.Build 1 0 0 None None)
        (lit "v1.0.0") (lit "v") SEMVER) =
   [lit "1.0.0"; lit "v1.0.0"; lit "1.0.0"]).
Proof.
  apply (@X9_variations_of_parsed (lit "v1.0.0")
           (SemanticVersion.Build (VersionInfo.Build 1 0 0 None None)
              (lit "v1.0.0") (lit "v") SEMVER)).
  vm_compute. reflexivity.
Defined.

(** ** The order of versions *)

Lemma _cmp_antisym a b : VersionInfo._cmp b a = (- VersionInfo._cmp a b)%Z.
Proof.
  unfold VersionInfo._cmp. rewrite (N.compare_antisym a b).
  destruct (a ?= b)%N; reflexivity.
Qed.

Lemma _cmp_str_antisym a b :
  VersionInfo._cmp_str b a = (- VersionInfo._cmp_str a b)%Z.
Proof.
  revert b. induction a as [|x a IH]; intros [|y b]; simpl; try reflexivity.
  rewrite (N.compare_antisym (code x) (code y)).
  destruct (code x ?= code y)%N; simpl; auto.
Qed.

Lemma cmp_tag_antisym a b :
  VersionInfo.cmp_prerelease_tag b a =
  (- VersionInfo.cmp_prerelease_tag a b)%Z.
Proof.
  destruct a, b; simpl; try reflexivity;
    [apply _cmp_antisym | apply _cmp_str_antisym].
Qed.

Lemma opp_eqb_0 z : (- z =? 0)%Z = (z =? 0)%Z.
Proof. destruct z; reflexivity. Qed.

Lemma cmp_zip_antisym a b :
  VersionInfo.cmp_zip b a = (- VersionInfo.cmp_zip a b)%Z.
Proof.
  revert b. induction a as [|x a IH]; intros [|y b]; simpl; try reflexivity.
  rewrite (cmp_tag_antisym x y), opp_eqb_0.
  destruct (VersionInfo.cmp_prerelease_tag x y =? 0)%Z; auto.
Qed.

Lemma _nat_cmp_antisym a b :
  VersionInfo._nat_cmp b a = (- VersionInfo._nat_cmp a b)%Z.
Proof.
  unfold VersionInfo._nat_cmp.
  rewrite (cmp_zip_antisym (map VersionInfo.to_tag
                              (split_dot (VersionInfo.or_empty a)))),
    opp_eqb_0.
  destruct (VersionInfo.cmp_zip _ _ =? 0)%Z; [apply _cmp_antisym | auto].
Qed.

Lemma _cmp_triple_antisym a b :
  VersionInfo._cmp_triple b a = (- VersionInfo._cmp_triple a b)%Z.
Proof.
  destruct a as [[a1 a2] a3], b as [[b1 b2] b3]. simpl.
  rewrite (_cmp_antisym a1 b1), (_cmp_antisym a2 b2), (_cmp_antisym a3 b3),
    !opp_eqb_0.
  destruct (VersionInfo._cmp a1 b1 =? 0)%Z; [|reflexivity].
  destruct (VersionInfo._cmp a2 b2 =? 0)%Z; reflexivity.
Qed.

Lemma falsy_or_empty x :
  VersionInfo.falsy x = true -> VersionInfo.or_empty x = [].
Proof. destruct x as [[|c w]|]; simpl; auto; discriminate. Qed.

(** Swapping the versions negates [compare]. *)
Lemma compare_antisym a b :
  VersionInfo.compare b a = (- VersionInfo.compare a b)%Z.
Proof.
  unfold VersionInfo.compare.
  change (VersionInfo._cmp_triple
            (VersionInfo.major b, VersionInfo.minor b, VersionInfo.patch b)
            (VersionInfo.major a, VersionInfo.minor a, VersionInfo.patch a))
    with (VersionInfo._cmp_triple (triple b) (triple a)).
  change (VersionInfo._cmp_triple
            (VersionInfo.major a, VersionInfo.minor a, VersionInfo.patch a)
            (VersionInfo.major b, VersionInfo.minor b, VersionInfo.patch b))
    with (VersionInfo._cmp_triple (triple a) (triple b)).
  rewrite (_cmp_triple_antisym (triple a) (triple b)), opp_eqb_0.
  destruct (VersionInfo._cmp_triple (triple a) (triple b) =? 0)%Z;
    simpl; [|reflexivity].
  rewrite (_nat_cmp_antisym (VersionInfo.prerelease a)
             (VersionInfo.prerelease b)), opp_eqb_0.
  destruct (VersionInfo._nat_cmp _ _ =? 0)%Z eqn:R; [reflexivity|].
  destruct (VersionInfo.falsy (VersionInfo.prerelease a)) eqn:Fa,
    (VersionInfo.falsy (VersionInfo.prerelease b)) eqn:Fb; try reflexivity.
  exfalso. unfold VersionInfo._nat_cmp in R.
  rewrite (falsy_or_empty _ Fa), (falsy_or_empty _ Fb) in R.
  discriminate R.
Qed.

(** X10: on parsed versions the comparison methods agree with each
    other: [a > b] is [b < a], [a >= b] is [b <= a], equality is
    symmetric, [!=] is the negation of [==], and exactly one of [a < b],
    [a == b], [b < a] holds. *)
Theorem X10_comparisons_are_consistent
    (s1 s2 : str) (a b : SemanticVersion.t) :
  SemanticVersion.parse s1 = Ok a ->
  SemanticVersion.parse s2 = Ok b ->
  SemanticVersion.__gt__ a b = SemanticVersion.__lt__ b a /\
  SemanticVersion.__ge__ a b = SemanticVersion.__le__ b a /\
  SemanticVersion.eq a b = SemanticVersion.eq b a /\
  SemanticVersion.__ne__ a b = negb (SemanticVersion.eq a b) /\
  ((SemanticVersion.__lt__ a b = true /\ SemanticVersion.eq a b = false /\
    SemanticVersion.__lt__ b a = false) \/
   (SemanticVersion.__lt__ a b = false /\ SemanticVersion.eq a b = true /\
    SemanticVersion.__lt__ b a = false) \/
   (SemanticVersion.__lt__ a b = false /\ SemanticVersion.eq a b = false /\
    SemanticVersion.__lt__ b a = true)).
Proof.
  intros _ _.
  unfold SemanticVersion.__gt__, SemanticVersion.__ge__,
    SemanticVersion.__le__, SemanticVersion.__ne__, SemanticVersion.eq,
    SemanticVersion.__lt__, VersionInfo.__lt__, VersionInfo.__eq__.
  rewrite (compare_antisym (SemanticVersion.version_info a)
             (SemanticVersion.version_info b)).
  destruct (compare_sign (SemanticVersion.version_info a)
              (SemanticVersion.version_info b)) as [-> | [-> | ->]];
    simpl; repeat split; auto.
Qed.

Lemma X10_comparisons_are_consistent_witness :
  let a :=
    SemanticVersion.Build (VersionInfo.Build 1 0 0 (Some (lit "rc.1")) None)
      (lit "1.0.0-rc.1") [] SEMVER in
  let b :=
    SemanticVersion.Build (VersionInfo.Build 1 0 0 None None)
      (lit "v1.0.0") (lit "v") SEMVER in
  SemanticVersion.__gt__ a b = SemanticVersion.__lt__ b a /\
  SemanticVersion.__ge__ a b = SemanticVersion.__le__ b a /\
  SemanticVersion.eq a b = SemanticVersion.eq b a /\
  SemanticVersion.__ne__ a b = negb (SemanticVersion.eq a b) /\
  ((SemanticVersion.__lt__ a b = true /\ SemanticVersion.eq a b = false /\
    SemanticVersion.__lt__ b a = false) \/
   (SemanticVersion.__lt__ a b = false /\ SemanticVersion.eq a b = true /\
    SemanticVersion.__lt__ b a = false) \/
   (SemanticVersion.__lt__ a b = false /\ SemanticVersion.eq a b = false /\
    SemanticVersion.__lt__ b a = true)).
Proof.
  intros a b.
  apply (@X10_comparisons_are_consistent (lit "1.0.0-rc.1") (lit "v1.0.0")
           a b); vm_compute; reflexivity.
Defined.

(** X25: the build plays no part in the comparisons.  Two parsed
    versions with the same major, minor, patch and prerelease are equal
    and neither is below the other, whatever their builds; [compare]
    gives the same result under any builds; and the build stays in the
    model, at the end of the rendering. *)
Theorem X25_build_plays_no_part_in_comparisons
    (s1 s2 : str) (v1 v2 : SemanticVersion.t) :
  SemanticVersion.parse s1 = Ok v1 ->
  SemanticVersion.parse s2 = Ok v2 ->
  VersionInfo.major (SemanticVersion.version_info v1) =
    VersionInfo.major (SemanticVersion.version_info v2) ->
  VersionInfo.minor (SemanticVersion.version_info v1) =
    VersionInfo.minor (SemanticVersion.version_info v2) ->
  VersionInfo.patch (SemanticVersion.version_info v1) =
    VersionInfo.patch (SemanticVersion.version_info v2) ->
  VersionInfo.prerelease (SemanticVersion.version_info v1) =
    VersionInfo.prerelease (SemanticVersion.version_info v2) ->
  SemanticVersion.eq v1 v2 = true /\
  SemanticVersion.__lt__ v1 v2 = false /\
  SemanticVersion.__lt__ v2 v1 = false /\
  (forall b1 b2,
      VersionInfo.compare
        (with_build b1 (SemanticVersion.version_info v1))
        (with_build b2 (SemanticVersion.version_info v2)) =
      VersionInfo.compare (SemanticVersion.version_info v1)
        (SemanticVersion.version_info v2)) /\
  SemanticVersion.to_semver v1 =
    VersionInfo.__str__ (without_build (SemanticVersion.version_info v1))
    ++ build_suffix (VersionInfo.build (SemanticVersion.version_info v1)).
Proof.
  intros H1 H2 E1 E2 E3 E4.
  apply parse_wf_version in H1 as W1.
  pose proof (compare_same_fields _ _ E1 E2 E3 E4) as C12.
  pose proof (compare_same_fields _ _ (eq_sym E1) (eq_sym E2) (eq_sym E3)
                (eq_sym E4)) as C21.
  split; [|split; [|split; [|split]]].
  - unfold SemanticVersion.eq, VersionInfo.__eq__. now rewrite C12.
  - unfold SemanticVersion.__lt__, VersionInfo.__lt__. now rewrite C12.
  - unfold SemanticVersion.__lt__, VersionInfo.__lt__. now rewrite C21.
  - intros b1 b2. reflexivity.
  - unfold SemanticVersion.to_semver. now apply str_without_build.
Qed.

Lemma X25_build_plays_no_part_in_comparisons_witness :
  let v1 :=
    SemanticVersion.Build
      (VersionInfo.Build 1 0 0 (Some (lit "rc.1")) (Some (lit "a")))
      (lit "1.0.0-rc.1+a") [] SEMVER in
  let v2 :=
    SemanticVersion.Build
      (VersionInfo.Build 1 0 0 (Some (lit "rc.1")) (Some (lit "b.2")))
      (lit "1.0.0-rc.1+b.2") [] SEMVER in
  SemanticVersion.eq v1 v2 = true /\
  SemanticVersion.__lt__ v1 v2 = false /\
  SemanticVersion.__lt__ v2 v1 = false /\
  (forall b1 b2,
      VersionInfo.compare
        (with_build b1 (SemanticVersion.version_info v1))
        (with_build b2 (SemanticVersion.version_info v2)) =
      VersionInfo.compare (SemanticVersion.version_info v1)
        (SemanticVersion.version_info v2)) /\
  SemanticVersion.to_semver v1 =
    VersionInfo.__str__ (without_build (SemanticVersion.version_info v1))
    ++ build_suffix (VersionInfo.build (SemanticVersion.version_info v1)).
Proof.
  intros v1 v2.
  apply (@X25_build_plays_no_part_in_comparisons (lit "1.0.0-rc.1+a")
           (lit "1.0.0-rc.1+b.2") v1 v2); vm_compute; reflexivity.
Defined.

Lemma _cmp_lt a b : VersionInfo._cmp a b = (-1)%Z <-> (a < b)%N.
Proof.
  unfold VersionInfo._cmp, N.lt.
  destruct (a ?= b)%N; split; auto; discriminate.
Qed.

Lemma _cmp_eq a b : VersionInfo._cmp a b = 0%Z <-> a = b.
Proof.
  split; [apply _cmp_0 | intros ->; apply _cmp_refl].
Qed.

Lemma _cmp_triple_lt a1 a2 a3 b1 b2 b3 :
  VersionInfo._cmp_triple (a1, a2, a3) (b1, b2, b3) = (-1)%Z <->
  (a1 < b1 \/ (a1 = b1 /\ (a2 < b2 \/ (a2 = b2 /\ a3 < b3))))%N.
Proof.
  simpl.
  destruct (Z.eqb_spec (VersionInfo._cmp a1 b1) 0) as [E1 | N1].
  - apply _cmp_eq in E1 as ->.
    destruct (Z.eqb_spec (VersionInfo._cmp a2 b2) 0) as [E2 | N2].
    + apply _cmp_eq in E2 as ->. rewrite _cmp_lt. lia.
    + rewrite _cmp_lt. rewrite _cmp_eq in N2. lia.
  - rewrite _cmp_lt. rewrite _cmp_eq in N1. lia.
Qed.

(** X11: the numeric triple decides first: a version whose
    [(major, minor, patch)] is below that of another, in the order of
    tuples, is below it, whatever the prereleases and builds. *)
Theorem X11_triple_decides_first (a b : SemanticVersion.t) :
  (VersionInfo.major (SemanticVersion.version_info a) <
     VersionInfo.major (SemanticVersion.version_info b) \/
   (VersionInfo.major (SemanticVersion.version_info a) =
      VersionInfo.major (SemanticVersion.version_info b) /\
    (VersionInfo.minor (SemanticVersion.version_info a) <
       VersionInfo.minor (SemanticVersion.version_info b) \/
     (VersionInfo.minor (SemanticVersion.version_info a) =
        VersionInfo.minor (SemanticVersion.version_info b) /\
      VersionInfo.patch (SemanticVersion.version_info a) <
        VersionInfo.patch (SemanticVersion.version_info b)))))%N ->
  SemanticVersion.__lt__ a b = true /\
  SemanticVersion.eq a b = false /\
  SemanticVersion.__lt__ b a = false.
Proof.
  intros H. apply _cmp_triple_lt in H.
  assert (C : VersionInfo.compare (SemanticVersion.version_info a)
                (SemanticVersion.version_info b) = (-1)%Z).
  { unfold VersionInfo.compare. now rewrite H. }
  unfold SemanticVersion.__lt__, SemanticVersion.eq, VersionInfo.__lt__,
    VersionInfo.__eq__.
  rewrite (compare_antisym (SemanticVersion.version_info a)
             (SemanticVersion.version_info b)), C.
  auto.
Qed.

Lemma X11_triple_decides_first_witness :
  SemanticVersion.__lt__
    (SemanticVersion.Build (VersionInfo.Build 1 0 0 None None)
       (lit "1.0.0") [] SEMVER)
    (SemanticVersion.Build
       (VersionInfo.Build 1 0 1 (Some (lit "alpha.1")) None)
       (lit "1.0.1a1") [] PYPI) = true /\
  SemanticVersion.eq
    (SemanticVersion.Build (VersionInfo.Build 1 0 0 None None)
       (lit "1.0.0") [] SEMVER)
    (SemanticVersion.Build
       (VersionInfo.Build 1 0 1 (Some (lit "alpha.1")) None)
       (lit "1.0.1a1") [] PYPI) = false /\
  SemanticVersion.__lt__
    (SemanticVersion.Build
       (VersionInfo.Build 1 0 1 (Some (lit "alpha.1")) None)
       (lit "1.0.1a1") [] PYPI)
    (SemanticVersion.Build (VersionInfo.Build 1 0 0 None None)
       (lit "1.0.0") [] SEMVER) = false.
Proof.
  apply (@X11_triple_decides_first
           (SemanticVersion.Build (VersionInfo.Build 1 0 0 None None)
              (lit "1.0.0") [] SEMVER)
           (SemanticVersion.Build
              (VersionInfo.Build 1 0 1 (Some (lit "alpha.1")) None)
              (lit "1.0.1a1") [] PYPI)).
  simpl. lia.
Defined.

Lemma _nat_cmp_length a b :
  List.length (VersionInfo.or_empty a) <>
    List.length (VersionInfo.or_empty b) ->
  VersionInfo._nat_cmp a b <> 0%Z.
Proof.
  intros L. unfold VersionInfo._nat_cmp.
  destruct (Z.eqb_spec (VersionInfo.cmp_zip
                          (map VersionInfo.to_tag
                             (split_dot (VersionInfo.or_empty a)))
                          (map VersionInfo.to_tag
                             (split_dot (VersionInfo.or_empty b)))) 0)
    as [E | N]; [|exact N].
  intros C. apply _cmp_0, Nat2N.inj in C. contradiction.
Qed.

(** X12: a prerelease sorts below its release: of two parsed versions
    with the same major, minor and patch, the one with a prerelease is
    below the one without. *)
Theorem X12_prerelease_below_release
    (s1 s2 : str) (a b : SemanticVersion.t) :
  SemanticVersion.parse s1 = Ok a ->
  SemanticVersion.parse s2 = Ok b ->
  triple (SemanticVersion.version_info a) =
    triple (SemanticVersion.version_info b) ->
  VersionInfo.prerelease (SemanticVersion.version_info a) <> None ->
  VersionInfo.prerelease (SemanticVersion.version_info b) = None ->
  SemanticVersion.__lt__ a b = true /\ SemanticVersion.__lt__ b a = false.
Proof.
  intros H1 H2 T Pa Pb.
  apply parse_wf_version in H1 as [Wa _].
  assert (C : VersionInfo.compare (SemanticVersion.version_info a)
                (SemanticVersion.version_info b) = (-1)%Z).
  { unfold VersionInfo.compare.
    change (VersionInfo._cmp_triple _ _)
      with (VersionInfo._cmp_triple (triple (SemanticVersion.version_info a))
              (triple (SemanticVersion.version_info b))).
    rewrite T.
    assert (E : VersionInfo._cmp_triple
                  (triple (SemanticVersion.version_info b))
                  (triple (SemanticVersion.version_info b)) = 0%Z).
    { destruct (triple _) as [[x y] z]. simpl. now rewrite !_cmp_refl. }
    rewrite E. simpl. rewrite Pb.
    destruct (VersionInfo.prerelease (SemanticVersion.version_info a))
      as [w|] eqn:P; [|contradiction].
    simpl in Wa. apply full_not_nil in Wa; [|reflexivity].
    destruct (Z.eqb_spec (VersionInfo._nat_cmp (Some w) None) 0) as [Z0 | _].
    - exfalso. revert Z0. apply _nat_cmp_length. simpl.
      destruct w; [contradiction | discriminate].
    - destruct w; [contradiction | reflexivity]. }
  unfold SemanticVersion.__lt__, VersionInfo.__lt__.
  rewrite (compare_antisym (SemanticVersion.version_info a)
             (SemanticVersion.version_info b)), C.
  auto.
Qed.

Lemma X12_prerelease_below_release_witness :
  SemanticVersion.__lt__
    (SemanticVersion.Build
       (VersionInfo.Build 1 0 0 (Some (lit "alpha.1")) None)
       (lit "1.0.0a1") [] PYPI)
    (SemanticVersion.Build (VersionInfo.Build 1 0 0 None None)
       (lit "1.0.0") [] SEMVER) = true /\
  SemanticVersion.__lt__
    (SemanticVersion.Build (VersionInfo.Build 1 0 0 None None)
       (lit "1.0.0") [] SEMVER)
    (SemanticVersion.Build
       (VersionInfo.Build 1 0 0 (Some (lit "alpha.1")) None)
       (lit "1.0.0a1") [] PYPI) = false.
Proof.
  apply (@X12_prerelease_below_release (lit "1.0.0a1") (lit "1.0.0")
           (SemanticVersion.Build
              (VersionInfo.Build 1 0 0 (Some (lit "alpha.1")) None)
              (lit "1.0.0a1") [] PYPI)
           (SemanticVersion.Build (VersionInfo.Build 1 0 0 None None)
              (lit "1.0.0") [] SEMVER)).
  - vm_compute. reflexivity.
  - vm_compute. reflexivity.
  - reflexivity.
  - discriminate.
  - reflexivity.
Defined.

(** ** The order is transitive *)

Lemma _cmp_str_trans a : forall b c,
  VersionInfo._cmp_str a b = (-1)%Z -> VersionInfo._cmp_str b c = (-1)%Z ->
  VersionInfo._cmp_str a c = (-1)%Z.
Proof.
  induction a as [|x a IH]; intros [|y b] [|z c]; simpl; try discriminate;
    auto.
  destruct (code x ?= code y)%N eqn:E1; try discriminate;
    destruct (code y ?= code z)%N eqn:E2; try discriminate; intros H1 H2.
  - apply N.compare_eq in E1, E2. rewrite E1, E2, N.compare_refl.
    now apply (IH b c).
  - apply N.compare_eq in E1. now rewrite E1, E2.
  - apply N.compare_eq in E2. now rewrite <- E2, E1.
  - assert (L : (code x < code z)%N) by (eapply N.lt_trans; eassumption).
    unfold N.lt in L. now rewrite L.
Qed.

Lemma cmp_tag_trans x y z :
  VersionInfo.cmp_prerelease_tag x y = (-1)%Z ->
  VersionInfo.cmp_prerelease_tag y z = (-1)%Z ->
  VersionInfo.cmp_prerelease_tag x z = (-1)%Z.
Proof.
  destruct x, y, z; simpl; try discriminate; auto.
  - rewrite !_cmp_lt. apply N.lt_trans.
  - apply _cmp_str_trans.
Qed.

Lemma cmp_lex_trans a : forall b c,
  cmp_lex a b = (-1)%Z -> cmp_lex b c = (-1)%Z -> cmp_lex a c = (-1)%Z.
Proof.
  induction a as [|x a IH]; intros [|y b] [|z c]; simpl; try discriminate;
    auto.
  destruct (Z.eqb_spec (VersionInfo.cmp_prerelease_tag x y) 0) as [E1 | N1];
    destruct (Z.eqb_spec (VersionInfo.cmp_prerelease_tag y z) 0)
      as [E2 | N2]; intros H1 H2.
  - apply cmp_tag_0 in E1, E2. subst y z.
    destruct (Z.eqb_spec (VersionInfo.cmp_prerelease_tag x x) 0) as [_ | N];
      [now apply (IH b c)|].
    exfalso. apply N. destruct x; simpl;
      [apply _cmp_refl | apply _cmp_str_refl].
  - apply cmp_tag_0 in E1. subst y.
    destruct (Z.eqb_spec (VersionInfo.cmp_prerelease_tag x z) 0);
      [contradiction | exact H2].
  - apply cmp_tag_0 in E2. subst z.
    destruct (Z.eqb_spec (VersionInfo.cmp_prerelease_tag x y) 0);
      [contradiction | exact H1].
  - pose proof (cmp_tag_trans x y z H1 H2) as T. rewrite T. reflexivity.
Qed.

Lemma _cmp_shift k x y :
  VersionInfo._cmp (N.of_nat (k + x)) (N.of_nat (k + y)) =
  VersionInfo._cmp (N.of_nat x) (N.of_nat y).
Proof.
  unfold VersionInfo._cmp. rewrite <- !Nat2N.inj_compare.
  destruct (Nat.compare_spec (k + x) (k + y)),
    (Nat.compare_spec x y); try reflexivity; lia.
Qed.

(** On dotted lists of identifiers [_nat_cmp] is the order [cmp_lex] of
    their tags. *)
Lemma zip_lex A : forall B a b,
  Forall (fun i => is_ident i = true) (a :: A) ->
  Forall (fun i => is_ident i = true) (b :: B) ->
  (if (VersionInfo.cmp_zip (map VersionInfo.to_tag (a :: A))
         (map VersionInfo.to_tag (b :: B)) =? 0)%Z
   then VersionInfo._cmp (N.of_nat (List.length (a ++ dotted A)))
          (N.of_nat (List.length (b ++ dotted B)))
   else VersionInfo.cmp_zip (map VersionInfo.to_tag (a :: A))
          (map VersionInfo.to_tag (b :: B))) =
  cmp_lex (map VersionInfo.to_tag (a :: A)) (map VersionInfo.to_tag (b :: B)).
Proof.
  induction A as [|a1 A IH]; intros B a b FA FB;
    inversion FA as [|? ? Ia FA']; inversion FB as [|? ? Ib FB']; subst;
    cbn [map VersionInfo.cmp_zip cmp_lex];
    destruct (Z.eqb_spec (VersionInfo.cmp_prerelease_tag
                            (VersionInfo.to_tag a) (VersionInfo.to_tag b)) 0)
      as [E | N];
    try (destruct (Z.eqb_spec (VersionInfo.cmp_prerelease_tag
                                 (VersionInfo.to_tag a)
                                 (VersionInfo.to_tag b)) 0);
         [contradiction | reflexivity]);
    apply cmp_tag_0 in E; apply (f_equal untag) in E;
    rewrite !untag_to_tag in E by assumption; subst b.
  - destruct B as [|b1 B]; simpl.
    + apply _cmp_refl.
    + rewrite !length_app, length_dotted_cons. simpl.
      unfold VersionInfo._cmp. rewrite <- Nat2N.inj_compare.
      replace (List.length a + 0 ?= _)%nat with Lt; [reflexivity|].
      symmetry. apply Nat.compare_lt_iff. lia.
  - destruct B as [|b1 B].
    + simpl. rewrite !length_app, length_dotted_cons. simpl.
      unfold VersionInfo._cmp. rewrite <- Nat2N.inj_compare.
      replace (_ ?= List.length a + 0)%nat with Gt; [reflexivity|].
      symmetry. apply Nat.compare_gt_iff. lia.
    + specialize (IH B a1 b1 FA' FB').
      cbn [map VersionInfo.cmp_zip cmp_lex] in IH |- *.
      assert (L : VersionInfo._cmp
                    (N.of_nat (List.length (a ++ dotted (a1 :: A))))
                    (N.of_nat (List.length (a ++ dotted (b1 :: B)))) =
                  VersionInfo._cmp
                    (N.of_nat (List.length (a1 ++ dotted A)))
                    (N.of_nat (List.length (b1 ++ dotted B)))).
      { change (dotted (a1 :: A)) with ("." :: a1 ++ dotted A).
        change (dotted (b1 :: B)) with ("." :: b1 ++ dotted B).
        rewrite !(length_app a). simpl List.length.
        rewrite <- !Nat.add_succ_comm.
        apply (_cmp_shift (S (List.length a))). }
      rewrite L. exact IH.
Qed.

Lemma _nat_cmp_lex a b :
  full VersionInfo.prerelease_re a -> full VersionInfo.prerelease_re b ->
  VersionInfo._nat_cmp (Some a) (Some b) =
  cmp_lex (map VersionInfo.to_tag (split_dot a))
    (map VersionInfo.to_tag (split_dot b)).
Proof.
  intros Fa Fb.
  destruct (prerelease_lang Fa) as (i & A & Ii & FA & ->).
  destruct (prerelease_lang Fb) as (j & B & Ij & FB & ->).
  unfold VersionInfo._nat_cmp. simpl VersionInfo.or_empty.
  rewrite !split_dot_join by now constructor.
  apply zip_lex; now constructor.
Qed.

Lemma _nat_cmp_trans a b c :
  full VersionInfo.prerelease_re a -> full VersionInfo.prerelease_re b ->
  full VersionInfo.prerelease_re c ->
  VersionInfo._nat_cmp (Some a) (Some b) = (-1)%Z ->
  VersionInfo._nat_cmp (Some b) (Some c) = (-1)%Z ->
  VersionInfo._nat_cmp (Some a) (Some c) = (-1)%Z.
Proof.
  intros Fa Fb Fc. rewrite !_nat_cmp_lex by assumption.
  apply cmp_lex_trans.
Qed.

Lemma _cmp_triple_refl t : VersionInfo._cmp_triple t t = 0%Z.
Proof.
  destruct t as [[x y] z]. simpl. now rewrite !_cmp_refl.
Qed.

Lemma _cmp_triple_eq a b : VersionInfo._cmp_triple a b = 0%Z -> a = b.
Proof.
  destruct a as [[a1 a2] a3], b as [[b1 b2] b3]. intros H.
  apply _cmp_triple_0 in H as (-> & -> & ->). reflexivity.
Qed.

Lemma compare_below v w :
  wf v -> wf w -> (VersionInfo.compare v w = (-1)%Z <-> below v w).
Proof.
  intros [Wv _] [Ww _]. unfold VersionInfo.compare, below.
  change (VersionInfo._cmp_triple _ _)
    with (VersionInfo._cmp_triple (triple v) (triple w)).
  destruct (Z.eqb_spec (VersionInfo._cmp_triple (triple v) (triple w)) 0)
    as [E | N]; cbn [negb].
  - pose proof (_cmp_triple_eq _ _ E) as T. rewrite E.
    destruct (VersionInfo.prerelease v) as [a|] eqn:Pv,
      (VersionInfo.prerelease w) as [b|] eqn:Pw; simpl in Wv, Ww.
    + apply full_not_nil in Wv; [|reflexivity].
      apply full_not_nil in Ww; [|reflexivity].
      destruct (Z.eqb_spec (VersionInfo._nat_cmp (Some a) (Some b)) 0)
        as [Z0 | NZ].
      * split; [discriminate|].
        intros [H | [_ [[_ H] | (a' & b' & Ea & Eb & H)]]];
          try discriminate H.
        injection Ea as <-. injection Eb as <-. congruence.
      * destruct a; [contradiction|]. destruct b; [contradiction|].
        simpl. split.
        -- intros H. right. split; [exact T|]. right.
           now exists (a :: a0), (a1 :: b).
        -- intros [H | [_ [[_ H] | (a' & b' & Ea & Eb & H)]]];
             try discriminate H.
           injection Ea as <-. injection Eb as <-. exact H.
    + apply full_not_nil in Wv; [|reflexivity].
      destruct (Z.eqb_spec (VersionInfo._nat_cmp (Some a) None) 0)
        as [Z0 | NZ].
      * exfalso. revert Z0. apply _nat_cmp_length. simpl.
        destruct a; [contradiction | discriminate].
      * destruct a; [contradiction|]. simpl. split; [|reflexivity].
        intros _. right. split; [exact T|]. left. split;
          [discriminate | reflexivity].
    + apply full_not_nil in Ww; [|reflexivity].
      destruct (Z.eqb_spec (VersionInfo._nat_cmp None (Some b)) 0)
        as [Z0 | NZ].
      * exfalso. revert Z0. apply _nat_cmp_length. simpl.
        destruct b; [contradiction | discriminate].
      * simpl. split; [discriminate|].
        intros [H | [_ [[H _] | (a' & b' & Ea & _)]]];
          [discriminate H | contradiction | discriminate Ea].
    + simpl. split; [discriminate|].
      intros [H | [_ [[H _] | (a' & b' & Ea & _)]]];
        [discriminate H | contradiction | discriminate Ea].
  - split; [intros H; now left|].
    intros [H | [T _]]; [exact H|].
    rewrite T, _cmp_triple_refl in N. contradiction.
Qed.

Lemma _cmp_triple_trans a b c :
  VersionInfo._cmp_triple a b = (-1)%Z ->
  VersionInfo._cmp_triple b c = (-1)%Z ->
  VersionInfo._cmp_triple a c = (-1)%Z.
Proof.
  destruct a as [[a1 a2] a3], b as [[b1 b2] b3], c as [[c1 c2] c3].
  rewrite !_cmp_triple_lt. lia.
Qed.

Lemma below_trans u v w :
  wf u -> wf v -> wf w -> below u v -> below v w -> below u w.
Proof.
  intros [Wu _] [Wv _] [Ww _] [T1 | [E1 P1]] [T2 | [E2 P2]].
  - left. eapply _cmp_triple_trans; eassumption.
  - left. now rewrite <- E2.
  - left. now rewrite E1.
  - right. split; [congruence|].
    destruct P1 as [[N1 Z1] | (a & b & Ea & Eb & C1)].
    + destruct P2 as [[N2 _] | (a' & b' & Ea' & _)]; congruence.
    + destruct P2 as [[_ Z2] | (b' & c & Eb' & Ec & C2)].
      * left. split; [congruence | exact Z2].
      * right. rewrite Eb in Eb'. injection Eb' as <-.
        exists a, c. split; [exact Ea|]. split; [exact Ec|].
        rewrite Ea in Wu. rewrite Eb in Wv. rewrite Ec in Ww.
        simpl in Wu, Wv, Ww.
        apply (@_nat_cmp_trans a b c); assumption.
Qed.

Lemma lt_below v w :
  VersionInfo.__lt__ v w = true <-> VersionInfo.compare v w = (-1)%Z.
Proof.
  unfold VersionInfo.__lt__.
  destruct (compare_sign v w) as [-> | [-> | ->]]; split;
    auto; discriminate.
Qed.

(** X13: [<] is transitive on parsed versions: with the trichotomy of
    the comparison methods it is a strict total order on them, up to the
    equality that ignores the build. *)
Theorem X13_lt_is_transitive
    (s1 s2 s3 : str) (a b c : SemanticVersion.t) :
  SemanticVersion.parse s1 = Ok a ->
  SemanticVersion.parse s2 = Ok b ->
  SemanticVersion.parse s3 = Ok c ->
  SemanticVersion.__lt__ a b = true ->
  SemanticVersion.__lt__ b c = true ->
  SemanticVersion.__lt__ a c = true.
Proof.
  intros H1 H2 H3.
  apply parse_wf_version in H1 as Wa. apply parse_wf_version in H2 as Wb.
  apply parse_wf_version in H3 as Wc.
  unfold SemanticVersion.__lt__. rewrite !lt_below.
  rewrite !compare_below by assumption.
  now apply below_trans.
Qed.

Lemma X13_lt_is_transitive_witness :
  SemanticVersion.__lt__
    (SemanticVersion.Build
       (VersionInfo.Build 1 0 0 (Some (lit "alpha.1")) None)
       (lit "1.0.0a1") [] PYPI)
    (SemanticVersion.Build (VersionInfo.Build 1 0 1 None None)
       (lit "1.0.1") [] SEMVER) = true.
Proof.
  apply (@X13_lt_is_transitive (lit "1.0.0a1") (lit "1.0.0") (lit "1.0.1")
           (SemanticVersion.Build
              (VersionInfo.Build 1 0 0 (Some (lit "alpha.1")) None)
              (lit "1.0.0a1") [] PYPI)
           (SemanticVersion.Build (VersionInfo.Build 1 0 0 None None)
              (lit "1.0.0") [] SEMVER)
           (SemanticVersion.Build (VersionInfo.Build 1 0 1 None None)
              (lit "1.0.1") [] SEMVER));
    vm_compute; reflexivity.
Defined.

(** ** Numeric identifiers of a prerelease *)

Lemma to_tag_dec n : VersionInfo.to_tag (dec n) = VersionInfo.TInt n.
Proof.
  unfold VersionInfo.to_tag. rewrite py_int_dec.
  destruct (re_match VersionInfo.all_digits_re (dec n)) eqn:R;
    [reflexivity|].
  exfalso. revert R. apply (@re_match_complete _ _ [] []).
  apply all_digits_Mat; [apply dec_not_nil | apply dec_digits].
Qed.

Lemma to_tag_word c (w : str) :
  is_alpha_hyphen c = true -> forallb is_alnum_hyphen w = true ->
  VersionInfo.to_tag (c :: w) = VersionInfo.TStr (c :: w).
Proof.
  intros Ac Aw. unfold VersionInfo.to_tag.
  destruct (re_match VersionInfo.all_digits_re (c :: w)) eqn:R;
    [|reflexivity].
  apply re_match_sound in R as [s' M].
  apply all_digits_inv in M.
  - simpl in M. rewrite (alpha_not_digit c Ac) in M. discriminate M.
  - simpl. now rewrite (alpha_alnum c Ac), Aw.
Qed.

Lemma is_ident_dec n : is_ident (dec n) = true.
Proof.
  unfold is_ident. now rewrite dec_alnum, dec_digits, dec_normal.
Qed.

Lemma is_ident_word c (w : str) :
  is_alpha_hyphen c = true -> forallb is_alnum_hyphen w = true ->
  is_ident (c :: w) = true.
Proof.
  intros Ac Aw. unfold is_ident. simpl.
  now rewrite (alpha_alnum c Ac), Aw, (alpha_not_digit c Ac).
Qed.

(** X14: the number after the word of a prerelease is compared as a
    number, not as text: with the same major, minor and patch,
    [word.N] is below [word.K] whenever [N < K], so that [alpha.2] is
    below [alpha.10]. *)
Theorem X14_prerelease_number_compared_numerically
    (a b : SemanticVersion.t) (c : ascii) (w : str) (n k : N) :
  is_alpha_hyphen c = true -> forallb is_alnum_hyphen w = true ->
  triple (SemanticVersion.version_info a) =
    triple (SemanticVersion.version_info b) ->
  VersionInfo.prerelease (SemanticVersion.version_info a) =
    Some ((c :: w) ++ "." :: dec n) ->
  VersionInfo.prerelease (SemanticVersion.version_info b) =
    Some ((c :: w) ++ "." :: dec k) ->
  (n < k)%N ->
  SemanticVersion.__lt__ a b = true /\ SemanticVersion.__lt__ b a = false.
Proof.
  intros Ac Aw T Pa Pb L.
  assert (C : VersionInfo.compare (SemanticVersion.version_info a)
                (SemanticVersion.version_info b) = (-1)%Z).
  { unfold VersionInfo.compare.
    change (VersionInfo._cmp_triple _ _)
      with (VersionInfo._cmp_triple (triple (SemanticVersion.version_info a))
              (triple (SemanticVersion.version_info b))).
    rewrite T, _cmp_triple_refl, Pa, Pb. cbn [negb Z.eqb].
    assert (R : VersionInfo._nat_cmp (Some ((c :: w) ++ "." :: dec n))
                  (Some ((c :: w) ++ "." :: dec k)) = (-1)%Z).
    { rewrite _nat_cmp_lex by now apply pre_full_2.
      assert (D : forall x, (c :: w) ++ "." :: dec x
                            = (c :: w) ++ dotted [dec x]).
      { intros x. unfold dotted. simpl. now rewrite app_nil_r. }
      rewrite !D, !split_dot_join
        by (repeat constructor;
            [now apply is_ident_word | apply is_ident_dec]).
      cbn [map]. rewrite !to_tag_dec, to_tag_word by assumption.
      cbn [cmp_lex VersionInfo.cmp_prerelease_tag].
      rewrite _cmp_str_refl. cbn [Z.eqb].
      apply _cmp_lt in L. rewrite L. reflexivity. }
    rewrite R. reflexivity. }
  unfold SemanticVersion.__lt__, VersionInfo.__lt__.
  rewrite (compare_antisym (SemanticVersion.version_info a)
             (SemanticVersion.version_info b)), C.
  auto.
Qed.

Lemma X14_prerelease_number_compared_numerically_witness :
  SemanticVersion.__lt__
    (SemanticVersion.Build
       (VersionInfo.Build 1 0 0 (Some (lit "alpha.2")) None)
       (lit "1.0.0a2") [] PYPI)
    (SemanticVersion.Build
       (VersionInfo.Build 1 0 0 (Some (lit "alpha.10")) None)
       (lit "1.0.0a10") [] PYPI) = true /\
  SemanticVersion.__lt__
    (SemanticVersion.Build
       (VersionInfo.Build 1 0 0 (Some (lit "alpha.10")) None)
       (lit "1.0.0a10") [] PYPI)
    (SemanticVersion.Build
       (VersionInfo.Build 1 0 0 (Some (lit "alpha.2")) None)
       (lit "1.0.0a2") [] PYPI) = false.
Proof.
  apply (@X14_prerelease_number_compared_numerically
           (SemanticVersion.Build
              (VersionInfo.Build 1 0 0 (Some (lit "alpha.2")) None)
              (lit "1.0.0a2") [] PYPI)
           (SemanticVersion.Build
              (VersionInfo.Build 1 0 0 (Some (lit "alpha.10")) None)
              (lit "1.0.0a10") [] PYPI)
           "a" (lit "lpha") 2 10); try reflexivity.
Defined.

(** ** [to_pypi] *)

Lemma split_dot_dec n : split_dot (dec n) = [dec n].
Proof. apply split_dot_no_dot, is_ident_no_dot, is_ident_dec. Qed.

Lemma split_1_word_dec (w : str) n rest :
  forallb (fun c => negb (is_chr "." c)) w = true ->
  (rest = [] \/ exists t, rest = "." :: t) ->
  SemanticVersion.split_1 (w ++ "." :: dec n ++ rest) = Ok (dec n).
Proof.
  intros F R. unfold SemanticVersion.split_1.
  rewrite split_dot_app_dot by exact F.
  destruct R as [-> | [t ->]].
  - now rewrite app_nil_r, split_dot_dec.
  - rewrite split_dot_app_dot; [reflexivity|].
    apply is_ident_no_dot, is_ident_dec.
Qed.

Lemma to_pypi_steps v :
  SemanticVersion.to_pypi v =
  (pypi_version <-
     to_pypi_prerelease (triple_text (SemanticVersion.version_info v))
       (VersionInfo.prerelease (SemanticVersion.version_info v)) ;;
   to_pypi_build pypi_version
     (VersionInfo.build (SemanticVersion.version_info v))).
Proof. reflexivity. Qed.

Lemma pypi_build_none pv :
  truthy_int (PyPIVersion.dev pv) = false ->
  truthy_int (PyPIVersion.post pv) = false ->
  VersionInfo.build (SemanticVersion.pypi_to_semver pv) = None.
Proof.
  intros Dv Po. unfold SemanticVersion.pypi_to_semver.
  cbn [VersionInfo.build]. rewrite Dv.
  unfold truthy_int in Po. destruct (PyPIVersion.post pv) as [p|];
    [|reflexivity].
  now rewrite Po.
Qed.

Lemma pypi_build_dev pv n :
  PyPIVersion.dev pv = Some n -> n <> 0%N ->
  VersionInfo.build (SemanticVersion.pypi_to_semver pv) =
  Some (lit "dev" ++ "." :: dec n ++
        match PyPIVersion.post pv with
        | Some m => if (m =? 0)%N then [] else lit ".post" ++ dec m
        | None => []
        end).
Proof.
  intros Dv Hn. apply N.eqb_neq in Hn.
  unfold SemanticVersion.pypi_to_semver. cbn [VersionInfo.build].
  rewrite Dv. unfold truthy_int. rewrite Hn. simpl.
  destruct (PyPIVersion.post pv) as [m|]; [|now rewrite app_nil_r].
  destruct (m =? 0)%N; simpl; [now rewrite app_nil_r|].
  reflexivity.
Qed.

Lemma pypi_prerelease pv l n :
  PyPIVersion.pre pv = Some (l, n) ->
  In l (map lit ["a"; "b"; "rc"]%string) ->
  exists word,
    In (word, l)
      [(lit "alpha", lit "a"); (lit "beta", lit "b"); (lit "rc", lit "rc")]
    /\ VersionInfo.prerelease (SemanticVersion.pypi_to_semver pv) =
       Some (word ++ "." :: dec n).
Proof.
  intros P I. unfold SemanticVersion.pypi_to_semver.
  cbn [VersionInfo.prerelease]. rewrite P. simpl in I.
  destruct I as [<- | [<- | [<- | []]]].
  - exists (lit "alpha"). simpl. tauto.
  - exists (lit "beta"). simpl. tauto.
  - exists (lit "rc"). simpl. tauto.
Qed.

Lemma to_pypi_prerelease_word base word l n :
  In (word, l)
    [(lit "alpha", lit "a"); (lit "beta", lit "b"); (lit "rc", lit "rc")] ->
  to_pypi_prerelease base (Some (word ++ "." :: dec n)) =
  Ok (base ++ l ++ dec n).
Proof.
  intros I. unfold to_pypi_prerelease. simpl in I.
  destruct I as [E | [E | [E | []]]]; injection E as <- <-;
    cbn [lit list_ascii_of_string app VersionInfo.falsy VersionInfo.or_empty
         startswith Ascii.eqb Bool.eqb andb].
  - pose proof (@split_1_word_dec (lit "alpha") n [] eq_refl
                  (or_introl eq_refl)) as S.
    rewrite app_nil_r in S. cbn [lit list_ascii_of_string app] in S.
    rewrite S. reflexivity.
  - pose proof (@split_1_word_dec (lit "beta") n [] eq_refl
                  (or_introl eq_refl)) as S.
    rewrite app_nil_r in S. cbn [lit list_ascii_of_string app] in S.
    rewrite S. reflexivity.
  - pose proof (@split_1_word_dec (lit "rc") n [] eq_refl
                  (or_introl eq_refl)) as S.
    rewrite app_nil_r in S. cbn [lit list_ascii_of_string app] in S.
    rewrite S. reflexivity.
Qed.

(** X15: [to_pypi] undoes the letter mapping of the PEP 440 decoder: a
    version that [_parse_pypi] built from a PEP 440 version with the
    prerelease [(a | b | rc, N)] and no dev or post number renders as
    [major.minor.patch], the letter and [N]. *)
Theorem X15_to_pypi_restores_prerelease_letter
    (ver pfx orig : str) (pv : PyPIVersion.t) (v : SemanticVersion.t)
    (l : str) (n : N) :
  PyPIVersion.__init__ ver = Ok pv ->
  SemanticVersion._parse_pypi ver pfx orig = Ok v ->
  PyPIVersion.pre pv = Some (l, n) ->
  In l (map lit ["a"; "b"; "rc"]%string) ->
  truthy_int (PyPIVersion.dev pv) = false ->
  truthy_int (PyPIVersion.post pv) = false ->
  SemanticVersion.to_pypi v =
  Ok (triple_text (SemanticVersion.version_info v) ++ l ++ dec n).
Proof.
  intros HI HP Ppre I Dv Po.
  unfold SemanticVersion._parse_pypi in HP. rewrite HI in HP.
  injection HP as <-.
  rewrite to_pypi_steps. unfold SemanticVersion.version_info.
  cbn [SemanticVersion.semver_parts].
  rewrite (pypi_build_none pv Dv Po).
  destruct (pypi_prerelease pv Ppre I) as (word & Iw & ->).
  rewrite (@to_pypi_prerelease_word _ _ _ n Iw). reflexivity.
Qed.

Lemma X15_to_pypi_restores_prerelease_letter_witness :
  SemanticVersion.to_pypi
    (SemanticVersion.Build
       (VersionInfo.Build 1 0 0 (Some (lit "rc.3")) None)
       (lit "1.0.0rc3") [] PYPI) =
  Ok (lit "1.0.0" ++ lit "rc" ++ dec 3).
Proof.
  apply (@X15_to_pypi_restores_prerelease_letter (lit "1.0.0rc3") []
           (lit "1.0.0rc3")
           (PyPIVersion.Build 0 [1%N; 0%N; 0%N] (Some (lit "rc", 3%N))
              None None)
           (SemanticVersion.Build
              (VersionInfo.Build 1 0 0 (Some (lit "rc.3")) None)
              (lit "1.0.0rc3") [] PYPI)
           (lit "rc") 3%N); try (vm_compute; reflexivity).
  simpl. tauto.
Defined.

(** X16: when a PEP 440 version has a dev number [N] above 0, [to_pypi]
    of the decoded version ends in [.devN] whether or not there is a post
    number: the post number, kept in the build as [dev.N.postM], is not
    rendered. *)
Theorem X16_to_pypi_drops_post_after_dev
    (ver pfx orig : str) (pv : PyPIVersion.t) (v : SemanticVersion.t)
    (n : N) :
  PyPIVersion.__init__ ver = Ok pv ->
  SemanticVersion._parse_pypi ver pfx orig = Ok v ->
  PyPIVersion.pre pv = None ->
  PyPIVersion.dev pv = Some n -> n <> 0%N ->
  SemanticVersion.to_pypi v =
  Ok (triple_text (SemanticVersion.version_info v) ++ lit ".dev" ++ dec n).
Proof.
  intros HI HP Ppre Dv Hn.
  unfold SemanticVersion._parse_pypi in HP. rewrite HI in HP.
  injection HP as <-.
  rewrite to_pypi_steps. unfold SemanticVersion.version_info.
  cbn [SemanticVersion.semver_parts].
  rewrite (pypi_build_dev pv Dv Hn).
  assert (P : VersionInfo.prerelease (SemanticVersion.pypi_to_semver pv)
              = None).
  { unfold SemanticVersion.pypi_to_semver. cbn [VersionInfo.prerelease].
    now rewrite Ppre. }
  rewrite P. cbn [to_pypi_prerelease VersionInfo.falsy bind].
  unfold to_pypi_build.
  cbn [lit list_ascii_of_string app VersionInfo.falsy VersionInfo.or_empty
       startswith Ascii.eqb Bool.eqb andb].
  change ("d" :: "e" :: "v" :: "." :: dec n ++ ?x)
    with (lit "dev" ++ "." :: dec n ++ x).
  rewrite split_1_word_dec; [reflexivity | reflexivity |].
  destruct (PyPIVersion.post pv) as [m|]; [|now left].
  destruct (m =? 0)%N; [now left | right; now eexists].
Qed.

Lemma X16_to_pypi_drops_post_after_dev_witness :
  SemanticVersion.to_pypi
    (SemanticVersion.Build
       (VersionInfo.Build 1 0 0 None (Some (lit "dev.1.post2")))
       (lit "1.0.0.post2.dev1") [] PYPI) =
  Ok (lit "1.0.0" ++ lit ".dev" ++ dec 1).
Proof.
  apply (@X16_to_pypi_drops_post_after_dev (lit "1.0.0.post2.dev1") []
           (lit "1.0.0.post2.dev1")
           (PyPIVersion.Build 0 [1%N; 0%N; 0%N] None
              (Some (lit "post", 2%N)) (Some (lit "dev", 1%N)))
           (SemanticVersion.Build
              (VersionInfo.Build 1 0 0 None (Some (lit "dev.1.post2")))
              (lit "1.0.0.post2.dev1") [] PYPI)
           1%N); try (vm_compute; reflexivity).
  discriminate.
Defined.

(** X17: where no keyword applies, [to_pypi] is [to_semver]: for a
    version whose prerelease does not start with [alpha.], [beta.] or
    [rc.] and whose build does not start with [dev.] or [post.], both
    render [major.minor.patch[-prerelease][+build]]. *)
Theorem X17_to_pypi_is_to_semver_without_keywords (v : SemanticVersion.t) :
  (forall k, In k ["alpha."; "beta."; "rc."]%string ->
     startswith (lit k)
       (VersionInfo.or_empty
          (VersionInfo.prerelease (SemanticVersion.version_info v)))
     = false) ->
  (forall k, In k ["dev."; "post."]%string ->
     startswith (lit k)
       (VersionInfo.or_empty
          (VersionInfo.build (SemanticVersion.version_info v)))
     = false) ->
  SemanticVersion.to_pypi v = Ok (SemanticVersion.to_semver v).
Proof.
  intros HP HB. rewrite to_pypi_steps.
  unfold SemanticVersion.to_semver, VersionInfo.__str__,
    to_pypi_prerelease, to_pypi_build.
  fold (triple_text (SemanticVersion.version_info v)).
  destruct (VersionInfo.falsy
              (VersionInfo.prerelease (SemanticVersion.version_info v)));
    cbv zeta;
    rewrite ?(HP "alpha."%string), ?(HP "beta."%string),
      ?(HP "rc."%string) by (simpl; tauto);
    cbn [bind];
    destruct (VersionInfo.falsy
                (VersionInfo.build (SemanticVersion.version_info v)));
    rewrite ?(HB "dev."%string), ?(HB "post."%string) by (simpl; tauto);
    reflexivity.
Qed.

Lemma X17_to_pypi_is_to_semver_without_keywords_witness :
  SemanticVersion.to_pypi
    (SemanticVersion.Build
       (VersionInfo.Build 1 0 0 None (Some (lit "build.1")))
       (lit "1.0.0+build.1") [] SEMVER) =
  Ok (lit "1.0.0+build.1").
Proof.
  apply (@X17_to_pypi_is_to_semver_without_keywords
           (SemanticVersion.Build
              (VersionInfo.Build 1 0 0 None (Some (lit "build.1")))
              (lit "1.0.0+build.1") [] SEMVER)).
  - intros k [<- | [<- | [<- | []]]]; reflexivity.
  - intros k [<- | [<- | []]]; reflexivity.
Defined.

(** ** The prefix of a version *)

Lemma not_at_head s :
  forallb not_at s = true -> headok not_at s = true.
Proof. destruct s; simpl; [reflexivity|]. now intros H%andb_prop. Qed.

(** The part [.+@] of the prefix pattern fails on a text without [@]. *)
Lemma name_at_fail A S g (k : str -> groups -> option A) :
  forallb not_at S = true ->
  run (Seq (Plus (Cls is_not_newline)) (Chr "@")) S g k = None.
Proof.
  intros F.
  destruct (run _ S g k) as [x|] eqn:E; [|reflexivity].
  apply run_sound in E as (s' & g' & M & _).
  apply Seq_inv in M as (s1 & g1 & M & MA).
  apply Chr_inv in MA as [-> _].
  apply Mat_suffix in M as [w ->].
  rewrite forallb_app in F. apply andb_prop in F as [_ F].
  discriminate F.
Qed.

(** The part [.+@] of the prefix pattern goes to the last [@]. *)
Lemma name_at_last A name R g (k : str -> groups -> option A) x :
  name <> [] -> forallb is_not_newline name = true ->
  forallb not_at R = true -> k R g = Some x ->
  run (Seq (Plus (Cls is_not_newline)) (Chr "@")) (name ++ "@" :: R) g k
  = Some x.
Proof.
  intros NE F FR K. destruct name as [|c w]; [contradiction|].
  simpl in F. apply andb_prop in F as [Pc F].
  unfold Plus. rewrite !run_Seq. cbn [app run]. rewrite Pc.
  apply (@star_loop_last _ is_not_newline); trivial.
  - intros u v E U _. destruct u as [|a u]; [contradiction|].
    injection E as _ ->.
    rewrite forallb_app in FR. apply andb_prop in FR as [_ FR].
    apply not_at_head in FR.
    destruct v as [|b v]; [reflexivity|].
    rewrite run_Chr. simpl in FR. unfold not_at, is_chr in FR.
    now destruct (Ascii.eqb b "@").
  - rewrite length_app. simpl. lia.
Qed.

(** The first group of the prefix pattern takes a prefix in front of a
    text without [@]. *)
Lemma prefix_group A pfx s g (k : str -> groups -> option A) x :
  is_prefix_text pfx -> forallb not_at s = true ->
  k s g = Some x ->
  run (Alt (Seq (Opt (Seq (Plus (Cls is_not_newline)) (Chr "@")))
                (Chr "v"))
           (Chr "V")) (pfx ++ s) g k = Some x.
Proof.
  intros [-> | [-> | (name & NE & F & ->)]] Fs K;
    rewrite run_Alt, run_Seq; unfold Opt; rewrite run_Alt.
  - rewrite name_at_fail by exact Fs.
    cbn [run lit list_ascii_of_string app]. rewrite run_Chr.
    cbn [Ascii.eqb Bool.eqb]. now rewrite K.
  - rewrite name_at_fail by exact Fs.
    cbn [run lit list_ascii_of_string app]. rewrite !run_Chr.
    cbn [Ascii.eqb Bool.eqb]. exact K.
  - rewrite <- app_assoc. cbn [lit list_ascii_of_string app].
    now rewrite (@name_at_last _ name ("v" :: s) g _ x).
Qed.

(** The prefix pattern splits a prefix off a line without [@]. *)
Lemma prefix_re_split pfx s :
  is_prefix_text pfx ->
  forallb is_not_newline s = true -> forallb not_at s = true ->
  re_match SemanticVersion.prefix_re (pfx ++ s) =
  Some [("2"%string, s); ("1"%string, pfx)].
Proof.
  intros P F Fa. unfold re_match, SemanticVersion.prefix_re.
  rewrite run_Seq, run_Grp.
  apply prefix_group; trivial.
  rewrite firstn_matched. now apply rest_group.
Qed.

(** The prefix pattern rejects a text without [@] that starts with
    neither [v] nor [V]. *)
Lemma prefix_re_no_match s :
  forallb not_at s = true ->
  startswith (lit "v") s = false -> startswith (lit "V") s = false ->
  re_match SemanticVersion.prefix_re s = None.
Proof.
  intros F Hv HV. apply re_match_none. intros s' g M.
  apply Seq_inv in M as (s1 & g1 & M & _).
  apply Grp_inv in M as (g0 & M & _).
  apply Alt_inv in M as [M | M].
  - apply Seq_inv in M as (s2 & g2 & M & MV).
    apply Chr_inv in MV as [-> _].
    apply Opt_inv in M as [M | [E _]].
    + apply Seq_inv in M as (s3 & g3 & M & MA).
      apply Chr_inv in MA as [-> _].
      apply Mat_suffix in M as [w E]. rewrite E in F.
      rewrite forallb_app in F. apply andb_prop in F as [_ F].
      discriminate F.
    + subst s. discriminate Hv.
  - apply Chr_inv in M as [-> _]. discriminate HV.
Qed.

(** The decoders use the prefix and the input for the envelope only. *)
Lemma decoders_envelope ver pfx orig :
  let relabel r :=
    match r with
    | Ok v => Ok (with_prefix pfx orig v)
    | Raise e => Raise e
    end in
  SemanticVersion._parse_semver ver pfx orig =
    relabel (SemanticVersion._parse_semver ver [] ver) /\
  SemanticVersion._parse_pypi ver pfx orig =
    relabel (SemanticVersion._parse_pypi ver [] ver) /\
  SemanticVersion._parse_legacy ver pfx orig =
    relabel (SemanticVersion._parse_legacy ver [] ver).
Proof.
  unfold SemanticVersion._parse_semver, SemanticVersion._parse_pypi,
    SemanticVersion._parse_legacy. cbv zeta. repeat split.
  - destruct (VersionInfo.parse ver true) as [vi|[]]; reflexivity.
  - destruct (PyPIVersion.__init__ ver) as [pv|e]; reflexivity.
  - destruct (VersionInfo.parse _ true) as [vi|[]]; reflexivity.
Qed.

(** X18: a prefix is transparent.  For a one-line text [s] without [@]
    that starts with neither [v] nor [V], putting [v], [V] or [name@v] in
    front changes nothing but the envelope: [parse] fails on both or
    succeeds on both, with the same error, or with the same version parts
    and format, the prefix being recorded and the input kept. *)
Theorem X18_prefix_is_transparent (pfx s : str) :
  is_prefix_text pfx ->
  forallb is_not_newline s = true -> forallb not_at s = true ->
  startswith (lit "v") s = false -> startswith (lit "V") s = false ->
  SemanticVersion.parse (pfx ++ s) =
  match SemanticVersion.parse s with
  | Ok v => Ok (with_prefix pfx (pfx ++ s) v)
  | Raise e => Raise e
  end.
Proof.
  intros P F Fa Hv HV. rewrite !parse_unfold. unfold split_prefix.
  rewrite (@prefix_re_split pfx s P F Fa), (@prefix_re_no_match s Fa Hv HV).
  cbn [group String.eqb Ascii.eqb Bool.eqb VersionInfo.or_empty fst snd].
  destruct (decoders_envelope s pfx (pfx ++ s)) as (-> & -> & ->).
  destruct (SemanticVersion._parse_semver s [] s) as [v|[]];
    try reflexivity.
  destruct (SemanticVersion._parse_pypi s [] s) as [v|[]]; reflexivity.
Qed.

Lemma X18_prefix_is_transparent_witness :
  SemanticVersion.parse (lit "pkg@v" ++ lit "1.2.3") =
  match SemanticVersion.parse (lit "1.2.3") with
  | Ok v => Ok (with_prefix (lit "pkg@v") (lit "pkg@v" ++ lit "1.2.3") v)
  | Raise e => Raise e
  end.
Proof.
  apply (@X18_prefix_is_transparent (lit "pkg@v") (lit "1.2.3"));
    try reflexivity.
  right. right. exists (lit "pkg").
  split; [discriminate | split; reflexivity].
Defined.

(** ** The pattern of [from_str] *)

(** The first group takes the first operator, in the order of the
    pattern, that the text starts with. *)
Lemma operator_group A op R g (k : str -> groups -> option A) x :
  In op tokens -> startswith (lit "=") R = false ->
  k R g = Some x ->
  run (Alt (Lit (lit "!=")) (Alt (Lit (lit "<=")) (Alt (Lit (lit ">="))
      (Alt (Chr "<") (Alt (Chr ">") (Alt (Lit (lit "==")) (Chr "=")))))))
    (op ++ R) g k = Some x.
Proof.
  intros I H K.
  assert (E : match R with
              | c :: _ => Ascii.eqb c "=" = false
              | [] => True
              end).
  { destruct R as [|c R]; [constructor|].
    cbn [startswith lit list_ascii_of_string] in H.
    rewrite andb_true_r in H. now rewrite Ascii.eqb_sym. }
  unfold tokens in I. simpl in I.
  destruct I as [<- | [<- | [<- | [<- | [<- | [<- | [<- | []]]]]]]];
    cbn [lit list_ascii_of_string app]; rewrite ?run_Alt;
    cbn [Lit lit list_ascii_of_string]; rewrite ?run_Seq, ?run_Chr;
    cbn [Ascii.eqb Bool.eqb]; rewrite ?run_Chr; cbn [Ascii.eqb Bool.eqb];
    rewrite ?K; try reflexivity;
    destruct R as [|c R]; cbn [run Chr]; unfold is_chr;
    rewrite ?E, ?K; reflexivity.
Qed.

(** What the pattern of [from_str] reads in an operator followed by
    a text that does not start with [=]. *)
Lemma predicate_re_match op Y :
  In op tokens -> startswith (lit "=") Y = false ->
  re_match VersionPredicate.predicate_re (op ++ Y) =
  Some [("2"%string, line (lstrip Y)); ("1"%string, op)].
Proof.
  intros I H. unfold re_match, VersionPredicate.predicate_re.
  rewrite run_Seq, run_Grp.
  apply operator_group; trivial.
  rewrite firstn_matched. apply version_group.
Qed.

Lemma space_not_equals c : is_space c = true -> Ascii.eqb "=" c = false.
Proof. by_char c. Qed.

Lemma startswith_spaces ws t :
  forallb is_space ws = true -> startswith (lit "=") t = false ->
  startswith (lit "=") (ws ++ t) = false.
Proof.
  intros F H. destruct ws as [|c ws]; [exact H|].
  simpl in F. apply andb_prop in F as [F _].
  cbn [app startswith lit list_ascii_of_string].
  now rewrite (space_not_equals c F).
Qed.

Lemma startswith_rstrip q t :
  startswith q t = false -> startswith q (rstrip t) = false.
Proof.
  intros H. destruct (startswith q (rstrip t)) eqn:E; [|reflexivity].
  destruct (rstrip_split t) as (ws & Et & _).
  apply (startswith_prefix _ _ ws) in E. rewrite <- Et in E. congruence.
Qed.

(** What [from_str] reads in an operator followed by a text that does not
    start with [=], whatever whitespace is around them. *)
Lemma from_str_match op ws1 ws2 text ws3 :
  In op tokens ->
  forallb is_space ws1 = true -> forallb is_space ws2 = true ->
  forallb is_space ws3 = true ->
  startswith (lit "=") text = false ->
  re_match VersionPredicate.predicate_re
    (strip (ws1 ++ op ++ ws2 ++ text ++ ws3)) =
  Some [("2"%string, line (lstrip (rstrip text))); ("1"%string, op)].
Proof.
  intros I F1 F2 F3 H.
  replace (ws1 ++ op ++ ws2 ++ text ++ ws3)
    with (ws1 ++ (op ++ ws2 ++ text) ++ ws3)
    by now rewrite <- !app_assoc.
  rewrite strip_pad by assumption.
  destruct (token_word I) as (NE & H1 & H2).
  rewrite strip_word by assumption.
  rewrite predicate_re_match.
  - now rewrite lstrip_rstrip_spaces.
  - exact I.
  - now apply startswith_rstrip, startswith_spaces.
Qed.

(** X19: whitespace around a predicate, and between its operator and its
    version, plays no part: for each operator of the pattern and a text
    that does not start with [=], [from_str] returns the same predicate,
    or raises the same error, with and without the whitespace. *)
Theorem X19_from_str_ignores_whitespace (op ws1 ws2 ws3 text : str) :
  In op tokens ->
  forallb is_space ws1 = true -> forallb is_space ws2 = true ->
  forallb is_space ws3 = true ->
  startswith (lit "=") text = false ->
  VersionPredicate.from_str (ws1 ++ op ++ ws2 ++ text ++ ws3) =
  VersionPredicate.from_str (op ++ text).
Proof.
  intros I F1 F2 F3 H. unfold VersionPredicate.from_str. cbv zeta.
  rewrite from_str_match by assumption.
  pose proof (@from_str_match op [] [] text [] I eq_refl eq_refl eq_refl H)
    as E.
  cbn [app] in E. rewrite app_nil_r in E. now rewrite E.
Qed.

Lemma X19_from_str_ignores_whitespace_witness :
  VersionPredicate.from_str
    (lit "  " ++ lit ">=" ++ lit " " ++ lit "1.2.3" ++ lit " ") =
  VersionPredicate.from_str (lit ">=" ++ lit "1.2.3").
Proof.
  apply (@X19_from_str_ignores_whitespace (lit ">=") (lit "  ") (lit " ")
           (lit " ") (lit "1.2.3")); try reflexivity.
  unfold tokens. simpl. tauto.
Defined.

(** X20: [=] is read as [==]: in front of any text that does not itself
    start with [=], the two operators give the same predicate, whose
    operator is [==], or the same error. *)
Theorem X20_single_equals_is_double_equals (text : str) :
  startswith (lit "=") text = false ->
  VersionPredicate.from_str (lit "=" ++ text) =
  VersionPredicate.from_str (lit "==" ++ text).
Proof.
  intros H. unfold VersionPredicate.from_str. cbv zeta.
  assert (I1 : In (lit "=") tokens) by (unfold tokens; simpl; tauto).
  assert (I2 : In (lit "==") tokens) by (unfold tokens; simpl; tauto).
  pose proof (@from_str_match _ [] [] text [] I1 eq_refl eq_refl eq_refl H)
    as E1.
  pose proof (@from_str_match _ [] [] text [] I2 eq_refl eq_refl eq_refl H)
    as E2.
  cbn [app] in E1, E2. rewrite app_nil_r in E1, E2.
  rewrite E1, E2. reflexivity.
Qed.

Lemma X20_single_equals_is_double_equals_witness :
  VersionPredicate.from_str (lit "=" ++ lit "1.2.3") =
  VersionPredicate.from_str (lit "==" ++ lit "1.2.3").
Proof.
  apply (@X20_single_equals_is_double_equals (lit "1.2.3")).
  reflexivity.
Defined.

Lemma version_char_not_space c :
  is_version_char c = true -> not_space c = true.
Proof. by_char c. Qed.

Lemma version_char_not_newline c :
  is_version_char c = true -> is_not_newline c = true.
Proof. by_char c. Qed.

Lemma rstrip_not_space t : forallb not_space t = true -> rstrip t = t.
Proof.
  intros F. unfold rstrip.
  rewrite lstrip_not_space by now apply forallb_rev.
  apply rev_involutive.
Qed.

(** X21: the text of a predicate reads back as the predicate: for every
    predicate [p] that [from_str] returns, [from_str (str p)] returns the
    operator and the version of [p]; the format becomes SEMVER, whatever
    format the version was first written in. *)
Theorem X21_from_str_of_str (s : str) (p : VersionPredicate.t) :
  VersionPredicate.from_str s = Ok p ->
  VersionPredicate.from_str (VersionPredicate.__str__ p) =
  Ok (VersionPredicate.Build (VersionPredicate.operator p)
        (VersionPredicate.version p) SEMVER).
Proof.
  intros H. apply from_str_Ok in H as (op & v & I & -> & W & _).
  set (vi := SemanticVersion.version_info v) in *.
  unfold VersionPredicate.__str__.
  cbn [VersionPredicate.operator VersionPredicate.version].
  assert (C : forallb is_version_char (VersionInfo.__str__ vi) = true).
  { rewrite (str_text W). destruct W. now apply version_text_chars. }
  assert (D : startswith (lit "=") (VersionInfo.__str__ vi) = false).
  { rewrite (str_text W).
    destruct (version_text_head (VersionInfo.major vi)
                (VersionInfo.minor vi) (VersionInfo.patch vi)
                (VersionInfo.prerelease vi) (VersionInfo.build vi))
      as (c & t & -> & Dc).
    cbn [startswith lit list_ascii_of_string].
    rewrite Ascii.eqb_sym, (digit_not_equals c Dc). reflexivity. }
  assert (T : In op tokens).
  { unfold operators in I. unfold tokens. simpl in *. tauto. }
  pose proof (@from_str_match op [] [] _ [] T eq_refl eq_refl eq_refl D)
    as E.
  cbn [app] in E. rewrite app_nil_r in E.
  rewrite rstrip_not_space in E
    by (revert C; apply forallb_weaken, version_char_not_space).
  rewrite lstrip_not_space in E
    by (revert C; apply forallb_weaken, version_char_not_space).
  rewrite line_all in E
    by (revert C; apply forallb_weaken, version_char_not_newline).
  unfold VersionPredicate.from_str. cbv zeta. rewrite E.
  cbn [group String.eqb Ascii.eqb Bool.eqb VersionInfo.or_empty].
  rewrite (parse_text W).
  cbn [SemanticVersion.version_info SemanticVersion.semver_parts
       SemanticVersion.version_format].
  unfold operators in I. simpl in I.
  destruct I as [<- | [<- | [<- | [<- | [<- | [<- | []]]]]]]; reflexivity.
Qed.

Lemma X21_from_str_of_str_witness :
  VersionPredicate.from_str
    (VersionPredicate.__str__
       (VersionPredicate.Build (lit ">=") (lit "1.0.0-alpha.1") PYPI)) =
  Ok (VersionPredicate.Build (lit ">=") (lit "1.0.0-alpha.1") SEMVER).
Proof.
  apply (@X21_from_str_of_str (lit ">= 1.0.0a1")
           (VersionPredicate.Build (lit ">=") (lit "1.0.0-alpha.1") PYPI)).
  vm_compute. reflexivity.
Defined.

(** ** Versions written without minor or patch *)

Lemma suffix_no_dot pre b t :
  pre_suffix pre ++ build_suffix b <> "." :: t.
Proof. destruct pre, b; discriminate. Qed.

(** The pattern with optional minor and patch reads a short text in one
    way only. *)
Lemma semver_short_unique M m pre b s' g :
  full_opt VersionInfo.prerelease_re pre ->
  full_opt VersionInfo.build_re b ->
  Mat (VersionInfo.semver_re true) (short_text M m pre b) [] s' g ->
  g = short_groups M m pre b.
Proof.
  intros Fp Fb M0. rewrite semver_re_eq in M0. unfold short_text in M0.
  apply Seq_inv in M0 as (s1 & g1 & MM & M1).
  pose proof (Mat_guarded stop_core M1 (minor_tail_guarded true)) as G1.
  assert (HT : headok stop_core
                 (match m with Some m => "." :: dec m | None => [] end
                  ++ pre_suffix pre ++ build_suffix b) = true).
  { destruct m; [reflexivity | apply suffix_headok]. }
  destruct (numeral_group _ _ MM HT G1) as [-> ->].
  apply Seq_inv in M1 as (s2 & g2 & Mm & MT).
  pose proof (Mat_guarded stop_tail MT pre_tail_guarded) as GT.
  unfold short_groups.
  unfold minor_re in Mm. apply quant_inv in Mm as [Mm | (_ & -> & ->)].
  - apply Seq_inv in Mm as (s3 & g3 & MC & Mm).
    apply Chr_inv in MC as [E ->].
    destruct m as [m|]; [|now apply suffix_no_dot in E].
    injection E as <-.
    apply Seq_inv in Mm as (s4 & g4 & Mm & Mp).
    pose proof (Mat_guarded stop_core (MSeq Mp MT) (patch_tail_guarded true))
      as G4.
    destruct (numeral_group _ _ Mm (suffix_headok pre b) G4) as [-> ->].
    unfold patch_re in Mp. apply quant_inv in Mp as [Mp | (_ & -> & ->)].
    + apply Seq_inv in Mp as (s5 & g5 & MC & _).
      apply Chr_inv in MC as [E _]. now apply suffix_no_dot in E.
    + eapply pre_tail; eassumption.
  - destruct m as [m|]; [discriminate GT|].
    eapply pre_tail; eassumption.
Qed.

Lemma numeral_group_Mat name n T g :
  Mat (Grp name VersionInfo.numeric_re) (dec n ++ T) g T
    ((name, dec n) :: g).
Proof.
  pose proof (MGrp name (numeric_Mat n T g)) as H.
  now rewrite firstn_matched in H.
Qed.

Lemma semver_short_exists M m pre b :
  full_opt VersionInfo.prerelease_re pre ->
  full_opt VersionInfo.build_re b ->
  exists g,
    Mat (VersionInfo.semver_re true) (short_text M m pre b) [] [] g.
Proof.
  intros Fp Fb. rewrite semver_re_eq. unfold short_text.
  destruct m as [m|].
  - destruct (@pre_tail_Mat pre b
                [("minor"%string, dec m); ("major"%string, dec M)] Fp Fb)
      as [g' Mt].
    exists g'.
    eapply MSeq; [apply numeral_group_Mat|].
    eapply MSeq; [|exact Mt].
    apply MAltL. eapply MSeq; [apply Chr_Mat|].
    eapply MSeq; [apply numeral_group_Mat|].
    apply MAltR, MEps.
  - destruct (@pre_tail_Mat pre b [("major"%string, dec M)] Fp Fb)
      as [g' Mt].
    exists g'.
    eapply MSeq; [apply numeral_group_Mat|].
    eapply MSeq; [|exact Mt].
    apply MAltR, MEps.
Qed.

(** The semver parser fills in 0 for a missing patch, or minor and
    patch. *)
Lemma parse_short M m pre b :
  full_opt VersionInfo.prerelease_re pre ->
  full_opt VersionInfo.build_re b ->
  VersionInfo.parse (short_text M m pre b) true =
  Ok (VersionInfo.Build M
        (match m with Some m => m | None => 0%N end) 0 pre b).
Proof.
  intros Fp Fb. unfold VersionInfo.parse.
  destruct (re_match _ _) as [g|] eqn:E.
  - apply re_match_sound in E as [s' M0].
    apply semver_short_unique in M0; [|assumption|assumption]. subst g.
    assert (G : let g := short_groups M m pre b in
              group "major" g = Some (dec M) /\
              group "minor" g = option_map dec m /\
              group "patch" g = None /\ group "prerelease" g = pre /\
              group "build" g = b).
    { destruct m, pre, b; repeat split; reflexivity. }
    destruct G as (-> & -> & -> & -> & ->).
    rewrite int_part_dec.
    destruct m as [m|]; cbn [option_map];
      [rewrite int_part_or_0_dec|]; reflexivity.
  - exfalso.
    destruct (@semver_short_exists M m _ _ Fp Fb) as [g M0].
    now apply re_match_complete in M0.
Qed.

Lemma semver_text_no_prefix s vi :
  VersionInfo.parse s true = Ok vi ->
  re_match SemanticVersion.prefix_re s = None.
Proof.
  unfold VersionInfo.parse. intros H.
  destruct (re_match (VersionInfo.semver_re true) s) as [g|] eqn:R;
    [|discriminate H].
  apply re_match_sound in R as [s' M].
  destruct (semver_text_shape M) as [F D].
  now apply prefix_re_none_at.
Qed.

(** X22: a missing patch, or minor and patch, reads as 0.  A version
    written as [M] or [M.m], with or without a prerelease and a build of
    the semver form, is decoded by the semver decoder as [M.0.0] or
    [M.m.0] with that prerelease and build; so it is equal to, and renders
    as, the version written in full. *)
Theorem X22_missing_minor_patch_read_as_zero
    (M : N) (m : option N) (pre b : option str) :
  full_opt VersionInfo.prerelease_re pre ->
  full_opt VersionInfo.build_re b ->
  SemanticVersion.parse (short_text M m pre b) =
  Ok (SemanticVersion.Build
        (VersionInfo.Build M (match m with Some m => m | None => 0%N end)
           0 pre b)
        (short_text M m pre b) [] SEMVER).
Proof.
  intros Fp Fb. pose proof (parse_short M m _ _ Fp Fb) as H.
  unfold SemanticVersion.parse.
  rewrite (semver_text_no_prefix _ H).
  unfold SemanticVersion._parse_semver. now rewrite H.
Qed.

Lemma X22_missing_minor_patch_read_as_zero_witness :
  SemanticVersion.parse (lit "4.2-rc.1") =
  Ok (SemanticVersion.Build
        (VersionInfo.Build 4 2 0 (Some (lit "rc.1")) None)
        (lit "4.2-rc.1") [] SEMVER).
Proof.
  apply (@X22_missing_minor_patch_read_as_zero 4 (Some 2%N)
           (Some (lit "rc.1")) None).
  - apply (@pre_full_2 "r" (lit "c") 1); reflexivity.
  - exact I.
Defined.

(** ** PEP 440 releases *)

Lemma release_not_letter c :
  is_release_char c = true -> in_range "a" "z" (lower_char c) = false.
Proof. by_char c. Qed.

Lemma release_not_space c : is_release_char c = true -> is_space c = false.
Proof. by_char c. Qed.

Lemma release_not_sign c :
  is_release_char c = true ->
  c <> "!" /\ c <> "-" /\ c <> "+" /\ c <> "010" /\ c <> "_" /\ c <> "@".
Proof. by_char c. Qed.

Lemma digit_release c : is_digit c = true -> is_release_char c = true.
Proof. unfold is_release_char. now intros ->. Qed.

Lemma Mat_keeps q r s g s' g' :
  Mat r s g s' g' -> forallb q s = true -> forallb q s' = true.
Proof.
  intros M F. apply Mat_suffix in M as [w ->].
  rewrite forallb_app in F. now apply andb_prop in F.
Qed.

(** No word of the pattern starts a text of digits and dots. *)
Lemma word_not_release l s g s' g' :
  Mat (ILit (lit l)) s g s' g' -> forallb is_release_char s = true ->
  In l words -> False.
Proof.
  intros M F I. apply ILit_inv in M as (w & -> & L & _).
  assert (H : exists x t, lit l = x :: t /\ in_range "a" "z" x = true).
  { unfold words in I. simpl in I.
    repeat (destruct I as [<- | I]; [eexists _, _; split; reflexivity|]).
    contradiction. }
  destruct H as (x & t & E & R). rewrite E in L.
  destruct w as [|c w]; [discriminate L|].
  cbn [lower map] in L. injection L as Lc _.
  simpl in F. apply andb_prop in F as [Fc _].
  apply release_not_letter in Fc. rewrite Lc in Fc. congruence.
Qed.

Ltac no_word M F :=
  exfalso; apply (word_not_release M F); unfold words; simpl; tauto.

Ltac no_words M F :=
  repeat (apply Alt_inv in M as [M | M]; [no_word M F|]); no_word M F.

Lemma version_re_eq :
  PyPIVersion.version_re =
  Seq (Star (Cls is_space))
 (Seq (Opt (Cls (is_ichr "v")))
 (Seq (Opt (Seq (Grp "epoch" PyPIVersion.num_re) (Chr "!")))
 (Seq (Grp "release"
         (Seq PyPIVersion.num_re
              (Star (Seq (Chr ".") PyPIVersion.num_re))))
      after_release_re))).
Proof. reflexivity. Qed.

Lemma sep_keeps s g s' g' :
  Mat PyPIVersion.sep_re s g s' g' ->
  forallb is_release_char s = true -> forallb is_release_char s' = true.
Proof. apply Mat_keeps. Qed.

(** After a release, a text of digits and dots has nothing that the
    pattern could read: it must be empty. *)
Lemma after_release_nil s g s' g' :
  Mat after_release_re s g s' g' ->
  forallb is_release_char s = true ->
  s = [] /\ g' = g.
Proof.
  intros M F.
  cbv [after_release_re PyPIVersion.version_re] in M.
  apply Seq_inv in M as (s1 & g1 & M1 & M).
  assert (E1 : s1 = s /\ g1 = g).
  { apply Opt_inv in M1 as [M1 | M1]; [exfalso | exact M1].
    apply Grp_inv in M1 as (g0 & M1 & _).
    apply Seq_inv in M1 as (sa & ga & Ms & M1).
    pose proof (sep_keeps Ms F) as Fa.
    apply Seq_inv in M1 as (sb & gb & Ml & _).
    apply Grp_inv in Ml as (gc & Ml & _).
    no_words Ml Fa. }
  destruct E1 as [-> ->].
  apply Seq_inv in M as (s2 & g2 & M2 & M).
  assert (E2 : s2 = s /\ g2 = g).
  { apply Opt_inv in M2 as [M2 | M2]; [exfalso | exact M2].
    apply Grp_inv in M2 as (g0 & M2 & _).
    apply Alt_inv in M2 as [M2 | M2].
    - apply Seq_inv in M2 as (sa & ga & Mc & _).
      apply Chr_inv in Mc as [-> _]. discriminate F.
    - apply Seq_inv in M2 as (sa & ga & Ms & M2).
      pose proof (sep_keeps Ms F) as Fa.
      apply Seq_inv in M2 as (sb & gb & Ml & _).
      apply Grp_inv in Ml as (gc & Ml & _).
      no_words Ml Fa. }
  destruct E2 as [-> ->].
  apply Seq_inv in M as (s3 & g3 & M3 & M).
  assert (E3 : s3 = s /\ g3 = g).
  { apply Opt_inv in M3 as [M3 | M3]; [exfalso | exact M3].
    apply Grp_inv in M3 as (g0 & M3 & _).
    apply Seq_inv in M3 as (sa & ga & Ms & M3).
    pose proof (sep_keeps Ms F) as Fa.
    apply Seq_inv in M3 as (sb & gb & Ml & _).
    apply Grp_inv in Ml as (gc & Ml & _).
    no_word Ml Fa. }
  destruct E3 as [-> ->].
  apply Seq_inv in M as (s4 & g4 & M4 & M).
  assert (E4 : s4 = s /\ g4 = g).
  { apply Opt_inv in M4 as [M4 | M4]; [exfalso | exact M4].
    apply Seq_inv in M4 as (sa & ga & Mc & _).
    apply Chr_inv in Mc as [-> _]. discriminate F. }
  destruct E4 as [-> ->].
  apply Seq_inv in M as (s5 & g5 & M5 & M).
  destruct (Mat_plain M5 eq_refl) as [-> _].
  assert (W : within is_space (Star (Cls is_space))) by (simpl; auto).
  destruct (Mat_within is_space M5 W) as (w & -> & Fw).
  destruct w as [|c w].
  - apply Eol_inv in M as ([E | E] & _ & ->); [auto|].
    simpl in E. subst s5. discriminate F.
  - exfalso. simpl in F, Fw.
    apply andb_prop in F as [Fc _]. apply andb_prop in Fw as [Sc _].
    apply release_not_space in Fc. congruence.
Qed.

Lemma num_Mat n t g : Mat PyPIVersion.num_re (dec n ++ t) g t g.
Proof.
  pose proof (dec_not_nil n) as NE. pose proof (dec_digits n) as D.
  destruct (dec n) as [|c w]; [contradiction|].
  simpl in D. apply andb_prop in D as [Dc Dw].
  eapply MSeq; [now apply MCls | now apply Star_cls].
Qed.

Lemma release_Mat n ns t g :
  Mat (Seq PyPIVersion.num_re (Star (Seq (Chr ".") PyPIVersion.num_re)))
    (release_text n ns ++ t) g t g.
Proof.
  unfold release_text. rewrite <- app_assoc.
  eapply MSeq; [apply num_Mat|].
  induction ns as [|m ns IH]; [apply MStar0|].
  change (dotted (map dec (m :: ns)))
    with ("." :: dec m ++ dotted (map dec ns)).
  eapply MStarS; [| |exact IH].
  - cbn [app]. rewrite <- app_assoc.
    eapply MSeq; [apply Chr_Mat | apply num_Mat].
  - simpl. rewrite !length_app. lia.
Qed.

Lemma release_text_chars n ns :
  forallb is_release_char (release_text n ns) = true.
Proof.
  assert (D : forall k, forallb is_release_char (dec k) = true).
  { intros k. apply (forallb_weaken is_digit); [apply digit_release|].
    apply dec_digits. }
  unfold release_text. rewrite forallb_app, D. simpl.
  induction ns as [|m ns IH]; [reflexivity|].
  change (dotted (map dec (m :: ns)))
    with ("." :: dec m ++ dotted (map dec ns)).
  simpl. now rewrite forallb_app, D, IH.
Qed.

Lemma release_text_head n ns :
  exists c t, release_text n ns = c :: t /\ is_digit c = true.
Proof.
  unfold release_text.
  pose proof (dec_not_nil n) as NE. pose proof (dec_digits n) as D.
  destruct (dec n) as [|c w]; [contradiction|].
  simpl in D. apply andb_prop in D as [D _].
  exists c. eexists. split; [reflexivity | exact D].
Qed.

(** [VERSION_PATTERN] reads a text of numbers and dots as a release and
    nothing else. *)
Lemma version_re_release n ns s' g :
  Mat PyPIVersion.version_re (release_text n ns) [] s' g ->
  g = [("release"%string, release_text n ns)].
Proof.
  pose proof (release_text_chars n ns) as F.
  destruct (release_text_head n ns) as (c & t & ET & Dc).
  remember (release_text n ns) as T eqn:HT. clear HT.
  rewrite version_re_eq. intros M.
  apply Seq_inv in M as (s1 & g1 & M1 & M).
  destruct (Mat_plain M1 eq_refl) as [-> _].
  assert (W : within is_space (Star (Cls is_space))) by (simpl; auto).
  destruct (Mat_within is_space M1 W) as (w & E & Fw). clear M1 W.
  assert (w = []) as ->.
  { destruct w as [|x w]; [reflexivity|]. exfalso.
    rewrite E in F. simpl in F, Fw.
    apply andb_prop in F as [Fc _]. apply andb_prop in Fw as [Sc _].
    apply release_not_space in Fc. congruence. }
  simpl in E. subst s1.
  apply Seq_inv in M as (s2 & g2 & M2 & M).
  assert (E2 : s2 = T /\ g2 = []).
  { apply Opt_inv in M2 as [M2 | M2]; [exfalso | exact M2].
    apply Cls_inv in M2 as (x & E & V & _). rewrite E in F.
    simpl in F. apply andb_prop in F as [Fc _].
    apply release_not_letter in Fc. unfold is_ichr in V.
    apply Ascii.eqb_eq in V. rewrite V in Fc. discriminate Fc. }
  destruct E2 as [-> ->].
  apply Seq_inv in M as (s3 & g3 & M3 & M).
  assert (E3 : s3 = T /\ g3 = []).
  { apply Opt_inv in M3 as [M3 | M3]; [exfalso | exact M3].
    apply Seq_inv in M3 as (sa & ga & Me & Mc).
    apply Chr_inv in Mc as [-> _].
    apply (Mat_keeps is_release_char Me) in F. discriminate F. }
  destruct E3 as [-> ->].
  apply Seq_inv in M as (s4 & g4 & M4 & M).
  apply Grp_inv in M4 as (g0 & M4 & ->).
  destruct (Mat_plain M4 eq_refl) as [-> _].
  pose proof (Mat_keeps is_release_char M4 F) as F4.
  destruct (after_release_nil M F4) as [-> ->].
  simpl. now rewrite Nat.sub_0_r, firstn_all.
Qed.

Lemma version_re_release_exists n ns :
  exists g, Mat PyPIVersion.version_re (release_text n ns) [] [] g.
Proof.
  eexists. rewrite version_re_eq.
  eapply MSeq; [apply MStar0|].
  eapply MSeq; [apply MAltR, MEps|].
  eapply MSeq; [apply MAltR, MEps|].
  eapply MSeq.
  - apply MGrp. rewrite <- (app_nil_r (release_text n ns)).
    apply release_Mat.
  - cbv [after_release_re PyPIVersion.version_re].
    eapply MSeq; [apply MAltR, MEps|].
    eapply MSeq; [apply MAltR, MEps|].
    eapply MSeq; [apply MAltR, MEps|].
    eapply MSeq; [apply MAltR, MEps|].
    eapply MSeq; [apply MStar0 | apply MEol; now left].
Qed.

Lemma split_dot_release n ns :
  split_dot (release_text n ns) = map dec (n :: ns).
Proof.
  assert (D : forall k, forallb (fun c => negb (is_chr "." c)) (dec k)
                        = true).
  { intros k. apply (forallb_weaken is_digit); [|apply dec_digits].
    intros c. by_char c. }
  unfold release_text. revert n.
  induction ns as [|m ns IH]; intros n.
  - unfold dotted. simpl. rewrite app_nil_r. now apply split_dot_no_dot.
  - change (dotted (map dec (m :: ns)))
      with ("." :: dec m ++ dotted (map dec ns)).
    rewrite split_dot_app_dot by apply D. now rewrite IH.
Qed.

Lemma ints_dec ns : PyPIVersion.ints (map dec ns) = Ok ns.
Proof.
  induction ns as [|n ns IH]; [reflexivity|].
  simpl. unfold PyPIVersion.int_. now rewrite py_int_dec, IH.
Qed.

(** [Version] of a text of numbers and dots: the numbers as the release,
    and nothing else. *)
Lemma init_release n ns :
  PyPIVersion.__init__ (release_text n ns) =
  Ok (PyPIVersion.Build 0 (n :: ns) None None None).
Proof.
  unfold PyPIVersion.__init__.
  destruct (re_match _ _) as [g|] eqn:E.
  - apply re_match_sound in E as [s' M].
    apply version_re_release in M. subst g.
    cbn [group String.eqb Ascii.eqb Bool.eqb VersionInfo.or_empty].
    rewrite split_dot_release, ints_dec. reflexivity.
  - exfalso. destruct (version_re_release_exists n ns) as [g M].
    now apply re_match_complete in M.
Qed.

(** The semver pattern rejects a fourth number. *)
Lemma semver_rejects_four a b c d ns :
  re_match (VersionInfo.semver_re true)
    (release_text a (b :: c :: d :: ns)) = None.
Proof.
  apply re_match_none. intros s' g M0.
  unfold release_text in M0.
  change (dotted (map dec (b :: c :: d :: ns)))
    with ("." :: dec b ++ "." :: dec c ++ "." :: dec d
              ++ dotted (map dec ns)) in M0.
  rewrite semver_re_eq in M0.
  apply Seq_inv in M0 as (s1 & g1 & MM & M1).
  pose proof (Mat_guarded stop_core M1 (minor_tail_guarded true)) as G1.
  destruct (numeral_group _ _ MM eq_refl G1) as [-> ->].
  apply Seq_inv in M1 as (s2 & g2 & Mm & MT).
  pose proof (Mat_guarded stop_tail MT pre_tail_guarded) as GT.
  unfold minor_re in Mm.
  apply quant_inv in Mm as [Mm | (_ & -> & ->)]; [|discriminate GT].
  apply Seq_inv in Mm as (s3 & g3 & MC & Mm).
  apply Chr_inv in MC as [E ->]. injection E as <-.
  apply Seq_inv in Mm as (s4 & g4 & Mm & Mp).
  pose proof (Mat_guarded stop_core (MSeq Mp MT) (patch_tail_guarded true))
    as G4.
  destruct (numeral_group _ _ Mm eq_refl G4) as [-> ->].
  unfold patch_re in Mp.
  apply quant_inv in Mp as [Mp | (_ & -> & ->)]; [|discriminate GT].
  apply Seq_inv in Mp as (s5 & g5 & MC & Mp).
  apply Chr_inv in MC as [E ->]. injection E as <-.
  assert (G2 : headok stop_core s2 = true).
  { revert GT. apply headok_weaken, stop_tail_core. }
  destruct (numeral_group _ _ Mp eq_refl G2) as [-> _].
  discriminate GT.
Qed.

(** X23: a release of more than three numbers is cut to three.  A text
    [a.b.c.d...] of four or more numbers is rejected by the semver
    decoder and read by the PEP 440 decoder, which keeps [a], [b] and [c]
    and drops the rest: the result has the format PYPI and the version
    [a.b.c], so that two such texts with the same first three numbers
    give equal versions. *)
Theorem X23_release_cut_to_three_numbers (a b c d : N) (ns : list N) :
  SemanticVersion.parse (release_text a (b :: c :: d :: ns)) =
  Ok (SemanticVersion.Build (VersionInfo.Build a b c None None)
        (release_text a (b :: c :: d :: ns)) [] PYPI).
Proof.
  unfold SemanticVersion.parse.
  rewrite prefix_re_none_at.
  - unfold SemanticVersion._parse_semver, VersionInfo.parse.
    rewrite semver_rejects_four.
    unfold SemanticVersion._parse_pypi. now rewrite init_release.
  - apply (forallb_weaken is_release_char); [|apply release_text_chars].
    intros x H. apply release_not_sign in H. unfold not_at, is_chr.
    destruct (Ascii.eqb_spec x "@"); [tauto | reflexivity].
  - apply release_text_head.
Qed.

(** ** PEP 440 prereleases *)

Lemma ILit_strip l : forall s g s' g',
  Mat (ILit l) s g s' g' -> ilit_strip l s = Some s' /\ g' = g.
Proof.
  induction l as [|c l IH]; intros s g s' g' M.
  - apply Eps_inv in M as [-> ->]. now destruct s.
  - destruct l as [|d l].
    + apply Cls_inv in M as (x & -> & E & ->). simpl. now rewrite E.
    + change (ILit (c :: d :: l))
        with (Seq (Cls (is_ichr c)) (ILit (d :: l))) in M.
      apply Seq_inv in M as (s1 & g1 & MC & M).
      apply Cls_inv in MC as (x & -> & E & ->).
      apply IH in M as [M ->]. cbn [ilit_strip]. now rewrite E.
Qed.

Lemma ilit_strip_Mat l : forall s s' g,
  ilit_strip l s = Some s' -> Mat (ILit l) s g s' g.
Proof.
  induction l as [|c l IH]; intros s s' g H.
  - destruct s; injection H as <-; apply MEps.
  - destruct s as [|x s]; [discriminate H|]. cbn [ilit_strip] in H.
    destruct (is_ichr c x) eqn:E; [|discriminate H].
    destruct l as [|d l].
    + simpl in H. injection H as <-. now apply MCls.
    + change (ILit (c :: d :: l))
        with (Seq (Cls (is_ichr c)) (ILit (d :: l))).
      eapply MSeq; [now apply MCls | now apply IH].
Qed.

Lemma prefix_split (q : ascii -> bool) (w s R X : str) :
  w ++ s = R ++ X -> forallb q w = true ->
  headok (fun c => negb (q c)) X = true ->
  exists u, R = w ++ u /\ s = u ++ X.
Proof.
  revert R. induction w as [|c w IH]; intros R E F H.
  - now exists R.
  - simpl in F. apply andb_prop in F as [Fc F].
    destruct R as [|d R].
    + simpl in E. subst X. simpl in H. rewrite Fc in H. discriminate H.
    + injection E as <- E. destruct (IH R E F H) as (u & -> & ->).
      now exists u.
Qed.

Lemma after_release_eq :
  after_release_re = Seq (Opt pre_group_re) after_pre_re.
Proof. reflexivity. Qed.

Lemma after_pre_nil s g s' g' :
  Mat after_pre_re s g s' g' ->
  forallb is_release_char s = true ->
  s = [] /\ g' = g.
Proof.
  intros M F. apply (@after_release_nil s g s' g'); [|exact F].
  rewrite after_release_eq. eapply MSeq; [apply MAltR, MEps | exact M].
Qed.

Lemma digit_not_ichr x c :
  is_digit c = true -> in_range "a" "z" x = true -> is_ichr x c = false.
Proof.
  intros D R. unfold is_ichr. destruct (Ascii.eqb_spec (lower_char c) x);
    [|reflexivity].
  subst x. apply digit_release, release_not_letter in D. congruence.
Qed.

Lemma dot_not_ichr x :
  in_range "a" "z" x = true -> is_ichr x "." = false.
Proof.
  intros R. unfold is_ichr. destruct (Ascii.eqb_spec (lower_char ".") x);
    [|reflexivity].
  subst x. discriminate R.
Qed.

Lemma release_not_ichr x c :
  is_release_char c = true -> in_range "a" "z" x = true ->
  is_ichr x c = false.
Proof.
  intros D R. unfold is_ichr. destruct (Ascii.eqb_spec (lower_char c) x);
    [|reflexivity].
  subst x. apply release_not_letter in D. congruence.
Qed.

(** No word of the pattern starts at a digit or a dot. *)
Lemma word_head_not_release l c r g s' g' :
  Mat (ILit (lit l)) (c :: r) g s' g' -> is_release_char c = true ->
  In l words -> False.
Proof.
  intros M F I. apply ILit_strip in M as [M _].
  assert (H : exists x t, lit l = x :: t /\ in_range "a" "z" x = true).
  { unfold words in I. simpl in I.
    repeat (destruct I as [<- | I]; [eexists _, _; split; reflexivity|]).
    contradiction. }
  destruct H as (x & t & E & R). rewrite E in M. cbn [ilit_strip] in M.
  rewrite (release_not_ichr x c F R) in M. discriminate M.
Qed.

Ltac no_word_at M F :=
  exfalso; apply (word_head_not_release M F); unfold words; simpl; tauto.

Ltac no_words_at M F :=
  repeat (apply Alt_inv in M as [M | M]; [no_word_at M F|]);
  no_word_at M F.

Lemma sep_not_digit c : is_sep c = true -> is_digit c = false.
Proof. by_char c. Qed.

Lemma numeric_head_release s :
  numeric_head s = true ->
  exists c r, s = c :: r /\ is_release_char c = true.
Proof.
  destruct s as [|c r]; [discriminate|]. simpl. intros H.
  exists c, r. split; [reflexivity|]. unfold is_release_char.
  destruct (is_digit c); [reflexivity|].
  simpl in H. now apply andb_prop in H as [-> _].
Qed.

Lemma sep_numeric s g s1 g1 :
  Mat PyPIVersion.sep_re s g s1 g1 -> numeric_head s = true ->
  exists c r, s1 = c :: r /\ is_release_char c = true.
Proof.
  intros M H. apply Opt_inv in M as [M | [-> _]].
  - apply Cls_inv in M as (c & -> & S & _). simpl in H.
    rewrite (sep_not_digit c S) in H. simpl in H.
    apply andb_prop in H as [_ H].
    destruct s1 as [|d r]; [discriminate H|].
    exists d, r. split; [reflexivity | now apply digit_release].
  - now apply numeric_head_release.
Qed.

(** After a release, the pattern cannot go on at a digit, or at a dot
    and a digit. *)
Lemma after_release_numeric s g s' g' :
  Mat after_release_re s g s' g' -> numeric_head s = true -> False.
Proof.
  intros M F.
  cbv [after_release_re PyPIVersion.version_re] in M.
  apply Seq_inv in M as (s1 & g1 & M1 & M).
  assert (E1 : s1 = s /\ g1 = g).
  { apply Opt_inv in M1 as [M1 | M1]; [exfalso | exact M1].
    apply Grp_inv in M1 as (g0 & M1 & _).
    apply Seq_inv in M1 as (sa & ga & Ms & M1).
    destruct (sep_numeric Ms F) as (c & r & -> & Fa).
    apply Seq_inv in M1 as (sb & gb & Ml & _).
    apply Grp_inv in Ml as (gc & Ml & _).
    no_words_at Ml Fa. }
  destruct E1 as [-> ->].
  apply Seq_inv in M as (s2 & g2 & M2 & M).
  assert (E2 : s2 = s /\ g2 = g).
  { apply Opt_inv in M2 as [M2 | M2]; [exfalso | exact M2].
    apply Grp_inv in M2 as (g0 & M2 & _).
    apply Alt_inv in M2 as [M2 | M2].
    - apply Seq_inv in M2 as (sa & ga & Mc & _).
      apply Chr_inv in Mc as [-> _]. discriminate F.
    - apply Seq_inv in M2 as (sa & ga & Ms & M2).
      destruct (sep_numeric Ms F) as (c & r & -> & Fa).
      apply Seq_inv in M2 as (sb & gb & Ml & _).
      apply Grp_inv in Ml as (gc & Ml & _).
      no_words_at Ml Fa. }
  destruct E2 as [-> ->].
  apply Seq_inv in M as (s3 & g3 & M3 & M).
  assert (E3 : s3 = s /\ g3 = g).
  { apply Opt_inv in M3 as [M3 | M3]; [exfalso | exact M3].
    apply Grp_inv in M3 as (g0 & M3 & _).
    apply Seq_inv in M3 as (sa & ga & Ms & M3).
    destruct (sep_numeric Ms F) as (c & r & -> & Fa).
    apply Seq_inv in M3 as (sb & gb & Ml & _).
    apply Grp_inv in Ml as (gc & Ml & _).
    no_word_at Ml Fa. }
  destruct E3 as [-> ->].
  apply Seq_inv in M as (s4 & g4 & M4 & M).
  assert (E4 : s4 = s /\ g4 = g).
  { apply Opt_inv in M4 as [M4 | M4]; [exfalso | exact M4].
    apply Seq_inv in M4 as (sa & ga & Mc & _).
    apply Chr_inv in Mc as [-> _]. discriminate F. }
  destruct E4 as [-> ->].
  apply Seq_inv in M as (s5 & g5 & M5 & M).
  assert (W : within is_space (Star (Cls is_space))) by (simpl; auto).
  destruct (Mat_within is_space M5 W) as (w & -> & Fw).
  destruct (numeric_head_release _ F) as (c & r & E & Fc).
  destruct w as [|x w].
  - simpl in E. subst s5.
    apply Eol_inv in M as ([E | E] & _); [discriminate E|].
    injection E as -> _. discriminate Fc.
  - injection E as -> _. simpl in Fw. apply andb_prop in Fw as [Sc _].
    apply release_not_space in Fc. congruence.
Qed.

(** ** Dots followed by digits *)

Lemma dots_ok_digits w s :
  forallb is_digit w = true -> dots_ok s = true -> dots_ok (w ++ s) = true.
Proof.
  intros F H. induction w as [|c w IH]; [exact H|].
  simpl in F. apply andb_prop in F as [Fc F].
  cbn [app dots_ok]. rewrite (IH F).
  assert (is_chr "." c = false) as -> by (revert Fc; by_char c).
  reflexivity.
Qed.

Lemma dots_ok_release n ns : dots_ok (release_text n ns) = true.
Proof.
  unfold release_text. apply dots_ok_digits; [apply dec_digits|].
  induction ns as [|m ns IH]; [reflexivity|].
  change (dotted (map dec (m :: ns)))
    with ("." :: dec m ++ dotted (map dec ns)).
  cbn [dots_ok]. cbn [is_chr Ascii.eqb Bool.eqb].
  rewrite (@dots_ok_digits _ _ (dec_digits m) IH).
  pose proof (dec_not_nil m) as NE. pose proof (dec_digits m) as D.
  destruct (dec m) as [|c w]; [contradiction|].
  simpl in D. apply andb_prop in D as [D _].
  cbn [app]. now rewrite D.
Qed.

Lemma dots_ok_suffix w u : dots_ok (w ++ u) = true -> dots_ok u = true.
Proof.
  induction w as [|c w IH]; [auto|].
  cbn [app dots_ok]. intros H. apply andb_prop in H as [_ H]. auto.
Qed.

(** What is left of a release in front of a letter starts as a number. *)
Lemma release_rest_numeric u X :
  u <> [] -> forallb is_release_char u = true -> dots_ok u = true ->
  numeric_head (u ++ X) = true.
Proof.
  intros NE F D. destruct u as [|c u]; [contradiction|].
  simpl in F. apply andb_prop in F as [Fc _].
  cbn [dots_ok] in D. apply andb_prop in D as [D _].
  cbn [app numeric_head]. unfold is_release_char in Fc.
  destruct (is_digit c); [reflexivity|]. simpl in Fc. rewrite Fc in *.
  destruct u as [|d u]; [discriminate D|]. simpl. exact D.
Qed.

(** ** Words in front of a number *)

Ltac ichr D :=
  cbn [lit list_ascii_of_string app ilit_strip];
  repeat match goal with
         | |- context [is_ichr ?x ?c] =>
             first [ is_var c; rewrite (@digit_not_ichr x c D eq_refl)
                   | let b := eval vm_compute in (is_ichr x c) in
                     change (is_ichr x c) with b ]
         end;
  cbv iota.

(** Of the words of a pre segment, only the letter itself is read in
    front of a number, and all of it. *)
Lemma pre_word_strip word l w d ds s :
  In (word, l) pre_words -> is_digit d = true ->
  In w ["alpha"; "a"; "beta"; "b"; "preview"; "pre"; "c"; "rc"]%string ->
  ilit_strip (lit w) (l ++ d :: ds) = Some s ->
  s = d :: ds.
Proof.
  intros I D W. unfold pre_words in I. simpl in I, W.
  destruct I as [E | [E | [E | []]]]; injection E as _ <-;
    repeat (destruct W as [<- | W]; [ichr D; congruence|]);
    contradiction.
Qed.

Lemma pre_word_exists word l d ds :
  In (word, l) pre_words -> is_digit d = true ->
  exists w,
    In w ["alpha"; "a"; "beta"; "b"; "preview"; "pre"; "c"; "rc"]%string /\
    ilit_strip (lit w) (l ++ d :: ds) = Some (d :: ds).
Proof.
  intros I D. unfold pre_words in I. simpl in I.
  destruct I as [E | [E | [E | []]]]; injection E as _ <-.
  - exists "a"%string. split; [simpl; tauto | reflexivity].
  - exists "b"%string. split; [simpl; tauto | reflexivity].
  - exists "rc"%string. split; [simpl; tauto | reflexivity].
Qed.

(** Of the words of a post segment, only [r] is read in front of a
    prerelease, from [rc]. *)
Lemma post_word_strip word l w d ds s :
  In (word, l) pre_words -> is_digit d = true ->
  In w ["post"; "rev"; "r"]%string ->
  ilit_strip (lit w) (l ++ d :: ds) = Some s ->
  s = "c" :: d :: ds.
Proof.
  intros I D W. unfold pre_words in I. simpl in I, W.
  destruct I as [E | [E | [E | []]]]; injection E as _ <-;
    repeat (destruct W as [<- | W]; [ichr D; congruence|]);
    contradiction.
Qed.

Lemma pre_letter_head word l t :
  In (word, l) pre_words ->
  exists x r, l ++ t = x :: r /\ In x ["a"; "b"; "r"] /\
              (is_sep x || is_space x || is_digit x) = false.
Proof.
  intros I. unfold pre_words in I. simpl in I.
  destruct I as [E | [E | [E | []]]]; injection E as _ <-;
    eexists _, _; (split; [reflexivity|]); simpl; tauto.
Qed.

Lemma after_pre_eq : after_pre_re = Seq (Opt post_group_re) after_post_re.
Proof. reflexivity. Qed.

(** After the post segment the pattern cannot go on at a letter of a
    prerelease. *)
Lemma after_post_letter x t g s' g' :
  Mat after_post_re (x :: t) g s' g' -> In x ["a"; "b"; "c"; "r"] -> False.
Proof.
  intros M I.
  assert (H : is_sep x = false /\ is_space x = false /\
              is_ichr "d" x = false /\ x <> "+" /\ x <> "010").
  { simpl in I. destruct I as [<- | [<- | [<- | [<- | []]]]];
      repeat split; discriminate. }
  destruct H as (Hsep & Hsp & Hd & Hplus & Hnl). clear I.
  cbv [after_post_re after_pre_re after_release_re PyPIVersion.version_re]
    in M.
  apply Seq_inv in M as (s3 & g3 & M3 & M).
  assert (E3 : s3 = x :: t /\ g3 = g).
  { apply Opt_inv in M3 as [M3 | M3]; [exfalso | exact M3].
    apply Grp_inv in M3 as (g0 & M3 & _).
    apply Seq_inv in M3 as (sa & ga & Ms & M3).
    apply Opt_inv in Ms as [Ms | [-> _]].
    - apply Cls_inv in Ms as (c & E & S & _). injection E as <- _.
      congruence.
    - apply Seq_inv in M3 as (sb & gb & Ml & _).
      apply Grp_inv in Ml as (gc & Ml & _).
      apply ILit_strip in Ml as [Ml _].
      cbn [lit list_ascii_of_string ilit_strip] in Ml.
      rewrite Hd in Ml. discriminate Ml. }
  destruct E3 as [-> ->].
  apply Seq_inv in M as (s4 & g4 & M4 & M).
  assert (E4 : s4 = x :: t /\ g4 = g).
  { apply Opt_inv in M4 as [M4 | M4]; [exfalso | exact M4].
    apply Seq_inv in M4 as (sa & ga & Mc & _).
    apply Chr_inv in Mc as [E _]. injection E as E _. contradiction. }
  destruct E4 as [-> ->].
  apply Seq_inv in M as (s5 & g5 & M5 & M).
  assert (W : within is_space (Star (Cls is_space))) by (simpl; auto).
  destruct (Mat_within is_space M5 W) as (w & E & Fw).
  destruct w as [|c w].
  - simpl in E. subst s5.
    apply Eol_inv in M as ([E | E] & _); [discriminate E|].
    injection E as E _. contradiction.
  - injection E as <- _. simpl in Fw. apply andb_prop in Fw as [Sc _].
    congruence.
Qed.

(** Without its pre segment the pattern cannot read a prerelease. *)
Lemma after_pre_letter word l d ds g s' g' :
  In (word, l) pre_words -> is_digit d = true ->
  Mat after_pre_re (l ++ d :: ds) g s' g' -> False.
Proof.
  intros I D M.
  destruct (pre_letter_head (d :: ds) I) as (x & r & E & Ix & Hx).
  apply orb_false_elim in Hx as [Hx Hdig].
  apply orb_false_elim in Hx as [Hsep Hsp].
  rewrite after_pre_eq in M.
  apply Seq_inv in M as (s2 & g2 & M2 & M).
  apply Opt_inv in M2 as [M2 | [-> ->]].
  - cbv [post_group_re after_pre_re after_release_re
         PyPIVersion.version_re] in M2.
    apply Grp_inv in M2 as (g0 & M2 & _).
    apply Alt_inv in M2 as [M2 | M2].
    + apply Seq_inv in M2 as (sa & ga & Mc & _).
      apply Chr_inv in Mc as [Ec _]. rewrite E in Ec.
      injection Ec as -> _. discriminate Hsep.
    + apply Seq_inv in M2 as (sa & ga & Ms & M2).
      assert (sa = l ++ d :: ds) as ->.
      { apply Opt_inv in Ms as [Ms | [-> _]]; [|reflexivity].
        apply Cls_inv in Ms as (c & Ec & S & _). rewrite E in Ec.
        injection Ec as <- _. congruence. }
      apply Seq_inv in M2 as (sb & gb & Ml & M2).
      apply Grp_inv in Ml as (gc & Ml & _).
      assert (sb = "c" :: d :: ds) as ->.
      { repeat (apply Alt_inv in Ml as [Ml | Ml];
                [apply ILit_strip in Ml as [Ml _];
                 apply (post_word_strip _ _ I D) in Ml;
                 [exact Ml | simpl; tauto]|]).
        apply ILit_strip in Ml as [Ml _].
        apply (post_word_strip _ _ I D) in Ml;
          [exact Ml | simpl; tauto]. }
      apply Seq_inv in M2 as (sc & gd & Ms2 & Mn).
      assert (sc = "c" :: d :: ds) as ->.
      { apply Opt_inv in Ms2 as [Ms2 | [-> _]]; [|reflexivity].
        apply Cls_inv in Ms2 as (c & Ec & S & _).
        injection Ec as <- _. discriminate S. }
      assert (s2 = "c" :: d :: ds) as ->.
      { apply Opt_inv in Mn as [Mn | [-> _]]; [|reflexivity].
        apply Grp_inv in Mn as (ge & Mn & _).
        apply Seq_inv in Mn as (sd & gf & Mn & _).
        apply Cls_inv in Mn as (c & Ec & S & _).
        injection Ec as <- _. discriminate S. }
      apply (after_post_letter M). simpl. tauto.
  - rewrite E in M. apply (after_post_letter M).
    simpl in Ix. simpl. tauto.
Qed.

(** The front of [VERSION_PATTERN] reads nothing in a text that starts
    with a digit and holds no [!]. *)
Lemma version_re_front T s' g :
  Mat PyPIVersion.version_re T [] s' g ->
  (exists c t, T = c :: t /\ is_digit c = true) ->
  forallb (fun c => negb (is_chr "!" c)) T = true ->
  exists s4 g4,
    Mat (Grp "release"
           (Seq PyPIVersion.num_re
                (Star (Seq (Chr ".") PyPIVersion.num_re)))) T [] s4 g4 /\
    Mat after_release_re s4 g4 s' g.
Proof.
  rewrite version_re_eq. intros M (c & t & -> & Dc) F.
  apply Seq_inv in M as (s1 & g1 & M1 & M).
  destruct (Mat_plain M1 eq_refl) as [-> _].
  assert (W : within is_space (Star (Cls is_space))) by (simpl; auto).
  destruct (Mat_within is_space M1 W) as (w & E & Fw). clear M1 W.
  assert (w = []) as ->.
  { destruct w as [|x w]; [reflexivity|]. exfalso.
    injection E as <- _. simpl in Fw. apply andb_prop in Fw as [Sc _].
    apply digit_release, release_not_space in Dc. congruence. }
  simpl in E. subst s1.
  apply Seq_inv in M as (s2 & g2 & M2 & M).
  assert (E2 : s2 = c :: t /\ g2 = []).
  { apply Opt_inv in M2 as [M2 | M2]; [exfalso | exact M2].
    apply Cls_inv in M2 as (x & E & V & _). injection E as <- _.
    rewrite digit_not_ichr in V by (exact Dc || reflexivity).
    discriminate V. }
  destruct E2 as [-> ->].
  apply Seq_inv in M as (s3 & g3 & M3 & M).
  assert (E3 : s3 = c :: t /\ g3 = []).
  { apply Opt_inv in M3 as [M3 | M3]; [exfalso | exact M3].
    apply Seq_inv in M3 as (sa & ga & Me & Mc).
    apply Chr_inv in Mc as [-> _].
    apply (Mat_keeps _ Me) in F. discriminate F. }
  destruct E3 as [-> ->].
  apply Seq_inv in M as (s4 & g4 & M4 & M). now exists s4, g4.
Qed.

Lemma release_within :
  within is_release_char
    (Seq PyPIVersion.num_re (Star (Seq (Chr ".") PyPIVersion.num_re))).
Proof.
  simpl. repeat split; intros c; by_char c.
Qed.

(** [VERSION_PATTERN] reads the text of a prerelease in one way only. *)
Lemma version_re_pre a b c word l n s' g :
  In (word, l) pre_words ->
  Mat PyPIVersion.version_re (pre_text a b c l n) [] s' g ->
  g = [("pre"%string, l ++ dec n); ("pre_n"%string, dec n);
       ("pre_l"%string, l); ("release"%string, release_text a [b; c])].
Proof.
  intros I M. unfold pre_text in *.
  pose proof (dec_not_nil n) as NE. pose proof (dec_digits n) as Dn.
  remember (dec n) as N eqn:HN. clear HN.
  destruct N as [|d ds]; [contradiction|]. clear NE.
  pose proof Dn as Dd. simpl in Dd. apply andb_prop in Dd as [Dd _].
  destruct (pre_letter_head (d :: ds) I) as (x & r & EX & Ix & Hx).
  apply orb_false_elim in Hx as [Hx Hdig].
  apply orb_false_elim in Hx as [Hsep Hsp].
  pose proof (release_text_chars a [b; c]) as FR.
  pose proof (dots_ok_release a [b; c]) as DR.
  destruct (release_text_head a [b; c]) as (c0 & t0 & ER & D0).
  remember (release_text a [b; c]) as R eqn:HR. clear HR.
  apply version_re_front in M as (s4 & g4 & M4 & M).
  - apply Grp_inv in M4 as (g0 & M4 & ->).
    destruct (Mat_plain M4 eq_refl) as [-> _].
    destruct (Mat_within is_release_char M4 release_within)
      as (w & E & Fw).
    assert (HX : headok (fun c => negb (is_release_char c)) (l ++ d :: ds)
                 = true).
    { rewrite EX. simpl in Ix. simpl.
      destruct Ix as [<- | [<- | [<- | []]]]; reflexivity. }
    destruct (prefix_split is_release_char w s4 R (l ++ d :: ds)
                (eq_sym E) Fw HX) as (u & ER' & ->).
    assert (u = []) as ->.
    { destruct u as [|y u]; [reflexivity|]. exfalso.
      apply (after_release_numeric M).
      rewrite ER' in FR, DR. rewrite forallb_app in FR.
      apply andb_prop in FR as [_ FR]. apply dots_ok_suffix in DR.
      apply release_rest_numeric; [discriminate | exact FR | exact DR]. }
    rewrite app_nil_r in ER'. subst w. cbn [app] in *.
    rewrite firstn_matched in M. clear M4 Fw E.
    rewrite after_release_eq in M.
    apply Seq_inv in M as (s5 & g5 & Mp & Mr).
    apply Opt_inv in Mp as [Mp | [-> ->]];
      [|exfalso; exact (@after_pre_letter word l d ds _ _ _ I Dd Mr)].
    cbv [pre_group_re after_release_re PyPIVersion.version_re] in Mp.
    apply Grp_inv in Mp as (g6 & Mp & ->).
    apply Seq_inv in Mp as (sa & ga & Ms & Mp).
    assert (Ea : sa = l ++ d :: ds /\ ga = [("release"%string, R)]).
    { apply Opt_inv in Ms as [Ms | Ms]; [exfalso | exact Ms].
      apply Cls_inv in Ms as (y & Ey & S & _). rewrite EX in Ey.
      injection Ey as <- _. congruence. }
    destruct Ea as [-> ->].
    apply Seq_inv in Mp as (sb & gb & Ml & Mp).
    apply Grp_inv in Ml as (gc & Ml & ->).
    assert (Eb : sb = d :: ds /\ gc = [("release"%string, R)]).
    { repeat (apply Alt_inv in Ml as [Ml | Ml];
              [apply ILit_strip in Ml as [Ml ->]; split; [|reflexivity];
               apply (pre_word_strip _ _ I Dd) in Ml;
               [exact Ml | simpl; tauto]|]).
      apply ILit_strip in Ml as [Ml ->]. split; [|reflexivity].
      apply (pre_word_strip _ _ I Dd) in Ml; [exact Ml | simpl; tauto]. }
    destruct Eb as [-> ->]. rewrite firstn_matched in Mp.
    apply Seq_inv in Mp as (sc & gd & Ms2 & Mn).
    assert (Ec : sc = d :: ds /\
                 gd = [("pre_l"%string, l); ("release"%string, R)]).
    { apply Opt_inv in Ms2 as [Ms2 | Ms2]; [exfalso | exact Ms2].
      apply Cls_inv in Ms2 as (y & Ey & S & _). injection Ey as <- _.
      apply sep_not_digit in S. congruence. }
    destruct Ec as [-> ->].
    assert (FN : forallb is_release_char (d :: ds) = true).
    { revert Dn. apply forallb_weaken, digit_release. }
    apply Opt_inv in Mn as [Mn | [-> ->]].
    + apply Grp_inv in Mn as (ge & Mn & ->).
      destruct (Mat_plain Mn eq_refl) as [-> _].
      pose proof (Mat_keeps _ Mn FN) as F5.
      destruct (after_pre_nil Mr F5) as [-> ->].
      change (List.length (@nil ascii)) with 0%nat.
      now rewrite !Nat.sub_0_r, !firstn_all.
    + exfalso. destruct (after_pre_nil Mr FN) as [E _]. discriminate E.
  - rewrite ER. exists c0. eexists. split; [reflexivity | exact D0].
  - rewrite forallb_app. apply andb_true_intro. split.
    + revert FR. apply forallb_weaken. intros y Hy.
      apply release_not_sign in Hy. unfold is_chr.
      destruct (Ascii.eqb_spec y "!"); [tauto | reflexivity].
    + rewrite forallb_app. apply andb_true_intro. split.
      * unfold pre_words in I. simpl in I.
        destruct I as [E | [E | [E | []]]]; injection E as _ <-;
          reflexivity.
      * revert Dn. apply forallb_weaken. intros y Hy.
        apply digit_release, release_not_sign in Hy. unfold is_chr.
        destruct (Ascii.eqb_spec y "!"); [tauto | reflexivity].
Qed.

Lemma pre_word_Mat w s g s' :
  In w ["alpha"; "a"; "beta"; "b"; "preview"; "pre"; "c"; "rc"]%string ->
  ilit_strip (lit w) s = Some s' ->
  Mat (Alt (ILit (lit "alpha")) (Alt (ILit (lit "a"))
      (Alt (ILit (lit "beta")) (Alt (ILit (lit "b"))
      (Alt (ILit (lit "preview")) (Alt (ILit (lit "pre"))
      (Alt (ILit (lit "c")) (ILit (lit "rc")))))))))
    s g s' g.
Proof.
  intros I H. apply (ilit_strip_Mat _ _ g) in H. simpl in I.
  destruct I as [<- | [<- | [<- | [<- | [<- | [<- | [<- | [<- | []]]]]]]]];
    repeat first [ apply MAltL; exact H | apply MAltR ]; exact H.
Qed.

Lemma version_re_pre_exists a b c word l n :
  In (word, l) pre_words ->
  exists g, Mat PyPIVersion.version_re (pre_text a b c l n) [] [] g.
Proof.
  intros I. unfold pre_text.
  pose proof (dec_not_nil n) as NE. pose proof (dec_digits n) as Dn.
  pose proof (num_Mat n []) as Mn. rewrite app_nil_r in Mn.
  remember (dec n) as N eqn:HN. clear HN.
  destruct N as [|d ds]; [contradiction|]. clear NE.
  simpl in Dn. apply andb_prop in Dn as [Dd _].
  destruct (@pre_word_exists word l d ds I Dd) as (w & Iw & Hw).
  eexists. rewrite version_re_eq.
  eapply MSeq; [apply MStar0|].
  eapply MSeq; [apply MAltR, MEps|].
  eapply MSeq; [apply MAltR, MEps|].
  eapply MSeq; [apply MGrp, release_Mat|].
  rewrite after_release_eq. eapply MSeq.
  - apply MAltL.
    cbv [pre_group_re after_release_re PyPIVersion.version_re].
    apply MGrp.
    eapply MSeq; [apply MAltR, MEps|].
    eapply MSeq; [apply MGrp; exact (@pre_word_Mat w _ _ _ Iw Hw)|].
    eapply MSeq; [apply MAltR, MEps|].
    apply MAltL, MGrp, Mn.
  - cbv [after_pre_re after_release_re PyPIVersion.version_re].
    eapply MSeq; [apply MAltR, MEps|].
    eapply MSeq; [apply MAltR, MEps|].
    eapply MSeq; [apply MAltR, MEps|].
    eapply MSeq; [apply MStar0 | apply MEol; now left].
Qed.

(** [Version] of the text of a prerelease: the three numbers as the
    release, the letter and its number. *)
Lemma init_pre a b c word l n :
  In (word, l) pre_words ->
  PyPIVersion.__init__ (pre_text a b c l n) =
  Ok (PyPIVersion.Build 0 [a; b; c] (Some (l, n)) None None).
Proof.
  intros I. unfold PyPIVersion.__init__.
  destruct (re_match _ _) as [g|] eqn:E.
  - apply re_match_sound in E as [s' M].
    apply (@version_re_pre a b c word l n s' g I) in M. subst g.
    cbn [group String.eqb Ascii.eqb Bool.eqb VersionInfo.or_empty].
    rewrite split_dot_release, ints_dec. cbn [bind].
    unfold pre_words in I. simpl in I.
    destruct I as [E | [E | [E | []]]]; injection E as _ <-;
      cbn; unfold PyPIVersion.int_; rewrite py_int_dec; reflexivity.
  - exfalso. destruct (@version_re_pre_exists a b c word l n I) as [g M].
    now apply re_match_complete in M.
Qed.

Lemma digit_not_tail c : is_digit c = true -> stop_tail c = false.
Proof. by_char c. Qed.

(** The semver pattern rejects a letter right after the patch. *)
Lemma semver_rejects_pre a b c word l n :
  In (word, l) pre_words ->
  re_match (VersionInfo.semver_re true) (pre_text a b c l n) = None.
Proof.
  intros I. apply re_match_none. intros s' g M0.
  unfold pre_text, release_text in M0.
  change (dotted (map dec [b; c]))
    with ("." :: dec b ++ "." :: dec c ++ []) in M0.
  rewrite app_nil_r in M0. rewrite <- !app_assoc in M0.
  cbn [app] in M0. rewrite <- !app_assoc in M0. cbn [app] in M0.
  rewrite semver_re_eq in M0.
  apply Seq_inv in M0 as (s1 & g1 & MM & M1).
  pose proof (Mat_guarded stop_core M1 (minor_tail_guarded true)) as G1.
  destruct (numeral_group _ _ MM eq_refl G1) as [-> ->].
  apply Seq_inv in M1 as (s2 & g2 & Mm & MT).
  pose proof (Mat_guarded stop_tail MT pre_tail_guarded) as GT.
  unfold minor_re in Mm.
  apply quant_inv in Mm as [Mm | (_ & -> & ->)]; [|discriminate GT].
  apply Seq_inv in Mm as (s3 & g3 & MC & Mm).
  apply Chr_inv in MC as [E ->]. injection E as <-.
  apply Seq_inv in Mm as (s4 & g4 & Mm & Mp).
  pose proof (Mat_guarded stop_core (MSeq Mp MT) (patch_tail_guarded true))
    as G4.
  destruct (numeral_group _ _ Mm eq_refl G4) as [-> ->].
  unfold patch_re in Mp.
  apply quant_inv in Mp as [Mp | (_ & -> & ->)]; [|discriminate GT].
  apply Seq_inv in Mp as (s5 & g5 & MC & Mp).
  apply Chr_inv in MC as [E ->]. injection E as <-.
  apply Grp_inv in Mp as (g0 & Mp & _).
  destruct (Mat_within is_digit Mp numeric_within) as (w & E & Fw).
  destruct (pre_letter_head (dec n) I) as (x & r & EX & Ix & Hx).
  assert (HX : headok (fun c => negb (is_digit c)) (l ++ dec n) = true).
  { rewrite EX. simpl.
    apply orb_false_elim in Hx as [_ ->]. reflexivity. }
  destruct (prefix_split is_digit w s2 (dec c) (l ++ dec n)
              (eq_sym E) Fw HX) as (u & Eu & ->).
  destruct u as [|y u].
  - rewrite EX in GT. simpl in Ix. simpl in GT.
    destruct Ix as [<- | [<- | [<- | []]]]; discriminate GT.
  - pose proof (dec_digits c) as D. rewrite Eu, forallb_app in D.
    apply andb_prop in D as [_ D]. simpl in D.
    apply andb_prop in D as [D _]. apply digit_not_tail in D.
    simpl in GT. congruence.
Qed.

Lemma pre_text_triple a b c l n :
  pre_text a b c l n =
  triple_text (VersionInfo.Build a b c None None) ++ l ++ dec n.
Proof.
  unfold pre_text, release_text, triple_text.
  change (dotted (map dec [b; c]))
    with ("." :: dec b ++ "." :: dec c ++ []).
  cbn [VersionInfo.major VersionInfo.minor VersionInfo.patch lit
       list_ascii_of_string].
  rewrite app_nil_r. cbn [app].
  repeat (rewrite <- app_assoc; cbn [app]). reflexivity.
Qed.

(** X24: the text of a prerelease in PEP 440 goes through unchanged.  A
    text [a.b.cLN] with [L] one of [a], [b], [rc] is rejected by the semver
    decoder and read by the PEP 440 decoder as the version [a.b.c] with
    the prerelease [alpha.N], [beta.N] or [rc.N]; and [to_pypi] of that
    version is the text again. *)
Theorem X24_prerelease_text_round_trip
    (a b c n : N) (word l : str) :
  In (word, l) pre_words ->
  let v :=
    SemanticVersion.Build
      (VersionInfo.Build a b c (Some (word ++ "." :: dec n)) None)
      (pre_text a b c l n) [] PYPI in
  SemanticVersion.parse (pre_text a b c l n) = Ok v /\
  SemanticVersion.to_pypi v = Ok (pre_text a b c l n).
Proof.
  intros I v. split.
  - unfold SemanticVersion.parse. rewrite prefix_re_none_at.
    + unfold SemanticVersion._parse_semver, VersionInfo.parse.
      rewrite (@semver_rejects_pre a b c word l n I).
      unfold SemanticVersion._parse_pypi.
      rewrite (@init_pre a b c word l n I). unfold v.
      unfold pre_words in I. simpl in I.
      destruct I as [E | [E | [E | []]]]; injection E as <- <-;
        reflexivity.
    + unfold pre_text. rewrite !forallb_app.
      repeat (apply andb_true_intro; split).
      * apply (forallb_weaken is_release_char);
          [|apply release_text_chars].
        intros x H. apply release_not_sign in H. unfold not_at, is_chr.
        destruct (Ascii.eqb_spec x "@"); [tauto | reflexivity].
      * unfold pre_words in I. simpl in I.
        destruct I as [E | [E | [E | []]]]; injection E as _ <-;
          reflexivity.
      * apply (forallb_weaken is_digit); [|apply dec_digits].
        intros x H. apply digit_release, release_not_sign in H.
        unfold not_at, is_chr.
        destruct (Ascii.eqb_spec x "@"); [tauto | reflexivity].
    + unfold pre_text.
      destruct (release_text_head a [b; c]) as (c0 & t0 & -> & D0).
      exists c0. eexists. split; [reflexivity | exact D0].
  - rewrite to_pypi_steps. unfold v, SemanticVersion.version_info.
    cbn [SemanticVersion.semver_parts VersionInfo.prerelease
         VersionInfo.build].
    rewrite (@to_pypi_prerelease_word _ word l n I).
    cbn [bind to_pypi_build VersionInfo.falsy].
    now rewrite pre_text_triple.
Qed.

Lemma X24_prerelease_text_round_trip_witness :
  SemanticVersion.parse (pre_text 1 0 0 (lit "rc") 3) =
    Ok (SemanticVersion.Build
          (VersionInfo.Build 1 0 0 (Some (lit "rc" ++ "." :: dec 3)) None)
          (pre_text 1 0 0 (lit "rc") 3) [] PYPI) /\
  SemanticVersion.to_pypi
    (SemanticVersion.Build
       (VersionInfo.Build 1 0 0 (Some (lit "rc" ++ "." :: dec 3)) None)
       (pre_text 1 0 0 (lit "rc") 3) [] PYPI) =
    Ok (pre_text 1 0 0 (lit "rc") 3).
Proof.
  apply (@X24_prerelease_text_round_trip 1 0 0 3 (lit "rc") (lit "rc")).
  unfold pre_words. simpl. tauto.
Defined.
